(** * A shallow embedding of the Tetris core (tetris/gametypes.py)

  The Python classes [Tetromino], [TetrominoType], [Board], [Game],
  [GameTick], [InfoDisplay] and [Input] are embedded as records and
  functions.  Python integers are [Z].  [Tetromino] objects are mutable
  and shared by reference (the falling tetromino is appended to the
  board's list and then mutated through it), so they live in a store and
  the board holds references into it.  [random.choice] is an argument of
  the operations that draw a new tetromino.  The only exception the core
  can raise is the [KeyError] of the row counter in
  [Board.findFullRows]; operations that reach it return a [result]. *)

From stdpp Require Import base tactics option list list_numbers sorting gmap.
From Stdlib Require Import ZArith QArith Lia.

Open Scope Z_scope.

(** ** Values *)

(** A grid coordinate [(column, row)], a Python 2-tuple of ints. *)
Abbreviation Coord := (Z * Z)%type.

(** [RIGHT, DOWN, LEFT, UP = range(4)]: the four orientations. *)
Inductive Orientation := RIGHT | DOWN | LEFT | UP.

(** The regions cut out of the blocks image, one per type. *)
Inductive Image := green | blue | purple | orange | brown | red | yellow.

(** A reference to a [Tetromino] object: its index in the store. *)
Abbreviation ref := nat (only parsing).

(** What a call yields: a value, or the [KeyError] it raised. *)
Inductive result (A : Type) : Type :=
| OK (a : A)
| KeyError (key : Z).
Arguments OK {A} a.
Arguments KeyError {A} key.

(** What [blit] is called on: a block image or the background. *)
Inductive Picture := BlockImage (image : Image) | BackgroundImage.

(** The three labels of [InfoDisplay]; the first shows a number. *)
Inductive Label := ROWS_CLEARED (n : Z) | PAUSED | GAME_OVER.

(** A call that draws: [image.blit(x, y)] or [label.draw()]. *)
Inductive DrawCall := Blit (p : Picture) (x y : Z) | DrawLabel (l : Label).

Module key.

(** The constants of [pyglet.window.key] the input reads.  Their values
    belong to pyglet; the functions below take them as an argument. *)
Record t := mk {
  SPACE : Z;
  MOTION_LEFT : Z;
  MOTION_RIGHT : Z;
  MOTION_UP : Z;
  MOTION_DOWN : Z
}.

End key.

Module Input.

(** [TOGGLE_PAUSE, MOVE_DOWN, MOVE_LEFT, MOVE_RIGHT, ROTATE_CLOCKWISE = range(5)] *)
Inductive Command :=
  | TOGGLE_PAUSE | MOVE_DOWN | MOVE_LEFT | MOVE_RIGHT | ROTATE_CLOCKWISE.

#[global] Instance Command_eq_dec : EqDecision Command.
Proof. solve_decision. Defined.

(** [self.action]: the last input, [None] when there is none. *)
Record t := mk { action : option Command }.

(** [consume]: hand out the pending action and forget it. *)
Definition consume (self : t) : option Command * t :=
  (action self, mk None).

(** [processKeypress]: only the space bar is read; [modifiers] is not. *)
Definition processKeypress (keys : key.t) (symbol modifiers : Z) (self : t) : t :=
  if decide (symbol = key.SPACE keys) then mk (Some TOGGLE_PAUSE) else self.

(** [processTextMotion]: the chain of [if]/[elif] over the four arrows. *)
Definition processTextMotion (keys : key.t) (motion : Z) (self : t) : t :=
  if decide (motion = key.MOTION_LEFT keys) then mk (Some MOVE_LEFT)
  else if decide (motion = key.MOTION_RIGHT keys) then mk (Some MOVE_RIGHT)
  else if decide (motion = key.MOTION_UP keys) then mk (Some ROTATE_CLOCKWISE)
  else if decide (motion = key.MOTION_DOWN keys) then mk (Some MOVE_DOWN)
  else self.

End Input.

Module TetrominoType.

Record t := mk {
  blockImage : Image;
  localBlockCoordsByOrientation : Orientation -> list Coord
}.

Definition line : t := mk green (fun o =>
  match o with
  | RIGHT => [(0, 1); (1, 1); (2, 1); (3, 1)]
  | DOWN => [(1, 0); (1, 1); (1, 2); (1, 3)]
  | LEFT => [(0, 2); (1, 2); (2, 2); (3, 2)]
  | UP => [(2, 0); (2, 1); (2, 2); (2, 3)]
  end).

Definition square : t := mk blue (fun o =>
  match o with
  | RIGHT => [(0, 0); (0, 1); (1, 0); (1, 1)]
  | DOWN => [(0, 0); (0, 1); (1, 0); (1, 1)]
  | LEFT => [(0, 0); (0, 1); (1, 0); (1, 1)]
  | UP => [(0, 0); (0, 1); (1, 0); (1, 1)]
  end).

Definition L_shape : t := mk purple (fun o =>
  match o with
  | RIGHT => [(0, 1); (1, 1); (2, 1); (2, 2)]
  | DOWN => [(1, 2); (1, 1); (1, 0); (2, 0)]
  | LEFT => [(0, 0); (0, 1); (1, 1); (2, 1)]
  | UP => [(0, 2); (1, 2); (1, 1); (1, 0)]
  end).

Definition reverse_L_shape : t := mk orange (fun o =>
  match o with
  | RIGHT => [(0, 2); (0, 1); (1, 1); (2, 1)]
  | DOWN => [(2, 2); (1, 2); (1, 1); (1, 0)]
  | LEFT => [(0, 1); (1, 1); (2, 1); (2, 0)]
  | UP => [(0, 0); (1, 0); (1, 1); (1, 2)]
  end).

Definition Z_shape : t := mk brown (fun o =>
  match o with
  | RIGHT => [(0, 2); (1, 2); (1, 1); (2, 1)]
  | DOWN => [(2, 2); (2, 1); (1, 1); (1, 0)]
  | LEFT => [(0, 1); (1, 1); (1, 0); (2, 0)]
  | UP => [(0, 0); (0, 1); (1, 1); (1, 2)]
  end).

Definition S_shape : t := mk red (fun o =>
  match o with
  | RIGHT => [(0, 1); (1, 1); (1, 2); (2, 2)]
  | DOWN => [(1, 2); (1, 1); (2, 1); (2, 0)]
  | LEFT => [(0, 0); (1, 0); (1, 1); (2, 1)]
  | UP => [(0, 2); (0, 1); (1, 1); (1, 0)]
  end).

Definition T_shape : t := mk yellow (fun o =>
  match o with
  | RIGHT => [(0, 1); (1, 1); (1, 2); (2, 1)]
  | DOWN => [(1, 2); (1, 1); (1, 0); (2, 1)]
  | LEFT => [(0, 1); (1, 1); (1, 0); (2, 1)]
  | UP => [(0, 1); (1, 0); (1, 1); (1, 2)]
  end).

(** [TetrominoType.TYPES], as [classInit] fills it. *)
Definition TYPES : list t :=
  [line; square; L_shape; reverse_L_shape; Z_shape; S_shape; T_shape].

End TetrominoType.

Module Tetromino.

(** [CLOCKWISE_ROTATIONS = {RIGHT: DOWN, DOWN: LEFT, LEFT: UP, UP: RIGHT}] *)
Definition CLOCKWISE_ROTATIONS (o : Orientation) : Orientation :=
  match o with
  | RIGHT => DOWN
  | DOWN => LEFT
  | LEFT => UP
  | UP => RIGHT
  end.

Record t := mk {
  x : Z;
  y : Z;
  tetrominoType : TetrominoType.t;
  orientation : Orientation;
  blockBoardCoords : list Coord
}.

(** The loop of [calcBlockBoardCoords] over the local coordinates. *)
Fixpoint translate (x y : Z) (localBlockCoords : list Coord) : list Coord :=
  match localBlockCoords with
  | [] => []
  | coord :: rest => (coord.1 + x, coord.2 + y) :: translate x y rest
  end.

Definition calcBlockBoardCoords (self : t) : list Coord :=
  let localBlockCoords :=
    TetrominoType.localBlockCoordsByOrientation (tetrominoType self)
      (orientation self) in
  translate (x self) (y self) localBlockCoords.

(** [self.blockBoardCoords = self.calcBlockBoardCoords()], the last
    statement of every method that moves or turns the tetromino. *)
Definition recalc (self : t) : t :=
  mk (x self) (y self) (tetrominoType self) (orientation self)
     (calcBlockBoardCoords self).

(** [Tetromino()], with [tetrominoType] what [randomType()] returned. *)
Definition new (tetrominoType : TetrominoType.t) : t :=
  recalc (mk 0 0 tetrominoType RIGHT []).

Definition setPosition (x' y' : Z) (self : t) : t :=
  recalc (mk x' y' (tetrominoType self) (orientation self)
            (blockBoardCoords self)).

Definition moveDown (self : t) : t :=
  recalc (mk (x self) (y self - 1) (tetrominoType self) (orientation self)
            (blockBoardCoords self)).

Definition moveUp (self : t) : t :=
  recalc (mk (x self) (y self + 1) (tetrominoType self) (orientation self)
            (blockBoardCoords self)).

Definition moveLeft (self : t) : t :=
  recalc (mk (x self - 1) (y self) (tetrominoType self) (orientation self)
            (blockBoardCoords self)).

Definition moveRight (self : t) : t :=
  recalc (mk (x self + 1) (y self) (tetrominoType self) (orientation self)
            (blockBoardCoords self)).

Definition rotateClockwise (self : t) : t :=
  recalc (mk (x self) (y self) (tetrominoType self)
            (CLOCKWISE_ROTATIONS (orientation self))
            (blockBoardCoords self)).

Definition rotateCounterclockwise (self : t) : t :=
  let o1 := CLOCKWISE_ROTATIONS (orientation self) in
  let o2 := CLOCKWISE_ROTATIONS o1 in
  let o3 := CLOCKWISE_ROTATIONS o2 in
  recalc (mk (x self) (y self) (tetrominoType self) o3
            (blockBoardCoords self)).

(** [command]: the chain of [if]/[elif]; [TOGGLE_PAUSE] matches no
    branch and leaves the tetromino as it is. *)
Definition command (command : Input.Command) (self : t) : t :=
  match command with
  | Input.MOVE_DOWN => moveDown self
  | Input.MOVE_RIGHT => moveRight self
  | Input.MOVE_LEFT => moveLeft self
  | Input.ROTATE_CLOCKWISE => rotateClockwise self
  | Input.TOGGLE_PAUSE => self
  end.

Definition undoCommand (command : Input.Command) (self : t) : t :=
  match command with
  | Input.MOVE_DOWN => moveUp self
  | Input.MOVE_RIGHT => moveLeft self
  | Input.MOVE_LEFT => moveRight self
  | Input.ROTATE_CLOCKWISE => rotateCounterclockwise self
  | Input.TOGGLE_PAUSE => self
  end.

(** The loop of [clearRow]: two independent [if]s per coordinate. *)
Fixpoint clearRow_loop (boardGridRow : Z) (coords : list Coord) : list Coord :=
  match coords with
  | [] => []
  | coord :: rest =>
      (if coord.2 >? boardGridRow then [(coord.1, coord.2 - 1)] else [])
      ++ (if coord.2 <? boardGridRow then [coord] else [])
      ++ clearRow_loop boardGridRow rest
  end.

(** [clearRow] returns the mutated object and [len(...) > 0]. *)
Definition clearRow (boardGridRow : Z) (self : t) : t * bool :=
  let newBlockBoardCoords := clearRow_loop boardGridRow (blockBoardCoords self) in
  (mk (x self) (y self) (tetrominoType self) (orientation self)
      newBlockBoardCoords,
   (0 <? Z.of_nat (length newBlockBoardCoords))).

#[global] Instance inhabited : Inhabited t :=
  populate (mk 0 0 TetrominoType.line RIGHT []).

(** [draw]: one [blit] of the type's block image per screen coordinate. *)
Fixpoint draw_loop (image : Image) (screenCoords : list Coord) : list DrawCall :=
  match screenCoords with
  | [] => []
  | coords :: rest =>
      Blit (BlockImage image) coords.1 coords.2 :: draw_loop image rest
  end.

Definition draw (screenCoords : list Coord) (self : t) : list DrawCall :=
  draw_loop (TetrominoType.blockImage (tetrominoType self)) screenCoords.

End Tetromino.

Module Board.

(** ['starting zone' is where the tetrominos spawn above the play grid] *)
Definition STARTING_ZONE_HEIGHT : Z := 4.
Definition NEXT_X : Z := -5.
Definition NEXT_Y : Z := 20.

(** The [Board] object together with the store of the [Tetromino]
    objects it refers to: [heap] is the store, the three last fields are
    references into it. *)
Record t := mk {
  heap : list Tetromino.t;
  x : Z;
  y : Z;
  gridWidth : Z;
  gridHeight : Z;
  spawnX : Z;
  spawnY : Z;
  blockSize : Z;
  nextTetromino : ref;
  fallingTetromino : ref;
  tetrominos : list ref
}.

Definition with_heap (h : list Tetromino.t) (self : t) : t :=
  mk h (x self) (y self) (gridWidth self) (gridHeight self) (spawnX self)
     (spawnY self) (blockSize self) (nextTetromino self)
     (fallingTetromino self) (tetrominos self).

Definition with_nextTetromino (r : ref) (self : t) : t :=
  mk (heap self) (x self) (y self) (gridWidth self) (gridHeight self)
     (spawnX self) (spawnY self) (blockSize self) r
     (fallingTetromino self) (tetrominos self).

Definition with_fallingTetromino (r : ref) (self : t) : t :=
  mk (heap self) (x self) (y self) (gridWidth self) (gridHeight self)
     (spawnX self) (spawnY self) (blockSize self) (nextTetromino self)
     r (tetrominos self).

Definition with_tetrominos (l : list ref) (self : t) : t :=
  mk (heap self) (x self) (y self) (gridWidth self) (gridHeight self)
     (spawnX self) (spawnY self) (blockSize self) (nextTetromino self)
     (fallingTetromino self) l.

(** The object a reference points to. *)
Definition deref (self : t) (r : ref) : Tetromino.t := heap self !!! r.

(** A method call [r.m()] that mutates the object behind [r]. *)
Definition modify (r : ref) (m : Tetromino.t -> Tetromino.t) (self : t) : t :=
  with_heap (<[r := m (deref self r)]> (heap self)) self.

(** A new object; its reference is the next free index. *)
Definition alloc (o : Tetromino.t) (self : t) : ref * t :=
  (length (heap self), with_heap (heap self ++ [o]) self).

(** [spawnTetromino]; [k] is the type the new [Tetromino()] draws. *)
Definition spawnTetromino (k : TetrominoType.t) (self : t) : t :=
  let self := with_fallingTetromino (nextTetromino self) self in
  let self := modify (fallingTetromino self)
                (Tetromino.setPosition (spawnX self) (spawnY self)) self in
  let '(r, self) := alloc (Tetromino.new k) self in
  let self := with_nextTetromino r self in
  modify (nextTetromino self) (Tetromino.setPosition NEXT_X NEXT_Y) self.

(** [Board(x, y, gridWidth, gridHeight, blockSize)]; [k1] and [k2] are the
    types drawn by the two [Tetromino()] calls.  [int(gridWidth * 1/3)]
    divides as a float and truncates towards zero; for a width that is
    not negative this is the floor, also where [/] is integer division.
    [fallingTetromino] is [None] until [spawnTetromino] assigns it, two
    statements later. *)
Definition init (x y gridWidth gridHeight blockSize : Z)
    (k1 k2 : TetrominoType.t) : t :=
  let self :=
    mk [Tetromino.new k1] x y gridWidth gridHeight
       (Z.quot (gridWidth * 1) 3) gridHeight blockSize 0%nat 0%nat [] in
  let self := spawnTetromino k2 self in
  with_tetrominos [] self.

(** The list both [isValidPosition] and [findFullRows] build first. *)
Definition nonFallingBlockCoords (self : t) : list Coord :=
  tetromino ← tetrominos self; Tetromino.blockBoardCoords (deref self tetromino).

Fixpoint isValidPosition_loop (gridWidth : Z) (nonFalling coords : list Coord)
    : bool :=
  match coords with
  | [] => true
  | coord :: rest =>
      let outOfBounds :=
        (coord.1 <? 0) || (coord.1 >=? gridWidth) || (coord.2 <? 0) in
      let overlapping := bool_decide (coord ∈ nonFalling) in
      if outOfBounds || overlapping then false
      else isValidPosition_loop gridWidth nonFalling rest
  end.

Definition isValidPosition (self : t) : bool :=
  isValidPosition_loop (gridWidth self) (nonFallingBlockCoords self)
    (Tetromino.blockBoardCoords (deref self (fallingTetromino self))).

(** [rowCounts[coord[1]] += 1] for every coordinate; a missing key raises. *)
Fixpoint countRows (coords : list Coord) (rowCounts : gmap Z Z)
    : result (gmap Z Z) :=
  match coords with
  | [] => OK rowCounts
  | coord :: rest =>
      match rowCounts !! coord.2 with
      | None => KeyError coord.2
      | Some n => countRows rest (<[coord.2 := n + 1]> rowCounts)
      end
  end.

(** [findFullRows].  The dict is filled for [range(gridHeight + 4)] and
    never gets another key, so iterating it visits these rows, in the
    order they were inserted. *)
Definition findFullRows (self : t) : result (list Z) :=
  let rows := seqZ 0 (gridHeight self + STARTING_ZONE_HEIGHT) in
  let rowCounts := foldl (fun d i => <[i := 0]> d) (∅ : gmap Z Z) rows in
  match countRows (nonFallingBlockCoords self) rowCounts with
  | KeyError k => KeyError k
  | OK rowCounts =>
      OK (filter (fun row => rowCounts !! row = Some (gridWidth self)) rows)
  end.

(** The loop of [Board.clearRow]: every tetromino of the list is cleared
    in place, those with blocks left are kept. *)
Fixpoint clearRow_loop (gridRow : Z) (todo : list ref) (kept : list ref)
    (self : t) : t :=
  match todo with
  | [] => with_tetrominos kept self
  | tetromino :: rest =>
      let '(o, remaining) := Tetromino.clearRow gridRow (deref self tetromino) in
      let self := modify tetromino (fun _ => o) self in
      clearRow_loop gridRow rest
        (if remaining then kept ++ [tetromino] else kept) self
  end.

Definition clearRow (gridRow : Z) (self : t) : t :=
  clearRow_loop gridRow (tetrominos self) [] self.

(** [gridRows.sort(reverse=True)] *)
Definition sort_reverse (gridRows : list Z) : list Z :=
  merge_sort Z.ge gridRows.

Definition clearRows (gridRows : list Z) (self : t) : t :=
  foldl (fun self row => clearRow row self) self (sort_reverse gridRows).

Definition commandFallingTetromino (command : Input.Command) (self : t) : t :=
  let self := modify (fallingTetromino self) (Tetromino.command command) self in
  if isValidPosition self then self
  else modify (fallingTetromino self) (Tetromino.undoCommand command) self.

Fixpoint isInStartZone_loop (gridHeight : Z) (coords : list Coord) : bool :=
  match coords with
  | [] => false
  | coords0 :: rest =>
      if coords0.2 >=? gridHeight then true
      else isInStartZone_loop gridHeight rest
  end.

Definition isInStartZone (self : t) (tetromino : ref) : bool :=
  isInStartZone_loop (gridHeight self)
    (Tetromino.blockBoardCoords (deref self tetromino)).

(** [updateTick]; [k] is the type drawn if a tetromino is spawned. *)
Definition updateTick (k : TetrominoType.t) (self : t)
    : result (t * (Z * bool)) :=
  let self := modify (fallingTetromino self)
                (Tetromino.command Input.MOVE_DOWN) self in
  if isValidPosition self then OK (self, (0, false))
  else
    let self := modify (fallingTetromino self)
                  (Tetromino.undoCommand Input.MOVE_DOWN) self in
    let self := with_tetrominos (tetrominos self ++ [fallingTetromino self])
                  self in
    match findFullRows self with
    | KeyError key => KeyError key
    | OK fullRows =>
        let self := clearRows fullRows self in
        let gameLost := isInStartZone self (fallingTetromino self) in
        let self := if gameLost then self else spawnTetromino k self in
        OK (self, (Z.of_nat (length fullRows), gameLost))
    end.

Fixpoint gridCoordsToScreenCoords_loop (x y blockSize : Z)
    (coords : list Coord) : list Coord :=
  match coords with
  | [] => []
  | coord :: rest =>
      (x + coord.1 * blockSize, y + coord.2 * blockSize)
      :: gridCoordsToScreenCoords_loop x y blockSize rest
  end.

Definition gridCoordsToScreenCoords (self : t) (coords : list Coord)
    : list Coord :=
  gridCoordsToScreenCoords_loop (x self) (y self) (blockSize self) coords.

(** [tetromino.draw(self.gridCoordsToScreenCoords(tetromino.blockBoardCoords))] *)
Definition drawTetromino (self : t) (tetromino : ref) : list DrawCall :=
  let screenCoords :=
    gridCoordsToScreenCoords self
      (Tetromino.blockBoardCoords (deref self tetromino)) in
  Tetromino.draw screenCoords (deref self tetromino).

(** [draw]: the listed tetrominos in order, the falling one, the next one;
    the result lists the calls of [blit] in the order they are made. *)
Definition draw (self : t) : list DrawCall :=
  (tetromino ← tetrominos self; drawTetromino self tetromino)
  ++ drawTetromino self (fallingTetromino self)
  ++ drawTetromino self (nextTetromino self).

End Board.

Module GameTick.

(** The flag [tick] is set by the callback [setTick] that [isTick] hands
    to [pyglet.clock.schedule_once]; [scheduled] lists the delays of the
    callbacks handed over and not yet run. *)
Record t := mk { tick : bool; started : bool; scheduled : list Q }.

(** [GameTick()], with the default [tickOnFirstCall=False]. *)
Definition init : t := mk false false [].

Definition isTick (nextTickTime : Q) (self : t) : bool * t :=
  if negb (started self) then
    (false, mk (tick self) true (scheduled self ++ [nextTickTime]))
  else if tick self then
    (true, mk false (started self) (scheduled self ++ [nextTickTime]))
  else (false, self).

(** The clock runs the oldest scheduled [setTick]. *)
Definition setTick (self : t) : t :=
  match scheduled self with
  | [] => self
  | _ :: rest => mk true (started self) rest
  end.

(** [GameTick(tickOnFirstCall)] *)
Definition new (tickOnFirstCall : bool) : t :=
  mk tickOnFirstCall tickOnFirstCall [].

End GameTick.

Module InfoDisplay.

(** [rowsClearedLabel] holds the number shown after ['Rows cleared: ']. *)
Record t := mk {
  rowsClearedLabel : Z;
  showPausedLabel : bool;
  showGameoverLabel : bool
}.

Definition init : t := mk 0 false false.

Definition setRowsCleared (numRowsCleared : Z) (self : t) : t :=
  mk numRowsCleared (showPausedLabel self) (showGameoverLabel self).

(** [draw]: the counter always, the two other labels when their flag is
    set. *)
Definition draw (self : t) : list DrawCall :=
  [DrawLabel (ROWS_CLEARED (rowsClearedLabel self))]
  ++ (if showPausedLabel self then [DrawLabel PAUSED] else [])
  ++ (if showGameoverLabel self then [DrawLabel GAME_OVER] else []).

End InfoDisplay.

Module Game.

(** [rowsCleared] is the attribute [update] creates at the first tick. *)
Record t := mk {
  paused : bool;
  lost : bool;
  numRowsCleared : Z;
  board : Board.t;
  infoDisplay : InfoDisplay.t;
  input : Input.t;
  tickSpeed : Q;
  ticker : GameTick.t;
  rowsCleared : option Z
}.

Definition init (board : Board.t) (infoDisplay : InfoDisplay.t)
    (input : Input.t) : t :=
  mk false false 0 board infoDisplay input (6 # 10)%Q GameTick.init None.

Definition addRowsCleared (n : Z) (self : t) : t :=
  let total := numRowsCleared self + n in
  mk (paused self) (lost self) total (board self)
     (InfoDisplay.setRowsCleared total (infoDisplay self)) (input self)
     (tickSpeed self) (ticker self) (rowsCleared self).

Definition togglePause (self : t) : t :=
  let p := negb (paused self) in
  mk p (lost self) (numRowsCleared self) (board self)
     (InfoDisplay.mk (InfoDisplay.rowsClearedLabel (infoDisplay self)) p
        (InfoDisplay.showGameoverLabel (infoDisplay self)))
     (input self) (tickSpeed self) (ticker self) (rowsCleared self).

(** [self.infoDisplay.showGameoverLabel = True] *)
Definition showGameover (self : t) : t :=
  mk (paused self) (lost self) (numRowsCleared self) (board self)
     (InfoDisplay.mk (InfoDisplay.rowsClearedLabel (infoDisplay self))
        (InfoDisplay.showPausedLabel (infoDisplay self)) true)
     (input self) (tickSpeed self) (ticker self) (rowsCleared self).

(** [update]; [k] is the type drawn if the tick spawns a tetromino. *)
Definition update (k : TetrominoType.t) (self : t) : result t :=
  if lost self then OK (showGameover self)
  else
    let '(command, inp) := Input.consume (input self) in
    let self := mk (paused self) (lost self) (numRowsCleared self)
                  (board self) (infoDisplay self) inp (tickSpeed self)
                  (ticker self) (rowsCleared self) in
    let self := if bool_decide (command = Some Input.TOGGLE_PAUSE)
                then togglePause self else self in
    if negb (paused self) && negb (lost self) then
      let self :=
        match command with
        | Some c =>
            if bool_decide (c ≠ Input.TOGGLE_PAUSE) then
              mk (paused self) (lost self) (numRowsCleared self)
                 (Board.commandFallingTetromino c (board self))
                 (infoDisplay self) (input self) (tickSpeed self)
                 (ticker self) (rowsCleared self)
            else self
        | None => self
        end in
      let '(due, tk) := GameTick.isTick (tickSpeed self) (ticker self) in
      let self := mk (paused self) (lost self) (numRowsCleared self)
                    (board self) (infoDisplay self) (input self)
                    (tickSpeed self) tk (rowsCleared self) in
      if due then
        match Board.updateTick k (board self) with
        | KeyError key => KeyError key
        | OK (b, (n, l)) =>
            OK (addRowsCleared n
                  (mk (paused self) l (numRowsCleared self) b
                      (infoDisplay self) (input self) (tickSpeed self)
                      (ticker self) (Some n)))
        end
      else OK self
    else OK self.

Definition draw (self : t) : list DrawCall :=
  [Blit BackgroundImage 0 0]
  ++ Board.draw (board self)
  ++ InfoDisplay.draw (infoDisplay self).

End Game.

(** tetris.py: the constants, the objects it builds and its handlers. *)
Module tetris.

Definition WIDTH : Z := 800.
Definition HEIGHT : Z := 600.
Definition BOARD_X : Z := 445.
Definition BOARD_Y : Z := 13.
Definition GRID_WIDTH : Z := 10.
Definition GRID_HEIGHT : Z := 20.
Definition BLOCK_SIZE : Z := 24.

(** [board], [infoDisplay], [input] and [game] as the module builds
    them; [k1] and [k2] are the types drawn for the first two tetrominos. *)
Definition board (k1 k2 : TetrominoType.t) : Board.t :=
  Board.init BOARD_X BOARD_Y GRID_WIDTH GRID_HEIGHT BLOCK_SIZE k1 k2.

Definition game (k1 k2 : TetrominoType.t) : Game.t :=
  Game.init (board k1 k2) InfoDisplay.init (Input.mk None).

(** What pyglet calls: a key press, a text motion, the clock running a
    scheduled [setTick], and the frame callback [update(dt)], with the
    type it draws if it spawns. *)
Inductive event :=
  | on_key_press (symbol modifiers : Z)
  | on_text_motion (motion : Z)
  | clock_setTick
  | update_frame (k : TetrominoType.t).

Definition with_input (inp : Input.t) (g : Game.t) : Game.t :=
  Game.mk (Game.paused g) (Game.lost g) (Game.numRowsCleared g) (Game.board g)
    (Game.infoDisplay g) inp (Game.tickSpeed g) (Game.ticker g)
    (Game.rowsCleared g).

Definition with_ticker (tk : GameTick.t) (g : Game.t) : Game.t :=
  Game.mk (Game.paused g) (Game.lost g) (Game.numRowsCleared g) (Game.board g)
    (Game.infoDisplay g) (Game.input g) (Game.tickSpeed g) tk
    (Game.rowsCleared g).

Definition handle (keys : key.t) (ev : event) (g : Game.t) : result Game.t :=
  match ev with
  | on_key_press symbol modifiers =>
      OK (with_input
            (Input.processKeypress keys symbol modifiers (Game.input g)) g)
  | on_text_motion motion =>
      OK (with_input (Input.processTextMotion keys motion (Game.input g)) g)
  | clock_setTick => OK (with_ticker (GameTick.setTick (Game.ticker g)) g)
  | update_frame k => Game.update k g
  end.

End tetris.

(** * Properties *)

Import Input.

(** ** The catalogue of shapes *)

Section Catalogue.

(** What every entry of a type's table satisfies: four distinct blocks
    inside the 4x4 local grid. *)
Definition local_ok (l : list Coord) : Prop :=
  length l = 4%nat ∧ NoDup l ∧ Forall (fun c => 0 ≤ c.1 ≤ 3 ∧ 0 ≤ c.2 ≤ 3) l.

#[local] Instance local_ok_dec l : Decision (local_ok l).
Proof. unfold local_ok. apply _. Defined.

Lemma TYPES_inv (k : TetrominoType.t) :
  k ∈ TetrominoType.TYPES →
  k = TetrominoType.line ∨ k = TetrominoType.square
  ∨ k = TetrominoType.L_shape ∨ k = TetrominoType.reverse_L_shape
  ∨ k = TetrominoType.Z_shape ∨ k = TetrominoType.S_shape
  ∨ k = TetrominoType.T_shape.
Proof.
  unfold TetrominoType.TYPES. rewrite !elem_of_cons, elem_of_nil. tauto.
Qed.

Lemma TYPES_local_ok (k : TetrominoType.t) (o : Orientation) :
  k ∈ TetrominoType.TYPES →
  local_ok (TetrominoType.localBlockCoordsByOrientation k o).
Proof.
  intros Hk. apply TYPES_inv in Hk.
  destruct Hk as [->|[->|[->|[->|[->|[->| ->]]]]]]; destruct o;
    apply (bool_decide_unpack _); vm_compute; reflexivity.
Qed.

Lemma translate_fmap (dx dy : Z) (l : list Coord) :
  Tetromino.translate dx dy l = (fun c : Coord => (c.1 + dx, c.2 + dy)) <$> l.
Proof. induction l as [|c l IH]; simpl; [done | by rewrite IH]. Qed.

#[global] Instance translate_inj (dx dy : Z) :
  Inj (=) (=) (fun c : Coord => (c.1 + dx, c.2 + dy)).
Proof. intros [a b] [c d] H. simpl in H. inversion H. f_equal; lia. Qed.

Lemma elem_of_calc (self : Tetromino.t) (c : Coord) :
  c ∈ Tetromino.calcBlockBoardCoords self ↔
  ∃ l, l ∈ TetrominoType.localBlockCoordsByOrientation
             (Tetromino.tetrominoType self) (Tetromino.orientation self)
       ∧ c = (l.1 + Tetromino.x self, l.2 + Tetromino.y self).
Proof.
  unfold Tetromino.calcBlockBoardCoords. rewrite translate_fmap.
  rewrite list_elem_of_fmap. split; intros (l & H1 & H2); eauto.
Qed.

(** Rows and columns of the blocks lie within three of the anchor. *)
Lemma calc_bounds (self : Tetromino.t) (c : Coord) :
  Tetromino.tetrominoType self ∈ TetrominoType.TYPES →
  c ∈ Tetromino.calcBlockBoardCoords self →
  Tetromino.x self ≤ c.1 ≤ Tetromino.x self + 3
  ∧ Tetromino.y self ≤ c.2 ≤ Tetromino.y self + 3.
Proof.
  intros Hk [l [Hl ->]]%elem_of_calc.
  destruct (TYPES_local_ok _ (Tetromino.orientation self) Hk) as (_ & _ & Hb).
  rewrite Forall_forall in Hb. specialize (Hb l Hl). simpl. lia.
Qed.

Lemma calc_four_distinct (self : Tetromino.t) :
  Tetromino.tetrominoType self ∈ TetrominoType.TYPES →
  length (Tetromino.calcBlockBoardCoords self) = 4%nat
  ∧ NoDup (Tetromino.calcBlockBoardCoords self).
Proof.
  intros Hk. unfold Tetromino.calcBlockBoardCoords.
  destruct (TYPES_local_ok _ (Tetromino.orientation self) Hk) as (Hlen & Hnd & _).
  rewrite translate_fmap, length_fmap. split; [done|].
  by apply (NoDup_fmap_2 _).
Qed.

End Catalogue.

(** C9.  For every type of the catalogue, every orientation and every
    anchor, [calcBlockBoardCoords] yields exactly four blocks, and they
    are pairwise distinct. *)
Theorem calcBlockBoardCoords_four_distinct
    (k : TetrominoType.t) (o : Orientation) (x y : Z) (cached : list Coord) :
  k ∈ TetrominoType.TYPES →
  let coords := Tetromino.calcBlockBoardCoords (Tetromino.mk x y k o cached) in
  length coords = 4%nat ∧ NoDup coords.
Proof.
  intros Hk coords. subst coords. by apply calc_four_distinct.
Qed.

Lemma calcBlockBoardCoords_four_distinct_witness :
  TetrominoType.T_shape ∈ TetrominoType.TYPES
  ∧ Tetromino.calcBlockBoardCoords
      (Tetromino.mk 3 20 TetrominoType.T_shape UP [])
    = [(3, 21); (4, 20); (4, 21); (4, 22)]
  ∧ length (Tetromino.calcBlockBoardCoords
              (Tetromino.mk 3 20 TetrominoType.T_shape UP [])) = 4%nat
  ∧ NoDup (Tetromino.calcBlockBoardCoords
             (Tetromino.mk 3 20 TetrominoType.T_shape UP [])).
Proof.
  assert (Hk : TetrominoType.T_shape ∈ TetrominoType.TYPES)
    by (unfold TetrominoType.TYPES; set_solver).
  split; [exact Hk|]. split; [reflexivity|].
  exact (calcBlockBoardCoords_four_distinct
           TetrominoType.T_shape UP 3 20 [] Hk).
Defined.

(** ** Commands and their undo *)

Section Commands.

Lemma calc_recalc (self : Tetromino.t) :
  Tetromino.calcBlockBoardCoords (Tetromino.recalc self)
  = Tetromino.calcBlockBoardCoords self.
Proof. reflexivity. Qed.

Lemma CLOCKWISE_ROTATIONS_4 (o : Orientation) :
  Tetromino.CLOCKWISE_ROTATIONS
    (Tetromino.CLOCKWISE_ROTATIONS
       (Tetromino.CLOCKWISE_ROTATIONS (Tetromino.CLOCKWISE_ROTATIONS o))) = o.
Proof. by destruct o. Qed.

(** Undoing a command gives back the tetromino with its blocks
    recomputed from the anchor and orientation it had. *)
Lemma undoCommand_command (cmd : Command) (self : Tetromino.t) :
  cmd ≠ TOGGLE_PAUSE →
  Tetromino.undoCommand cmd (Tetromino.command cmd self)
  = Tetromino.recalc self.
Proof.
  intros Hc. destruct self as [x y k o cs].
  destruct cmd; try done; cbv [Tetromino.undoCommand Tetromino.command
    Tetromino.moveDown Tetromino.moveUp Tetromino.moveLeft Tetromino.moveRight
    Tetromino.rotateClockwise Tetromino.rotateCounterclockwise
    Tetromino.recalc Tetromino.calcBlockBoardCoords
    Tetromino.x Tetromino.y Tetromino.tetrominoType Tetromino.orientation
    Tetromino.blockBoardCoords];
    rewrite ?CLOCKWISE_ROTATIONS_4;
    repeat match goal with
    | |- context [?a - 1 + 1] => replace (a - 1 + 1) with a by lia
    | |- context [?a + 1 - 1] => replace (a + 1 - 1) with a by lia
    end; reflexivity.
Qed.

(** With its cached blocks in step with its anchor and orientation, as
    they are for a tetromino that was only moved and turned, the object
    is back exactly. *)
Lemma undoCommand_command_in_sync (cmd : Command) (self : Tetromino.t) :
  Tetromino.blockBoardCoords self = Tetromino.calcBlockBoardCoords self →
  Tetromino.undoCommand cmd (Tetromino.command cmd self) = self.
Proof.
  intros Hs. destruct (decide (cmd = TOGGLE_PAUSE)) as [->|Hc]; [done|].
  rewrite undoCommand_command by done.
  destruct self; unfold Tetromino.recalc; simpl in *. by rewrite Hs.
Qed.

Lemma command_in_sync (cmd : Command) (self : Tetromino.t) :
  Tetromino.blockBoardCoords self = Tetromino.calcBlockBoardCoords self →
  Tetromino.blockBoardCoords (Tetromino.command cmd self)
  = Tetromino.calcBlockBoardCoords (Tetromino.command cmd self).
Proof. intros Hs. by destruct cmd. Qed.

Lemma command_type (cmd : Command) (self : Tetromino.t) :
  Tetromino.tetrominoType (Tetromino.command cmd self)
  = Tetromino.tetrominoType self.
Proof. by destruct cmd. Qed.

Lemma command_y (cmd : Command) (self : Tetromino.t) :
  Tetromino.y (Tetromino.command cmd self) ≤ Tetromino.y self.
Proof. destruct cmd; simpl; lia. Qed.

End Commands.

(** C4.  For each command, [command] followed by [undoCommand] leaves the
    tetromino with the anchor, the orientation and the type it had, and
    its block list is the one computed from them, the same list that
    [calcBlockBoardCoords] gave before ([TOGGLE_PAUSE], which is no
    tetromino command, leaves the object untouched); a tetromino whose
    cached blocks were the computed ones, as after any move or turn, is
    the same object value again.  The undo of [ROTATE_CLOCKWISE] is
    [rotateCounterclockwise], which looks up [CLOCKWISE_ROTATIONS] three
    times. *)
Theorem command_then_undoCommand (cmd : Command) (self : Tetromino.t) :
  let back := Tetromino.undoCommand cmd (Tetromino.command cmd self) in
  Tetromino.x back = Tetromino.x self
  ∧ Tetromino.y back = Tetromino.y self
  ∧ Tetromino.orientation back = Tetromino.orientation self
  ∧ Tetromino.tetrominoType back = Tetromino.tetrominoType self
  ∧ Tetromino.calcBlockBoardCoords back = Tetromino.calcBlockBoardCoords self
  ∧ Tetromino.blockBoardCoords back
    = (if decide (cmd = TOGGLE_PAUSE) then Tetromino.blockBoardCoords self
       else Tetromino.calcBlockBoardCoords self)
  ∧ (Tetromino.blockBoardCoords self = Tetromino.calcBlockBoardCoords self →
     back = self)
  ∧ Tetromino.undoCommand ROTATE_CLOCKWISE self
    = Tetromino.rotateCounterclockwise self
  ∧ Tetromino.orientation (Tetromino.rotateCounterclockwise self)
    = Tetromino.CLOCKWISE_ROTATIONS
        (Tetromino.CLOCKWISE_ROTATIONS
           (Tetromino.CLOCKWISE_ROTATIONS (Tetromino.orientation self))).
Proof.
  intros back. subst back.
  pose proof (undoCommand_command_in_sync cmd self) as Hsync.
  destruct (decide (cmd = TOGGLE_PAUSE)) as [->|Hc]; [by repeat split|].
  rewrite undoCommand_command in * by done. by repeat split.
Qed.

Lemma command_then_undoCommand_witness :
  let piece := Tetromino.setPosition 3 20 (Tetromino.new TetrominoType.T_shape) in
  Tetromino.blockBoardCoords piece = Tetromino.calcBlockBoardCoords piece
  ∧ Tetromino.blockBoardCoords (Tetromino.command ROTATE_CLOCKWISE piece)
    = [(4, 22); (4, 21); (4, 20); (5, 21)]
  ∧ Tetromino.undoCommand ROTATE_CLOCKWISE
      (Tetromino.command ROTATE_CLOCKWISE piece) = piece.
Proof.
  intros piece.
  assert (H1 : Tetromino.blockBoardCoords piece
               = Tetromino.calcBlockBoardCoords piece) by reflexivity.
  split; [exact H1|]. split; [reflexivity|].
  destruct (command_then_undoCommand ROTATE_CLOCKWISE piece)
    as (_ & _ & _ & _ & _ & _ & Hback & _).
  exact (Hback H1).
Defined.

(** ** Valid positions *)

Section ValidPosition.

Lemma elem_of_nonFallingBlockCoords (self : Board.t) (c : Coord) :
  c ∈ Board.nonFallingBlockCoords self ↔
  ∃ r, r ∈ Board.tetrominos self
       ∧ c ∈ Tetromino.blockBoardCoords (Board.deref self r).
Proof.
  unfold Board.nonFallingBlockCoords. rewrite list_elem_of_bind.
  split; intros (r & H1 & H2); eauto.
Qed.

Lemma isValidPosition_loop_true (W : Z) (nonFalling coords : list Coord) :
  Board.isValidPosition_loop W nonFalling coords = true ↔
  Forall (fun c => 0 ≤ c.1 < W ∧ 0 ≤ c.2 ∧ c ∉ nonFalling) coords.
Proof.
  induction coords as [|c cs IH]; simpl.
  - split; [constructor | done].
  - rewrite Forall_cons, <- IH, Z.geb_leb.
    destruct (Z.ltb_spec (c.1) 0), (Z.leb_spec W (c.1)),
      (Z.ltb_spec (c.2) 0); simpl;
      try (split; [done | intros [? _]; lia]).
    case_bool_decide; simpl; [split; [done | tauto] |].
    split; [intros ->; repeat split; (lia || done) | tauto].
Qed.

Lemma isValidPosition_loop_false (W : Z) (nonFalling coords : list Coord) :
  Board.isValidPosition_loop W nonFalling coords = false ↔
  Exists (fun c => c.1 < 0 ∨ W ≤ c.1 ∨ c.2 < 0 ∨ c ∈ nonFalling) coords.
Proof.
  induction coords as [|c cs IH]; simpl.
  - rewrite Exists_nil. done.
  - rewrite Exists_cons, <- IH, Z.geb_leb.
    destruct (Z.ltb_spec (c.1) 0), (Z.leb_spec W (c.1)),
      (Z.ltb_spec (c.2) 0); simpl; try (split; [auto | done]).
    case_bool_decide; simpl; [split; [auto | done] |].
    split; [auto | intros [[?|[?|[?|?]]]|?]; (lia || done)].
Qed.

End ValidPosition.

(** C2.  [isValidPosition] answers [True] exactly when every block
    [(col, row)] of the falling tetromino has [0 <= col < gridWidth] and
    [0 <= row], with no bound on the row from above, and is a block of no
    tetromino of the board's list; it answers [False] exactly when some
    block is left of column 0, right of the last column, below row 0 or
    on a block of a listed tetromino. *)
Theorem isValidPosition_spec (self : Board.t) :
  let falling :=
    Tetromino.blockBoardCoords
      (Board.deref self (Board.fallingTetromino self)) in
  (Board.isValidPosition self = true ↔
   ∀ c, c ∈ falling →
     0 ≤ c.1 < Board.gridWidth self ∧ 0 ≤ c.2
     ∧ ∀ r, r ∈ Board.tetrominos self →
            c ∉ Tetromino.blockBoardCoords (Board.deref self r))
  ∧ (Board.isValidPosition self = false ↔
     ∃ c, c ∈ falling
       ∧ (c.1 < 0 ∨ Board.gridWidth self ≤ c.1 ∨ c.2 < 0
          ∨ ∃ r, r ∈ Board.tetrominos self
                 ∧ c ∈ Tetromino.blockBoardCoords (Board.deref self r))).
Proof.
  intros falling. unfold Board.isValidPosition. fold falling. split.
  - rewrite isValidPosition_loop_true, Forall_forall.
    split; intros H c Hc; destruct (H c Hc) as (Hcol & Hrow & Hfree);
      (split; [exact Hcol | split; [exact Hrow |]]).
    + intros r Hr Hin. apply Hfree, elem_of_nonFallingBlockCoords. eauto.
    + intros (r & Hr & Hin)%elem_of_nonFallingBlockCoords.
      exact (Hfree r Hr Hin).
  - rewrite isValidPosition_loop_false, Exists_exists.
    split; intros (c & Hc & H); exists c;
      rewrite elem_of_nonFallingBlockCoords in *; tauto.
Qed.

(** ** Full rows *)

Section FullRows.

(** The number of blocks of a list that lie in a row. *)
Definition blocksInRow (row : Z) (coords : list Coord) : Z :=
  Z.of_nat (length (filter (fun c : Coord => c.2 = row) coords)).

Lemma blocksInRow_cons (row : Z) (c : Coord) (coords : list Coord) :
  blocksInRow row (c :: coords)
  = (if decide (c.2 = row) then 1 else 0) + blocksInRow row coords.
Proof.
  unfold blocksInRow. rewrite filter_cons.
  destruct (decide (c.2 = row)); simpl; lia.
Qed.

Lemma filter_iff_elem {A : Type} (P Q : A → Prop)
    `{!∀ a, Decision (P a)} `{!∀ a, Decision (Q a)} (l : list A) :
  (∀ a, a ∈ l → P a ↔ Q a) → filter P l = filter Q l.
Proof.
  induction l as [|a l IH]; intros Hl; [done|].
  rewrite !filter_cons, IH by (intros; apply Hl; by right).
  destruct (Hl a) as [H1 H2]; [left|].
  destruct (decide (P a)), (decide (Q a)); (done || tauto).
Qed.

Lemma rowCounts_init (rows : list Z) (d : gmap Z Z) (row : Z) :
  foldl (fun d i => <[i := 0]> d) d rows !! row
  = if decide (row ∈ rows) then Some 0 else d !! row.
Proof.
  revert d. induction rows as [|i rows IH]; intros d; [done|].
  cbn [foldl]. rewrite IH. destruct (decide (row ∈ rows)) as [Hin|Hin].
  - by rewrite decide_True by (by right).
  - destruct (decide (i = row)) as [->|Hne].
    + rewrite lookup_insert_eq. by rewrite decide_True by left.
    + rewrite lookup_insert_ne by done.
      rewrite decide_False; [done|]. rewrite elem_of_cons. intros [?|?]; done.
Qed.

Lemma countRows_OK (coords : list Coord) (d : gmap Z Z) :
  (∀ c, c ∈ coords → is_Some (d !! c.2)) →
  ∃ d', Board.countRows coords d = OK d'
        ∧ ∀ row, d' !! row = (fun n => n + blocksInRow row coords) <$> d !! row.
Proof.
  revert d. induction coords as [|c coords IH]; intros d Hd; simpl.
  - exists d. split; [done|]. intros row. unfold blocksInRow. simpl.
    destruct (d !! row); simpl; [f_equal; lia | done].
  - destruct (Hd c) as [n Hn]; [left|]. rewrite Hn.
    destruct (IH (<[c.2 := n + 1]> d)) as (d' & -> & Hd').
    { intros c' Hc'. rewrite lookup_insert_is_Some.
      destruct (decide (c.2 = c'.2)); [by left | right].
      split; [done|]. apply Hd. by right. }
    exists d'. split; [done|]. intros row. rewrite Hd', blocksInRow_cons.
    destruct (decide (c.2 = row)) as [<-|Hne].
    + rewrite lookup_insert_eq, Hn. simpl. f_equal. lia.
    + rewrite lookup_insert_ne by done. destruct (d !! row); simpl; [|done].
      f_equal.
Qed.

Lemma countRows_KeyError (coords : list Coord) (d : gmap Z Z) :
  (∃ c, c ∈ coords ∧ d !! c.2 = None) →
  ∃ key, Board.countRows coords d = KeyError key.
Proof.
  revert d. induction coords as [|c coords IH]; intros d (c' & Hin & Hnone).
  - by apply elem_of_nil in Hin.
  - simpl. destruct (d !! c.2) as [n|] eqn:Hn; [|by eexists].
    apply IH. apply elem_of_cons in Hin as [->|Hin]; [congruence|].
    exists c'. split; [done|]. rewrite lookup_insert_ne; [done|].
    intros Heq. rewrite <- Heq in Hnone. congruence.
Qed.

(** [findFullRows] on a board whose listed blocks all lie in the rows the
    counter was filled for. *)
Lemma findFullRows_OK (self : Board.t) :
  (∀ c, c ∈ Board.nonFallingBlockCoords self →
        0 ≤ c.2 < Board.gridHeight self + Board.STARTING_ZONE_HEIGHT) →
  Board.findFullRows self
  = OK (filter (fun row => blocksInRow row (Board.nonFallingBlockCoords self)
                           = Board.gridWidth self)
          (seqZ 0 (Board.gridHeight self + Board.STARTING_ZONE_HEIGHT))).
Proof.
  intros Hrange. unfold Board.findFullRows.
  set (rows := seqZ 0 _).
  destruct (countRows_OK (Board.nonFallingBlockCoords self)
              (foldl (fun d i => <[i := 0]> d) ∅ rows)) as (d' & -> & Hd').
  { intros c Hc. rewrite rowCounts_init.
    rewrite decide_True; [by eexists|]. apply elem_of_seqZ.
    specialize (Hrange c Hc). lia. }
  f_equal. apply filter_iff_elem. intros row Hrow.
  rewrite Hd', rowCounts_init, decide_True by done. simpl.
  split; [intros [=]; lia | intros <-; f_equal; lia].
Qed.

End FullRows.

(** C6.  When the blocks of the listed tetrominos (the falling one is not
    among them) lie in rows [0 .. gridHeight + 4), [findFullRows] returns
    each row of that range whose number of such blocks equals
    [gridWidth], once, and nothing else. *)
Theorem findFullRows_spec (self : Board.t) :
  (∀ c, c ∈ Board.nonFallingBlockCoords self →
        0 ≤ c.2 < Board.gridHeight self + Board.STARTING_ZONE_HEIGHT) →
  ∃ fullRows,
    Board.findFullRows self = OK fullRows
    ∧ NoDup fullRows
    ∧ ∀ row, row ∈ fullRows ↔
        0 ≤ row < Board.gridHeight self + Board.STARTING_ZONE_HEIGHT
        ∧ blocksInRow row (Board.nonFallingBlockCoords self)
          = Board.gridWidth self.
Proof.
  intros Hrange. eexists. split; [by apply findFullRows_OK|]. split.
  - apply NoDup_filter, NoDup_seqZ.
  - intros row. rewrite list_elem_of_filter, elem_of_seqZ. split.
    + intros [? ?]. split; [lia | done].
    + intros [? ?]. split; [done | lia].
Qed.

(** ** The store *)

Section Store.

(** The blocks cached in the object behind a reference. *)
Definition cells (self : Board.t) (r : ref) : list Coord :=
  Tetromino.blockBoardCoords (Board.deref self r).

(** The fields of the board that are not the store or the list. *)
Definition frame (self : Board.t) :=
  (Board.x self, Board.y self, Board.gridWidth self, Board.gridHeight self,
   Board.spawnX self, Board.spawnY self, Board.blockSize self,
   Board.nextTetromino self, Board.fallingTetromino self).

Lemma deref_modify_eq (r : ref) (m : Tetromino.t → Tetromino.t)
    (self : Board.t) :
  (r < length (Board.heap self))%nat →
  Board.deref (Board.modify r m self) r = m (Board.deref self r).
Proof. intros Hr. unfold Board.deref. simpl. by apply list_lookup_total_insert_eq. Qed.

Lemma deref_modify_ne (r r' : ref) (m : Tetromino.t → Tetromino.t)
    (self : Board.t) :
  r ≠ r' → Board.deref (Board.modify r m self) r' = Board.deref self r'.
Proof. intros Hr. unfold Board.deref. simpl. by apply list_lookup_total_insert_ne. Qed.

Lemma length_heap_modify (r : ref) (m : Tetromino.t → Tetromino.t)
    (self : Board.t) :
  length (Board.heap (Board.modify r m self)) = length (Board.heap self).
Proof. simpl. apply length_insert. Qed.

(** A method that gives back the object it was called on changes nothing. *)
Lemma modify_id (r : ref) (m : Tetromino.t → Tetromino.t) (self : Board.t) :
  m (Board.deref self r) = Board.deref self r → Board.modify r m self = self.
Proof.
  intros Hm. unfold Board.modify. rewrite Hm. destruct self as [h ?]. 
  unfold Board.with_heap, Board.deref. simpl. f_equal.
  apply list_insert_id'. intros Hr. by apply list_lookup_lookup_total_lt.
Qed.

Lemma modify_modify (r : ref) (m1 m2 : Tetromino.t → Tetromino.t)
    (self : Board.t) :
  (r < length (Board.heap self))%nat →
  Board.modify r m2 (Board.modify r m1 self)
  = Board.modify r (fun o => m2 (m1 o)) self.
Proof.
  intros Hr. unfold Board.modify at 1 3.
  rewrite deref_modify_eq by done. unfold Board.modify, Board.with_heap.
  simpl. by rewrite list_insert_insert_eq.
Qed.

Lemma nonFallingBlockCoords_ext (b1 b2 : Board.t) :
  Board.tetrominos b1 = Board.tetrominos b2 →
  (∀ r, r ∈ Board.tetrominos b1 → cells b1 r = cells b2 r) →
  Board.nonFallingBlockCoords b1 = Board.nonFallingBlockCoords b2.
Proof.
  unfold Board.nonFallingBlockCoords. intros <- H.
  apply Forall_bind_ext, Forall_forall. exact H.
Qed.

End Store.

(** ** Clearing rows *)

Section ClearRows.

(** What clearing a row does to one block, in the words of the
    specification: a block of the row is dropped, a block above it moves
    down by one, a block below it stays. *)
Definition shiftBlock (row : Z) (c : Coord) : option Coord :=
  if decide (c.2 = row) then None
  else if decide (row < c.2) then Some (c.1, c.2 - 1)
  else Some c.

Lemma Tetromino_clearRow_loop_omap (row : Z) (coords : list Coord) :
  Tetromino.clearRow_loop row coords = omap (shiftBlock row) coords.
Proof.
  induction coords as [|c coords IH]; [done|].
  cbn [Tetromino.clearRow_loop omap list_omap]. rewrite IH. unfold shiftBlock at 2.
  destruct (Z.gtb_spec (c.2) row), (Z.ltb_spec (c.2) row);
    repeat case_decide; simpl; (done || lia).
Qed.

Lemma Tetromino_clearRow_remaining (row : Z) (o : Tetromino.t) :
  (Tetromino.clearRow row o).2 = true ↔
  omap (shiftBlock row) (Tetromino.blockBoardCoords o) ≠ [].
Proof.
  unfold Tetromino.clearRow. simpl. rewrite Tetromino_clearRow_loop_omap.
  destruct (omap _ _); simpl; [split; [done | congruence] |].
  split; [done | intros _; apply Z.ltb_lt; lia].
Qed.

Lemma shiftBlock_inj (row : Z) (c1 c2 c : Coord) :
  shiftBlock row c1 = Some c → shiftBlock row c2 = Some c → c1 = c2.
Proof.
  destruct c1 as [a1 b1], c2 as [a2 b2]. unfold shiftBlock. simpl.
  repeat case_decide; intros; simplify_eq; f_equal; lia.
Qed.

Lemma shiftBlock_row (row : Z) (c c' : Coord) :
  shiftBlock row c = Some c' →
  c'.1 = c.1 ∧ c'.2 ≤ c.2 ∧ (0 ≤ row → 0 ≤ c.2 → 0 ≤ c'.2).
Proof.
  unfold shiftBlock. repeat case_decide; intros; simplify_eq; simpl; lia.
Qed.

Lemma NoDup_omap_shiftBlock (row : Z) (coords : list Coord) :
  NoDup coords → NoDup (omap (shiftBlock row) coords).
Proof.
  induction 1 as [|c coords Hc Hnd IH]; [constructor|].
  cbn [omap list_omap]. destruct (shiftBlock row c) as [c'|] eqn:Hs; [|done].
  constructor; [|done]. rewrite list_elem_of_omap. intros (c2 & Hin & Hs2).
  by rewrite (shiftBlock_inj _ _ _ _ Hs Hs2) in Hc.
Qed.

Lemma omap_bind {A B C : Type} (f : A → list B) (g : B → option C)
    (l : list A) :
  omap g (l ≫= f) = l ≫= (fun a => omap g (f a)).
Proof.
  induction l as [|a l IH]; [done|].
  by rewrite !bind_cons, omap_app, IH.
Qed.

Lemma bind_filter_nonempty {A B : Type} (f : A → list B) (l : list A) :
  filter (fun a => f a ≠ []) l ≫= f = l ≫= f.
Proof.
  induction l as [|a l IH]; [done|].
  rewrite filter_cons. destruct (decide (f a ≠ [])) as [Hne|He].
  - by rewrite !bind_cons, IH.
  - rewrite bind_cons, IH. destruct (f a); [done|]. exfalso. by apply He.
Qed.

(** The loop of [Board.clearRow] over references that are distinct and
    not dangling. *)
Lemma clearRow_loop_spec (row : Z) (todo kept : list ref) (self : Board.t) :
  NoDup todo →
  (∀ r, r ∈ todo → (r < length (Board.heap self))%nat) →
  let self' := Board.clearRow_loop row todo kept self in
  Board.tetrominos self'
  = kept ++ filter (fun r => omap (shiftBlock row) (cells self r) ≠ []) todo
  ∧ (∀ r, r ∈ todo →
       Board.deref self' r = (Tetromino.clearRow row (Board.deref self r)).1)
  ∧ (∀ r, r ∉ todo → Board.deref self' r = Board.deref self r)
  ∧ length (Board.heap self') = length (Board.heap self)
  ∧ frame self' = frame self.
Proof.
  revert kept self. induction todo as [|a todo IH]; intros kept self Hnd Hr.
  - simpl. rewrite app_nil_r. repeat split; try done.
    intros r Hin. by apply elem_of_nil in Hin.
  - apply NoDup_cons in Hnd as [Ha Hnd].
    cbn [Board.clearRow_loop].
    destruct (Tetromino.clearRow row (Board.deref self a)) as [o remaining] eqn:Hclr.
    set (self1 := Board.modify a (fun _ => o) self).
    assert (Hsame : ∀ r, r ≠ a → Board.deref self1 r = Board.deref self r).
    { intros r Hne. by apply deref_modify_ne. }
    destruct (IH (if remaining then kept ++ [a] else kept) self1 Hnd)
      as (Ht & Hin & Hout & Hlen & Hfr).
    { intros r Hin. unfold self1. rewrite length_heap_modify.
      apply Hr. by right. }
    split; [|split; [|split; [|split]]].
    + rewrite Ht, filter_cons.
      rewrite (filter_iff_elem _
                 (fun r => omap (shiftBlock row) (cells self r) ≠ []) todo).
      2:{ intros r Hin'. unfold cells. rewrite Hsame; [done|].
          intros ->. done. }
      pose proof (Tetromino_clearRow_remaining row (Board.deref self a)) as Hrem.
      rewrite Hclr in Hrem. simpl in Hrem. fold (cells self a) in Hrem.
      destruct (decide (omap (shiftBlock row) (cells self a) ≠ [])) as [Hne|He].
      * apply Hrem in Hne. subst remaining. by rewrite <- app_assoc.
      * destruct remaining; [|done]. exfalso. apply He. by apply Hrem.
    + intros r [->|Hin']%elem_of_cons.
      * rewrite Hout by done. unfold self1.
        rewrite deref_modify_eq by (apply Hr; left). by rewrite Hclr.
      * rewrite Hin by done. rewrite Hsame; [done|]. intros ->. done.
    + intros r Hnin. rewrite not_elem_of_cons in Hnin. destruct Hnin.
      rewrite Hout by done. by apply Hsame.
    + rewrite Hlen. apply length_heap_modify.
    + by rewrite Hfr.
Qed.

(** The same loop over any list of references: every property of an
    object that [Tetromino.clearRow] keeps is kept, whichever objects the
    list names and however often. *)
Lemma clearRow_loop_keeps (row : Z) (P : Tetromino.t → Prop) :
  (∀ o, P o → P (Tetromino.clearRow row o).1) →
  ∀ (todo kept : list ref) (self : Board.t) (r : ref),
    P (Board.deref self r) →
    P (Board.deref (Board.clearRow_loop row todo kept self) r).
Proof.
  intros HP todo. induction todo as [|a todo IH]; intros kept self r Hr.
  - done.
  - cbn [Board.clearRow_loop].
    destruct (Tetromino.clearRow row (Board.deref self a)) as [o remaining] eqn:Hclr.
    apply IH. destruct (decide (a = r)) as [->|Hne].
    + destruct (decide (r < length (Board.heap self))%nat) as [Hlt|Hge].
      * rewrite deref_modify_eq by done.
        specialize (HP _ Hr). by rewrite Hclr in HP.
      * unfold Board.modify, Board.deref, Board.with_heap. simpl.
        rewrite list_insert_ge by lia. exact Hr.
    + by rewrite deref_modify_ne.
Qed.

Lemma clearRow_loop_tetrominos (row : Z) (todo kept : list ref)
    (self : Board.t) (r : ref) :
  r ∈ Board.tetrominos (Board.clearRow_loop row todo kept self) →
  r ∈ kept ∨ r ∈ todo.
Proof.
  revert kept self. induction todo as [|a todo IH]; intros kept self.
  - simpl. by left.
  - cbn [Board.clearRow_loop].
    destruct (Tetromino.clearRow row (Board.deref self a)) as [o remaining].
    intros [Hin|Hin]%IH; [|right; by right].
    destruct remaining; [|by left].
    apply elem_of_app in Hin as [Hin|Hin%list_elem_of_singleton];
      [by left | right; subst; by left].
Qed.

Lemma clearRow_loop_frame (row : Z) (todo kept : list ref) (self : Board.t) :
  frame (Board.clearRow_loop row todo kept self) = frame self
  ∧ length (Board.heap (Board.clearRow_loop row todo kept self))
    = length (Board.heap self).
Proof.
  revert kept self. induction todo as [|a todo IH]; intros kept self.
  - done.
  - cbn [Board.clearRow_loop].
    destruct (Tetromino.clearRow row (Board.deref self a)) as [o remaining].
    destruct (IH (if remaining then kept ++ [a] else kept)
                (Board.modify a (fun _ => o) self)) as [-> ->].
    split; [done|]. apply length_heap_modify.
Qed.

End ClearRows.

Section ClearRowsBoard.

(** The references of the list are distinct and none dangles. *)
Definition refs_ok (self : Board.t) : Prop :=
  NoDup (Board.tetrominos self)
  ∧ Forall (fun r => (r < length (Board.heap self))%nat) (Board.tetrominos self).

(** An object with another list of blocks, all else as it was. *)
Definition with_blocks (o : Tetromino.t) (coords : list Coord) : Tetromino.t :=
  Tetromino.mk (Tetromino.x o) (Tetromino.y o) (Tetromino.tetrominoType o)
    (Tetromino.orientation o) coords.

(** The rows of a list cleared one after the other, in the list's order. *)
Definition clearedCoords (rows : list Z) (coords : list Coord) : list Coord :=
  foldl (fun coords row => omap (shiftBlock row) coords) coords rows.

Lemma Tetromino_clearRow_with_blocks (row : Z) (o : Tetromino.t) :
  (Tetromino.clearRow row o).1
  = with_blocks o (omap (shiftBlock row) (Tetromino.blockBoardCoords o)).
Proof.
  unfold Tetromino.clearRow, with_blocks. simpl.
  by rewrite Tetromino_clearRow_loop_omap.
Qed.

Lemma clearedCoords_nil (rows : list Z) : clearedCoords rows [] = [].
Proof. induction rows as [|row rows IH]; [done | exact IH]. Qed.

Lemma clearRow_spec (row : Z) (self : Board.t) :
  refs_ok self →
  let self' := Board.clearRow row self in
  (∀ r, r ∈ Board.tetrominos self →
     Board.deref self' r
     = with_blocks (Board.deref self r) (omap (shiftBlock row) (cells self r)))
  ∧ (∀ r, r ∉ Board.tetrominos self → Board.deref self' r = Board.deref self r)
  ∧ Board.tetrominos self'
    = filter (fun r => cells self' r ≠ []) (Board.tetrominos self)
  ∧ length (Board.heap self') = length (Board.heap self)
  ∧ frame self' = frame self.
Proof.
  intros [Hnd Hr] self'. rewrite Forall_forall in Hr.
  destruct (clearRow_loop_spec row (Board.tetrominos self) [] self Hnd Hr)
    as (Ht & Hin & Hout & Hlen & Hfr). fold (Board.clearRow row self) in *.
  fold self' in Ht, Hin, Hout, Hlen, Hfr.
  assert (Hin' : ∀ r, r ∈ Board.tetrominos self →
            Board.deref self' r
            = with_blocks (Board.deref self r)
                (omap (shiftBlock row) (cells self r))).
  { intros r Hr'. rewrite Hin by done. apply Tetromino_clearRow_with_blocks. }
  repeat split; try done.
  rewrite Ht. simpl. apply filter_iff_elem. intros r Hr'.
  unfold cells at 2. by rewrite Hin'.
Qed.

Lemma clearRow_refs_ok (row : Z) (self : Board.t) :
  refs_ok self → refs_ok (Board.clearRow row self).
Proof.
  intros Hok. destruct (clearRow_spec row self Hok) as (_ & _ & Ht & Hlen & _).
  destruct Hok as [Hnd Hr]. rewrite Forall_forall in Hr. split.
  - rewrite Ht. by apply NoDup_filter.
  - apply Forall_forall. intros r.
    rewrite Ht, Hlen, list_elem_of_filter. intros [_ ?]. by apply Hr.
Qed.

Lemma clearRow_nonFallingBlockCoords (row : Z) (self : Board.t) :
  refs_ok self →
  Board.nonFallingBlockCoords (Board.clearRow row self)
  = omap (shiftBlock row) (Board.nonFallingBlockCoords self).
Proof.
  intros Hok. destruct (clearRow_spec row self Hok) as (Hin & _ & Ht & _ & _).
  unfold Board.nonFallingBlockCoords at 1. rewrite Ht.
  change (fun r => Tetromino.blockBoardCoords (Board.deref (Board.clearRow row self) r))
    with (cells (Board.clearRow row self)).
  rewrite bind_filter_nonempty.
  unfold Board.nonFallingBlockCoords. rewrite omap_bind.
  apply Forall_bind_ext, Forall_forall. intros r Hr.
  unfold cells at 1. by rewrite Hin.
Qed.

Lemma filter_all {A : Type} (P : A → Prop) `{!∀ a, Decision (P a)}
    (l : list A) :
  (∀ a, a ∈ l → P a) → filter P l = l.
Proof.
  induction l as [|a l IH]; intros Hl; [done|].
  rewrite filter_cons_True by (apply Hl; left).
  f_equal. apply IH. intros b Hb. apply Hl. by right.
Qed.

Lemma with_blocks_id (o : Tetromino.t) :
  with_blocks o (Tetromino.blockBoardCoords o) = o.
Proof. by destruct o. Qed.

(** Several rows cleared in turn, in the order of the list. *)
Lemma clearRow_fold_spec (rows : list Z) (self : Board.t) :
  refs_ok self →
  let self' := foldl (fun b row => Board.clearRow row b) self rows in
  refs_ok self'
  ∧ (∀ r, r ∈ Board.tetrominos self →
       Board.deref self' r
       = with_blocks (Board.deref self r) (clearedCoords rows (cells self r)))
  ∧ (∀ r, r ∉ Board.tetrominos self → Board.deref self' r = Board.deref self r)
  ∧ Board.tetrominos self'
    = filter (fun r => rows = [] ∨ cells self' r ≠ []) (Board.tetrominos self)
  ∧ length (Board.heap self') = length (Board.heap self)
  ∧ frame self' = frame self.
Proof.
  revert self. induction rows as [|row rows IH]; intros self Hok.
  - simpl. split; [done|]. split; [|split; [done|split; [|done]]].
    + intros r Hr. unfold cells. by rewrite with_blocks_id.
    + symmetry. apply filter_all. intros; by left.
  - cbn [foldl]. set (self1 := Board.clearRow row self).
    destruct (clearRow_spec row self Hok) as (H1in & H1out & H1t & H1len & H1fr).
    fold self1 in H1in, H1out, H1t, H1len, H1fr.
    pose proof (clearRow_refs_ok row self Hok) as Hok1. fold self1 in Hok1.
    destruct (IH self1 Hok1) as (Hok' & H2in & H2out & H2t & H2len & H2fr).
    set (self' := foldl _ self1 rows) in *.
    assert (Hgone : ∀ r, r ∈ Board.tetrominos self →
              r ∉ Board.tetrominos self1 → cells self1 r = []).
    { intros r Hr Hn. rewrite H1t, list_elem_of_filter in Hn.
      destruct (cells self1 r); [done|]. exfalso. apply Hn. by split. }
    assert (Hcells1 : ∀ r, r ∈ Board.tetrominos self →
              cells self1 r = omap (shiftBlock row) (cells self r)).
    { intros r Hr. unfold cells at 1. by rewrite H1in. }
    split; [done|]. split; [|split; [|split; [|split]]].
    + intros r Hr. cbn [clearedCoords foldl].
      fold (clearedCoords rows (omap (shiftBlock row) (cells self r))).
      rewrite <- Hcells1 by done.
      destruct (decide (r ∈ Board.tetrominos self1)) as [Hin|Hnin].
      * rewrite H2in by done. by rewrite H1in.
      * rewrite H2out by done. rewrite (Hgone r Hr Hnin), clearedCoords_nil.
        rewrite H1in by done. f_equal. rewrite <- Hcells1 by done.
        by apply Hgone.
    + intros r Hr. rewrite H2out, H1out; [done | done |].
      rewrite H1t, list_elem_of_filter. tauto.
    + rewrite H2t, H1t, list_filter_filter. apply filter_iff_elem.
      intros r Hr. split.
      * intros [[->|Hne] Hne1]; right; [exact Hne1 | exact Hne].
      * intros [Hnil|Hne]; [done|]. split; [by right|].
        intros Hnil. apply Hne.
        destruct (decide (r ∈ Board.tetrominos self1)) as [Hin|Hnin].
        -- rewrite H1t, list_elem_of_filter in Hin. tauto.
        -- unfold cells. rewrite H2out by done. exact Hnil.
    + by rewrite H2len.
    + by rewrite H2fr.
Qed.

#[local] Instance Zge_transitive : Transitive Z.ge.
Proof. intros a b c. lia. Qed.

#[local] Instance Zge_total : Total Z.ge.
Proof. intros a b. lia. Qed.

Lemma sort_reverse_spec (gridRows : list Z) :
  Board.sort_reverse gridRows ≡ₚ gridRows
  ∧ StronglySorted Z.ge (Board.sort_reverse gridRows).
Proof.
  unfold Board.sort_reverse. split; [apply merge_sort_Permutation|].
  apply (StronglySorted_merge_sort _).
Qed.

End ClearRowsBoard.

(** C3.  On a board whose list holds distinct, live references:
    [clearRows] sorts the given rows into descending order, keeping each
    as often as it was given, and calls [clearRow] for them in that
    order; each [clearRow] replaces the blocks of every listed tetromino
    by those not in the row, the ones above it moved down by one, the ones
    below it as they were, in their old order, touches no other object,
    and keeps in the list, in order, the tetrominos that still have a
    block. *)
Theorem clearRows_spec (gridRows : list Z) (row : Z) (self : Board.t) :
  refs_ok self →
  let sorted := Board.sort_reverse gridRows in
  sorted ≡ₚ gridRows
  ∧ StronglySorted Z.ge sorted
  ∧ Board.clearRows gridRows self
    = foldl (fun b r => Board.clearRow r b) self sorted
  ∧ (∀ r, r ∈ Board.tetrominos self →
       Board.deref (Board.clearRows gridRows self) r
       = with_blocks (Board.deref self r)
           (clearedCoords sorted (cells self r)))
  ∧ let self' := Board.clearRow row self in
    (∀ r, r ∈ Board.tetrominos self →
       Board.deref self' r
       = with_blocks (Board.deref self r)
           (omap (shiftBlock row) (cells self r)))
    ∧ (∀ r c, r ∈ Board.tetrominos self →
         c ∈ cells self' r ↔
         ∃ c0, c0 ∈ cells self r
           ∧ (row < c0.2 ∧ c = (c0.1, c0.2 - 1) ∨ c0.2 < row ∧ c = c0))
    ∧ (∀ r, r ∉ Board.tetrominos self →
         Board.deref self' r = Board.deref self r)
    ∧ Board.tetrominos self'
      = filter (fun r => cells self' r ≠ []) (Board.tetrominos self)
    ∧ refs_ok self'.
Proof.
  intros Hok sorted.
  destruct (sort_reverse_spec gridRows) as [Hperm Hsorted].
  destruct (clearRow_fold_spec sorted self Hok) as (_ & Hfold & _).
  destruct (clearRow_spec row self Hok) as (Hin & Hout & Ht & _ & _).
  split; [done|]. split; [done|]. split; [done|]. split; [exact Hfold|].
  intros self'. split; [exact Hin|]. split; [|split; [exact Hout|split; [exact Ht|]]].
  - intros r c Hr. unfold cells at 1. fold self' in Hin. rewrite Hin by done.
    simpl. rewrite list_elem_of_omap. unfold shiftBlock.
    split.
    + intros (c0 & Hc0 & Hs). exists c0. split; [done|].
      repeat case_decide; simplify_eq; [left | right]; split; (done || lia).
    + intros (c0 & Hc0 & [[Hlt ->]|[Hlt ->]]); exists c0; (split; [done|]);
        repeat case_decide; (done || lia).
  - by apply clearRow_refs_ok.
Qed.

(** ** Commanding the falling tetromino *)

Section Rollback.

Lemma modify_dangling (r : ref) (m : Tetromino.t → Tetromino.t)
    (self : Board.t) :
  (length (Board.heap self) ≤ r)%nat → Board.modify r m self = self.
Proof.
  intros Hr. destruct self as [h ?]. unfold Board.modify, Board.with_heap.
  simpl in *. f_equal. by apply list_insert_ge.
Qed.

Lemma modify_twice (r : ref) (m1 m2 : Tetromino.t → Tetromino.t)
    (self : Board.t) :
  Board.modify r m2 (Board.modify r m1 self)
  = Board.modify r (fun o => m2 (m1 o)) self.
Proof.
  destruct (decide (r < length (Board.heap self))%nat) as [Hlt|Hge].
  - by apply modify_modify.
  - rewrite (modify_dangling r m1 self) by lia.
    rewrite (modify_dangling r m2 self) by lia.
    symmetry. apply modify_dangling. lia.
Qed.

Lemma modify_ext (r : ref) (m1 m2 : Tetromino.t → Tetromino.t)
    (self : Board.t) :
  m1 (Board.deref self r) = m2 (Board.deref self r) →
  Board.modify r m1 self = Board.modify r m2 self.
Proof. intros H. unfold Board.modify. by rewrite H. Qed.

(** A command and its undo on the object behind a reference leave the
    object with its blocks recomputed. *)
Lemma modify_command_undo (r : ref) (cmd : Command) (self : Board.t) :
  cmd ≠ TOGGLE_PAUSE →
  Board.modify r (Tetromino.undoCommand cmd)
    (Board.modify r (Tetromino.command cmd) self)
  = Board.modify r Tetromino.recalc self.
Proof.
  intros Hc. rewrite modify_twice. apply modify_ext.
  by apply undoCommand_command.
Qed.

Lemma modify_command_undo_in_sync (r : ref) (cmd : Command) (self : Board.t) :
  cells self r = Tetromino.calcBlockBoardCoords (Board.deref self r) →
  Board.modify r (Tetromino.undoCommand cmd)
    (Board.modify r (Tetromino.command cmd) self)
  = self.
Proof.
  intros Hs. rewrite modify_twice. apply modify_id.
  by apply undoCommand_command_in_sync.
Qed.

Lemma modify_frame (r : ref) (m : Tetromino.t → Tetromino.t) (self : Board.t) :
  frame (Board.modify r m self) = frame self
  ∧ Board.tetrominos (Board.modify r m self) = Board.tetrominos self.
Proof. done. Qed.

Lemma nonFallingBlockCoords_modify (r : ref) (m : Tetromino.t → Tetromino.t)
    (self : Board.t) :
  r ∉ Board.tetrominos self →
  Board.nonFallingBlockCoords (Board.modify r m self)
  = Board.nonFallingBlockCoords self.
Proof.
  intros Hr. apply nonFallingBlockCoords_ext; [done|].
  intros r' Hr'. unfold cells. rewrite deref_modify_ne; [done|].
  intros ->. done.
Qed.

End Rollback.

(** C5.  [commandFallingTetromino] applies the command first and checks
    the position it led to.  When that position is not valid, the board
    and every object are exactly as before the call (the falling
    tetromino being one that was only moved and turned).  When it is
    valid, only the falling tetromino has changed.  In both cases the
    list, the reference to the next tetromino and every object but the
    falling one are unchanged, so are the listed tetrominos and the next
    one, which are other objects. *)
Theorem commandFallingTetromino_rollback (cmd : Command) (self : Board.t) :
  let f := Board.fallingTetromino self in
  cells self f = Tetromino.calcBlockBoardCoords (Board.deref self f) →
  f ∉ Board.tetrominos self →
  f ≠ Board.nextTetromino self →
  let tried := Board.modify f (Tetromino.command cmd) self in
  let self' := Board.commandFallingTetromino cmd self in
  self' = (if Board.isValidPosition tried then tried else self)
  ∧ frame self' = frame self
  ∧ Board.tetrominos self' = Board.tetrominos self
  ∧ (∀ r, r ≠ f → Board.deref self' r = Board.deref self r)
  ∧ Forall (fun r => Board.deref self' r = Board.deref self r)
      (Board.tetrominos self)
  ∧ Board.deref self' (Board.nextTetromino self')
    = Board.deref self (Board.nextTetromino self).
Proof.
  intros f Hsync Hfresh Hnext tried self'.
  assert (Heq : self' = if Board.isValidPosition tried then tried else self).
  { unfold self', Board.commandFallingTetromino. fold f. fold tried.
    destruct (Board.isValidPosition tried); [done|].
    by apply modify_command_undo_in_sync. }
  assert (Hothers : ∀ r, r ≠ f → Board.deref self' r = Board.deref self r).
  { intros r Hr. rewrite Heq. destruct (Board.isValidPosition tried); [|done].
    by apply deref_modify_ne. }
  assert (Hfr : frame self' = frame self).
  { rewrite Heq. by destruct (Board.isValidPosition tried). }
  split; [done|]. split; [done|]. split; [|split; [done|split]].
  - rewrite Heq. by destruct (Board.isValidPosition tried).
  - apply Forall_forall. intros r Hr. apply Hothers. intros ->. done.
  - replace (Board.nextTetromino self') with (Board.nextTetromino self)
      by (unfold frame in Hfr; congruence).
    apply Hothers. done.
Qed.

(** ** One tick *)

Section Tick.

Lemma isInStartZone_loop_Exists (H : Z) (coords : list Coord) :
  Board.isInStartZone_loop H coords
  = bool_decide (Exists (fun c : Coord => H ≤ c.2) coords).
Proof.
  induction coords as [|c coords IH]; cbn [Board.isInStartZone_loop].
  - symmetry. apply bool_decide_eq_false. intros Hex. by inversion Hex.
  - rewrite Z.geb_leb. destruct (Z.leb_spec H (c.2)).
    + symmetry. apply bool_decide_eq_true. by left.
    + rewrite IH. apply bool_decide_ext. rewrite Exists_cons. 
      split; [by right | intros [?|?]; [lia | done]].
Qed.

(** The board once the falling tetromino, back where it was, has been
    appended to the list. *)
Definition settle (self : Board.t) : Board.t :=
  Board.with_tetrominos
    (Board.tetrominos self ++ [Board.fallingTetromino self])
    (Board.modify (Board.fallingTetromino self) Tetromino.recalc self).

Lemma updateTick_unfold (k : TetrominoType.t) (self : Board.t) :
  Board.updateTick k self
  = let moved := Board.modify (Board.fallingTetromino self)
                   Tetromino.moveDown self in
    if Board.isValidPosition moved then OK (moved, (0, false))
    else
      match Board.findFullRows (settle self) with
      | KeyError key => KeyError key
      | OK fullRows =>
          let cleared := Board.clearRows fullRows (settle self) in
          let gameLost :=
            Board.isInStartZone cleared (Board.fallingTetromino self) in
          OK (if gameLost then cleared else Board.spawnTetromino k cleared,
              (Z.of_nat (length fullRows), gameLost))
      end.
Proof.
  unfold Board.updateTick.
  change (Tetromino.command MOVE_DOWN) with Tetromino.moveDown.
  cbv zeta.
  destruct (Board.isValidPosition
              (Board.modify (Board.fallingTetromino self) Tetromino.moveDown self));
    [done|].
  change (Board.fallingTetromino (Board.modify _ _ self))
    with (Board.fallingTetromino self).
  change Tetromino.moveDown with (Tetromino.command MOVE_DOWN).
  rewrite modify_command_undo by done.
  change (Board.with_tetrominos _ _) with (settle self).
  destruct (Board.findFullRows (settle self)) as [fullRows|key]; [|done].
  assert (Hf : Board.fallingTetromino (Board.clearRows fullRows (settle self))
               = Board.fallingTetromino self).
  { unfold Board.clearRows.
    generalize (Board.sort_reverse fullRows). intros rows.
    assert (H : ∀ b, Board.fallingTetromino
                       (foldl (fun b row => Board.clearRow row b) b rows)
                     = Board.fallingTetromino b).
    { induction rows as [|row rows IH]; intros b; [done|].
      cbn [foldl]. rewrite IH. unfold Board.clearRow.
      destruct (clearRow_loop_frame row (Board.tetrominos b) [] b) as [Hfr _].
      unfold frame in Hfr. congruence. }
    by rewrite H. }
  by rewrite Hf.
Qed.

Lemma settle_refs_ok (self : Board.t) :
  refs_ok self →
  Board.fallingTetromino self ∉ Board.tetrominos self →
  (Board.fallingTetromino self < length (Board.heap self))%nat →
  refs_ok (settle self).
Proof.
  intros [Hnd Hr] Hfresh Hlt. split; simpl.
  - apply NoDup_app. split; [done|]. split; [|apply NoDup_singleton].
    intros r Hr' ->%list_elem_of_singleton. done.
  - rewrite length_insert. apply Forall_app. split; [done|].
    by apply Forall_singleton.
Qed.

Lemma cells_settle_falling (self : Board.t) :
  (Board.fallingTetromino self < length (Board.heap self))%nat →
  cells (settle self) (Board.fallingTetromino self)
  = Tetromino.calcBlockBoardCoords
      (Board.deref self (Board.fallingTetromino self)).
Proof.
  intros Hlt. unfold cells, settle.
  change (Board.deref (Board.with_tetrominos ?l ?b) ?r) with (Board.deref b r).
  by rewrite deref_modify_eq.
Qed.

End Tick.

(** C1 (amended).  [updateTick] moves the falling tetromino down by
    one.  If that position is valid, the moved board is the result, with
    [(0, False)].  Otherwise the tetromino is put back, its reference is
    appended to the list, the rows [findFullRows] reports are cleared, and
    the game is lost exactly when one of the blocks the tetromino has left
    after the clearing, at the row it has then, lies at or above
    [gridHeight]; the next tetromino is spawned exactly when the game is
    not lost, and the result is the number of reported rows with the
    loss flag.  On a board whose references are distinct and live. *)
Theorem updateTick_spec (k : TetrominoType.t) (self : Board.t) :
  let f := Board.fallingTetromino self in
  refs_ok self →
  f ∉ Board.tetrominos self →
  (f < length (Board.heap self))%nat →
  let atRest := Tetromino.calcBlockBoardCoords (Board.deref self f) in
  let moved := Board.modify f Tetromino.moveDown self in
  if Board.isValidPosition moved then
    Board.updateTick k self = OK (moved, (0, false))
  else
    match Board.findFullRows (settle self) with
    | KeyError key => Board.updateTick k self = KeyError key
    | OK fullRows =>
        let cleared := Board.clearRows fullRows (settle self) in
        let remaining := clearedCoords (Board.sort_reverse fullRows) atRest in
        let gameLost :=
          bool_decide
            (Exists (fun c : Coord => Board.gridHeight self ≤ c.2) remaining) in
        cells (settle self) f = atRest
        ∧ cells cleared f = remaining
        ∧ Board.updateTick k self
          = OK (if gameLost then cleared else Board.spawnTetromino k cleared,
                (Z.of_nat (length fullRows), gameLost))
    end.
Proof.
  intros f Hok Hfresh Hlt atRest moved. rewrite updateTick_unfold. cbv zeta.
  fold f. fold moved. destruct (Board.isValidPosition moved); [done|].
  destruct (Board.findFullRows (settle self)) as [fullRows|key]; [|done].
  pose proof (settle_refs_ok self Hok Hfresh Hlt) as Hok'.
  destruct (clearRow_fold_spec (Board.sort_reverse fullRows) (settle self) Hok')
    as (_ & Hin & _ & _ & _ & Hfr).
  fold (Board.clearRows fullRows (settle self)) in Hin, Hfr.
  assert (Hcells : cells (Board.clearRows fullRows (settle self)) f
                   = clearedCoords (Board.sort_reverse fullRows) atRest).
  { unfold cells at 1. rewrite Hin.
    - simpl. f_equal. by apply cells_settle_falling.
    - simpl. apply elem_of_app. right. by apply list_elem_of_singleton. }
  split; [by apply cells_settle_falling|]. split; [exact Hcells|].
  unfold Board.isInStartZone. fold (cells (Board.clearRows fullRows (settle self)) f).
  rewrite Hcells, isInStartZone_loop_Exists.
  replace (Board.gridHeight (Board.clearRows fullRows (settle self)))
    with (Board.gridHeight self); [done|].
  unfold frame in Hfr. simpl in Hfr. congruence.
Qed.

(** ** Spawning *)

Section Spawn.

(** The fields of the board no method assigns after [__init__]. *)
Definition dims (self : Board.t) :=
  (Board.x self, Board.y self, Board.gridWidth self, Board.gridHeight self,
   Board.spawnX self, Board.spawnY self, Board.blockSize self).

Lemma frame_dims (b1 b2 : Board.t) :
  frame b1 = frame b2 →
  dims b1 = dims b2
  ∧ Board.nextTetromino b1 = Board.nextTetromino b2
  ∧ Board.fallingTetromino b1 = Board.fallingTetromino b2.
Proof. unfold frame, dims. intros [=]. by repeat split; congruence. Qed.

Lemma dims_fields (b1 b2 : Board.t) :
  dims b1 = dims b2 →
  Board.gridWidth b1 = Board.gridWidth b2
  ∧ Board.gridHeight b1 = Board.gridHeight b2
  ∧ Board.spawnX b1 = Board.spawnX b2
  ∧ Board.spawnY b1 = Board.spawnY b2.
Proof. unfold dims. intros [=]. by repeat split. Qed.

(** What [spawnTetromino] does to the board and the store. *)
Lemma spawnTetromino_spec (k : TetrominoType.t) (self : Board.t) :
  let n := Board.nextTetromino self in
  let fresh := length (Board.heap self) in
  (n < fresh)%nat →
  let self' := Board.spawnTetromino k self in
  Board.fallingTetromino self' = n
  ∧ Board.nextTetromino self' = fresh
  ∧ Board.tetrominos self' = Board.tetrominos self
  ∧ dims self' = dims self
  ∧ length (Board.heap self') = S fresh
  ∧ Board.deref self' n
    = Tetromino.setPosition (Board.spawnX self) (Board.spawnY self)
        (Board.deref self n)
  ∧ Board.deref self' fresh
    = Tetromino.setPosition Board.NEXT_X Board.NEXT_Y (Tetromino.new k)
  ∧ ∀ r, (r < fresh)%nat → r ≠ n → Board.deref self' r = Board.deref self r.
Proof.
  intros n fresh Hn self'. destruct self as [h x y W H sx sy bs nx f ts].
  simpl in n, fresh, Hn. subst n fresh.
  unfold self', Board.spawnTetromino, Board.modify, Board.alloc,
    Board.with_heap, Board.with_fallingTetromino, Board.with_nextTetromino,
    Board.deref, dims. simpl.
  rewrite length_insert.
  repeat split.
  - rewrite length_insert, length_app, length_insert. simpl. lia.
  - rewrite list_lookup_total_insert_ne by lia.
    rewrite lookup_total_app_l by (rewrite length_insert; lia).
    by rewrite list_lookup_total_insert_eq.
  - rewrite list_lookup_total_insert_eq
      by (rewrite length_app, length_insert; simpl; lia).
    f_equal. rewrite lookup_total_app_r by (rewrite length_insert; lia).
    rewrite length_insert. by replace (length h - length h)%nat with 0%nat by lia.
  - intros r Hr Hne. rewrite list_lookup_total_insert_ne by lia.
    rewrite lookup_total_app_l by (rewrite length_insert; lia).
    by rewrite list_lookup_total_insert_ne.
Qed.

(** The blocks of a tetromino just placed at the spawn anchor. *)
Lemma setPosition_blocks (x y : Z) (o : Tetromino.t) (c : Coord) :
  Tetromino.tetrominoType o ∈ TetrominoType.TYPES →
  c ∈ Tetromino.blockBoardCoords (Tetromino.setPosition x y o) →
  x ≤ c.1 ≤ x + 3 ∧ y ≤ c.2 ≤ y + 3.
Proof.
  intros Hk Hc.
  apply (calc_bounds
           (Tetromino.mk x y (Tetromino.tetrominoType o)
              (Tetromino.orientation o) (Tetromino.blockBoardCoords o)) c Hk Hc).
Qed.

End Spawn.

(** ** Runs of the board *)

(** One call of a method that changes the board; the flag tells whether
    the call reported that the game is lost. *)
Inductive step : Board.t → bool → Board.t → Prop :=
  | step_spawn k self :
      k ∈ TetrominoType.TYPES →
      step self false (Board.spawnTetromino k self)
  | step_command cmd self :
      step self false (Board.commandFallingTetromino cmd self)
  | step_tick k self self' n gameLost :
      k ∈ TetrominoType.TYPES →
      Board.updateTick k self = OK (self', (n, gameLost)) →
      step self gameLost self'.

(** The boards a game passes through while no tick has reported loss. *)
Inductive playing : Board.t → Prop :=
  | playing_init x y W H bs k1 k2 :
      k1 ∈ TetrominoType.TYPES → k2 ∈ TetrominoType.TYPES →
      playing (Board.init x y W H bs k1 k2)
  | playing_step self self' :
      playing self → step self false self' → playing self'.

(** The boards any sequence of calls leads to, lost or not. *)
Inductive reachable : Board.t → Prop :=
  | reachable_init x y W H bs k1 k2 :
      k1 ∈ TetrominoType.TYPES → k2 ∈ TetrominoType.TYPES →
      reachable (Board.init x y W H bs k1 k2)
  | reachable_step self gameLost self' :
      reachable self → step self gameLost self' → reachable self'.

Lemma playing_reachable (self : Board.t) : playing self → reachable self.
Proof.
  induction 1 as [|self self' _ IH Hstep]; [by constructor|].
  by apply (reachable_step self false).
Qed.

Section ClearedCoords.

Lemma clearedCoords_cons (row : Z) (rows : list Z) (coords : list Coord) :
  clearedCoords (row :: rows) coords
  = clearedCoords rows (omap (shiftBlock row) coords).
Proof. done. Qed.

Lemma clearedCoords_app (rows : list Z) (l1 l2 : list Coord) :
  clearedCoords rows (l1 ++ l2) = clearedCoords rows l1 ++ clearedCoords rows l2.
Proof.
  revert l1 l2. induction rows as [|row rows IH]; intros l1 l2; [done|].
  by rewrite !clearedCoords_cons, omap_app, IH.
Qed.

Lemma NoDup_clearedCoords (rows : list Z) (coords : list Coord) :
  NoDup coords → NoDup (clearedCoords rows coords).
Proof.
  revert coords. induction rows as [|row rows IH]; intros coords Hnd; [done|].
  rewrite clearedCoords_cons. by apply IH, NoDup_omap_shiftBlock.
Qed.

(** A block that is left came from a block of the same column, at the
    same row or above, and not from below row 0 if no cleared row is. *)
Lemma elem_of_clearedCoords (rows : list Z) (coords : list Coord) (c : Coord) :
  c ∈ clearedCoords rows coords →
  ∃ c0, c0 ∈ coords ∧ c.1 = c0.1 ∧ c.2 ≤ c0.2
        ∧ (Forall (fun row => 0 ≤ row) rows → 0 ≤ c0.2 → 0 ≤ c.2).
Proof.
  revert coords. induction rows as [|row rows IH]; intros coords Hc.
  - exists c. by repeat split.
  - rewrite clearedCoords_cons in Hc.
    destruct (IH _ Hc) as (c1 & Hc1 & Hcol & Hrow & Hpos).
    apply list_elem_of_omap in Hc1 as (c0 & Hc0 & Hs).
    apply shiftBlock_row in Hs as (Hcol' & Hrow' & Hpos').
    exists c0. split; [done|]. split; [congruence|]. split; [lia|].
    intros Hrows Hc0pos. apply Forall_cons in Hrows as [Hrow0 Hrows]. auto.
Qed.

Lemma clearRow_fold_nonFallingBlockCoords (rows : list Z) (self : Board.t) :
  refs_ok self →
  Board.nonFallingBlockCoords (foldl (fun b row => Board.clearRow row b) self rows)
  = clearedCoords rows (Board.nonFallingBlockCoords self).
Proof.
  revert self. induction rows as [|row rows IH]; intros self Hok; [done|].
  cbn [foldl]. rewrite IH by (by apply clearRow_refs_ok).
  by rewrite clearRow_nonFallingBlockCoords.
Qed.

End ClearedCoords.

(** ** What holds while the game is being played *)

Section Playing.

Record playing_inv (self : Board.t) : Prop := {
  pi_refs : refs_ok self;
  pi_falling_live :
    (Board.fallingTetromino self < length (Board.heap self))%nat;
  pi_next_live : (Board.nextTetromino self < length (Board.heap self))%nat;
  pi_falling_next : Board.fallingTetromino self ≠ Board.nextTetromino self;
  pi_falling_fresh : Board.fallingTetromino self ∉ Board.tetrominos self;
  pi_next_fresh : Board.nextTetromino self ∉ Board.tetrominos self;
  pi_falling_type :
    Tetromino.tetrominoType (Board.deref self (Board.fallingTetromino self))
    ∈ TetrominoType.TYPES;
  pi_next_type :
    Tetromino.tetrominoType (Board.deref self (Board.nextTetromino self))
    ∈ TetrominoType.TYPES;
  pi_sync :
    cells self (Board.fallingTetromino self)
    = Tetromino.calcBlockBoardCoords
        (Board.deref self (Board.fallingTetromino self));
  pi_nodup : NoDup (Board.nonFallingBlockCoords self);
  pi_below :
    ∀ c, c ∈ Board.nonFallingBlockCoords self → c.2 < Board.gridHeight self;
  pi_free :
    ∀ c, c ∈ cells self (Board.fallingTetromino self) →
         c ∉ Board.nonFallingBlockCoords self;
  pi_spawnY : Board.spawnY self = Board.gridHeight self;
  pi_spawnX : Board.spawnX self = Z.quot (Board.gridWidth self * 1) 3;
  pi_valid :
    5 ≤ Board.gridWidth self → 0 ≤ Board.gridHeight self →
    Board.isValidPosition self = true
}.

(** [spawnTetromino] sets the invariant up from what it needs of the
    board: the references of the list, the next tetromino, and the listed
    blocks below the starting zone. *)
Lemma spawnTetromino_playing_inv (k : TetrominoType.t) (self : Board.t) :
  k ∈ TetrominoType.TYPES →
  refs_ok self →
  (Board.nextTetromino self < length (Board.heap self))%nat →
  Board.nextTetromino self ∉ Board.tetrominos self →
  Tetromino.tetrominoType (Board.deref self (Board.nextTetromino self))
  ∈ TetrominoType.TYPES →
  NoDup (Board.nonFallingBlockCoords self) →
  (∀ c, c ∈ Board.nonFallingBlockCoords self → c.2 < Board.gridHeight self) →
  Board.spawnY self = Board.gridHeight self →
  Board.spawnX self = Z.quot (Board.gridWidth self * 1) 3 →
  playing_inv (Board.spawnTetromino k self).
Proof.
  intros Hk [Hnd Hr] Hn Hnfresh Hntype Hcells Hbelow HsY HsX.
  destruct (spawnTetromino_spec k self Hn)
    as (Hf' & Hn' & Ht' & Hd' & Hlen' & Hdn & Hdfresh & Hdother).
  destruct (dims_fields _ _ Hd') as (HW & HH & HsX' & HsY').
  set (self' := Board.spawnTetromino k self) in *.
  rewrite Forall_forall in Hr.
  assert (Hnf : Board.nonFallingBlockCoords self'
                = Board.nonFallingBlockCoords self).
  { apply nonFallingBlockCoords_ext; [done|]. rewrite Ht'. intros r Hr'.
    unfold cells. rewrite Hdother; [done | by apply Hr |].
    intros ->. done. }
  assert (Hrows : ∀ c, c ∈ cells self' (Board.fallingTetromino self') →
            Board.spawnX self ≤ c.1 ≤ Board.spawnX self + 3
            ∧ Board.gridHeight self ≤ c.2).
  { intros c. unfold cells. rewrite Hf', Hdn. intros Hc.
    apply setPosition_blocks in Hc; [|done]. lia. }
  assert (Hfree : ∀ c, c ∈ cells self' (Board.fallingTetromino self') →
            c ∉ Board.nonFallingBlockCoords self').
  { intros c Hc Hin. rewrite Hnf in Hin. apply Hbelow in Hin.
    apply Hrows in Hc. lia. }
  split.
  - split; [by rewrite Ht'|]. rewrite Ht', Hlen'. apply Forall_forall.
    intros r Hr'. apply Hr in Hr'. lia.
  - rewrite Hf', Hlen'. lia.
  - rewrite Hn', Hlen'. lia.
  - rewrite Hf', Hn'. lia.
  - by rewrite Hf', Ht'.
  - rewrite Hn', Ht'. intros Hin. apply Hr in Hin. lia.
  - by rewrite Hf', Hdn.
  - by rewrite Hn', Hdfresh.
  - unfold cells. by rewrite Hf', Hdn.
  - by rewrite Hnf.
  - rewrite Hnf, HH. exact Hbelow.
  - exact Hfree.
  - by rewrite HsY', HH.
  - by rewrite HsX', HW.
  - rewrite HW, HH. intros HW5 HH0. apply isValidPosition_loop_true.
    apply Forall_forall. intros c Hc. fold (cells self' (Board.fallingTetromino self')) in Hc.
    pose proof (Hfree c Hc) as Hfr. apply Hrows in Hc.
    rewrite HW. rewrite HsX in Hc.
    rewrite Z.mul_1_r, Z.quot_div_nonneg in Hc by lia.
    split; [|split; [lia | done]].
    pose proof (Z.div_mod (Board.gridWidth self) 3).
    pose proof (Z.mod_pos_bound (Board.gridWidth self) 3). lia.
Qed.

Lemma init_playing_inv (x y W H bs : Z) (k1 k2 : TetrominoType.t) :
  k1 ∈ TetrominoType.TYPES → k2 ∈ TetrominoType.TYPES →
  playing_inv (Board.init x y W H bs k1 k2).
Proof.
  intros Hk1 Hk2. unfold Board.init. cbv zeta.
  set (self0 := Board.mk [Tetromino.new k1] x y W H (Z.quot (W * 1) 3) H bs
                  0%nat 0%nat []).
  assert (Hinv : playing_inv (Board.spawnTetromino k2 self0)).
  { apply spawnTetromino_playing_inv; try done.
    - split; [apply NoDup_nil_2 | apply Forall_nil_2].
    - simpl. lia.
    - simpl. apply not_elem_of_nil.
    - apply NoDup_nil_2.
    - intros c Hc. by apply elem_of_nil in Hc. }
  replace (Board.with_tetrominos [] (Board.spawnTetromino k2 self0))
    with (Board.spawnTetromino k2 self0); [done|].
  destruct (spawnTetromino_spec k2 self0) as (_ & _ & Ht & _); [simpl; lia|].
  destruct (Board.spawnTetromino k2 self0). simpl in Ht. subst.
  reflexivity.
Qed.

End Playing.

Section PlayingSteps.

(** The falling tetromino moved or turned into a valid position. *)
Lemma tried_playing_inv (cmd : Command) (self : Board.t) :
  playing_inv self →
  let tried :=
    Board.modify (Board.fallingTetromino self) (Tetromino.command cmd) self in
  Board.isValidPosition tried = true →
  playing_inv tried.
Proof.
  intros [[Hnd Hr] Hfl Hnl Hfn Hff Hnf Hft Hnt Hsync Hcells Hbelow Hfree HsY HsX Hvalid]
    tried Hv.
  set (f := Board.fallingTetromino self) in *.
  assert (Hdf : Board.deref tried f = Tetromino.command cmd (Board.deref self f))
    by (by apply deref_modify_eq).
  assert (Hnfc : Board.nonFallingBlockCoords tried
                 = Board.nonFallingBlockCoords self)
    by (by apply nonFallingBlockCoords_modify).
  split; try done.
  - split; [done|]. simpl. by rewrite length_insert.
  - simpl. by rewrite length_insert.
  - simpl. by rewrite length_insert.
  - change (Board.fallingTetromino tried) with f. by rewrite Hdf, command_type.
  - change (Board.nextTetromino tried) with (Board.nextTetromino self).
    unfold tried. by rewrite deref_modify_ne.
  - change (Board.fallingTetromino tried) with f. unfold cells. rewrite Hdf.
    by apply command_in_sync.
  - by rewrite Hnfc.
  - rewrite Hnfc. exact Hbelow.
  - apply isValidPosition_loop_true in Hv. rewrite Forall_forall in Hv.
    intros c Hc. by apply Hv.
Qed.

Lemma commandFallingTetromino_playing_inv (cmd : Command) (self : Board.t) :
  playing_inv self → playing_inv (Board.commandFallingTetromino cmd self).
Proof.
  intros Hinv. unfold Board.commandFallingTetromino.
  destruct (Board.isValidPosition _) eqn:Hv.
  - by apply tried_playing_inv.
  - change (Board.fallingTetromino (Board.modify _ _ self))
      with (Board.fallingTetromino self).
    rewrite modify_command_undo_in_sync; [done | apply Hinv].
Qed.

Lemma settle_in_sync (self : Board.t) :
  cells self (Board.fallingTetromino self)
  = Tetromino.calcBlockBoardCoords
      (Board.deref self (Board.fallingTetromino self)) →
  settle self
  = Board.with_tetrominos
      (Board.tetrominos self ++ [Board.fallingTetromino self]) self.
Proof.
  intros Hs. unfold settle. rewrite modify_id; [done|].
  unfold cells in Hs. destruct (Board.deref self _). unfold Tetromino.recalc.
  simpl in *. by rewrite Hs.
Qed.

Lemma isInStartZone_false (self : Board.t) (r : ref) :
  Board.isInStartZone self r = false →
  ∀ c, c ∈ cells self r → c.2 < Board.gridHeight self.
Proof.
  unfold Board.isInStartZone. rewrite isInStartZone_loop_Exists.
  intros Hn%bool_decide_eq_false c Hc.
  destruct (decide (c.2 < Board.gridHeight self)) as [|Hge]; [done|].
  exfalso. apply Hn, Exists_exists. exists c. split; [done | lia].
Qed.

Lemma isInStartZone_true (self : Board.t) (r : ref) :
  Board.isInStartZone self r = true →
  ∃ c, c ∈ cells self r ∧ Board.gridHeight self ≤ c.2.
Proof.
  unfold Board.isInStartZone. rewrite isInStartZone_loop_Exists.
  intros Hn%bool_decide_eq_true. by apply Exists_exists in Hn.
Qed.

(** The board after the falling tetromino was appended and any rows
    were cleared. *)
Lemma cleared_facts (rows : list Z) (self : Board.t) :
  playing_inv self →
  let f := Board.fallingTetromino self in
  let cleared := Board.clearRows rows (settle self) in
  refs_ok cleared
  ∧ frame cleared = frame self
  ∧ length (Board.heap cleared) = length (Board.heap self)
  ∧ NoDup (Board.nonFallingBlockCoords cleared)
  ∧ (∀ c, c ∈ Board.nonFallingBlockCoords cleared →
          c.2 < Board.gridHeight self ∨ c ∈ cells cleared f)
  ∧ (Board.nextTetromino self ∉ Board.tetrominos cleared)
  ∧ Board.deref cleared (Board.nextTetromino self)
    = Board.deref self (Board.nextTetromino self)
  ∧ (cells cleared f ≠ [] → f ∈ Board.tetrominos cleared).
Proof.
  intros [Hok Hfl Hnl Hfn Hff Hnf Hft Hnt Hsync Hcells Hbelow Hfree HsY HsX Hvalid]
    f cleared.
  pose proof (settle_refs_ok self Hok Hff Hfl) as Hok'.
  assert (Hsettle := settle_in_sync self Hsync).
  destruct (clearRow_fold_spec (Board.sort_reverse rows) (settle self) Hok')
    as (Hokc & Hin & Hout & Ht & Hlen & Hfr).
  pose proof (clearRow_fold_nonFallingBlockCoords (Board.sort_reverse rows)
                (settle self) Hok') as Hnfc.
  change (foldl (fun b row => Board.clearRow row b) (settle self)
            (Board.sort_reverse rows)) with cleared in *.
  set (sorted := Board.sort_reverse rows) in *.
  assert (Hts : Board.tetrominos (settle self) = Board.tetrominos self ++ [f])
    by done.
  assert (Hnfs : Board.nonFallingBlockCoords (settle self)
                 = Board.nonFallingBlockCoords self ++ cells self f).
  { rewrite Hsettle. unfold Board.nonFallingBlockCoords. simpl.
    rewrite bind_app. simpl. by rewrite app_nil_r. }
  assert (Hcf : cells cleared f = clearedCoords sorted (cells self f)).
  { unfold cells at 1. rewrite Hin.
    - simpl. f_equal. rewrite Hsettle. done.
    - rewrite Hts. apply elem_of_app. right. by apply list_elem_of_singleton. }
  rewrite Hnfs, clearedCoords_app in Hnfc.
  split; [done|]. split; [by rewrite Hfr|]. split.
  { rewrite Hlen. simpl. by rewrite length_insert. }
  split.
  { rewrite Hnfc, <- clearedCoords_app. apply NoDup_clearedCoords.
    apply NoDup_app. split; [done|]. split.
    - intros c Hc Hc'. by apply (Hfree c).
    - unfold f. rewrite Hsync. by apply calc_four_distinct. }
  split.
  { intros c. rewrite Hnfc, elem_of_app. intros [Hc|Hc].
    - left. apply elem_of_clearedCoords in Hc as (c0 & Hc0 & _ & Hle & _).
      apply Hbelow in Hc0. lia.
    - right. by rewrite Hcf. }
  split.
  { rewrite Ht, list_elem_of_filter, Hts, elem_of_app, list_elem_of_singleton.
    intros [_ [?|?]]; [done | by apply Hfn]. }
  split.
  { rewrite Hout.
    - rewrite Hsettle. done.
    - rewrite Hts, elem_of_app, list_elem_of_singleton.
      intros [?|?]; [done | by apply Hfn]. }
  intros Hne. rewrite Ht. apply list_elem_of_filter. split; [by right|].
  rewrite Hts. apply elem_of_app. right. by apply list_elem_of_singleton.
Qed.

End PlayingSteps.

Section PlayingTick.

Lemma updateTick_playing_inv (k : TetrominoType.t) (self self' : Board.t) (n : Z) :
  k ∈ TetrominoType.TYPES →
  playing_inv self →
  Board.updateTick k self = OK (self', (n, false)) →
  playing_inv self'.
Proof.
  intros Hk Hinv. rewrite updateTick_unfold. cbv zeta.
  destruct (Board.isValidPosition _) eqn:Hv.
  { intros [= <- _]. by apply (tried_playing_inv MOVE_DOWN). }
  destruct (Board.findFullRows (settle self)) as [rows|key]; [|done].
  destruct (Board.isInStartZone _ _) eqn:Hlost; [done|].
  intros [= <- _].
  destruct (cleared_facts rows self Hinv)
    as (Hok & Hfr & Hlen & Hnd & Hrows & Hnfresh & Hnext & _).
  destruct (frame_dims _ _ Hfr) as (Hd & Hn & Hf).
  destruct (dims_fields _ _ Hd) as (HW & HH & HsX & HsY).
  destruct Hinv.
  apply spawnTetromino_playing_inv; try done.
  - by rewrite Hn, Hlen.
  - by rewrite Hn.
  - by rewrite Hn, Hnext.
  - intros c [Hc|Hc]%Hrows; [by rewrite HH|].
    by apply (isInStartZone_false _ _ Hlost).
  - by rewrite HsY, HH.
  - by rewrite HsX, HW.
Qed.

(** A losing tick spawns nothing: the falling tetromino is the one
    just appended to the list. *)
Lemma updateTick_lost (k : TetrominoType.t) (self self' : Board.t) (n : Z) :
  playing_inv self →
  Board.updateTick k self = OK (self', (n, true)) →
  refs_ok self'
  ∧ NoDup (Board.nonFallingBlockCoords self')
  ∧ Board.fallingTetromino self' ∈ Board.tetrominos self'
  ∧ ∃ c, c ∈ cells self' (Board.fallingTetromino self')
         ∧ Board.gridHeight self' ≤ c.2.
Proof.
  intros Hinv. rewrite updateTick_unfold. cbv zeta.
  destruct (Board.isValidPosition _) eqn:Hv; [done|].
  destruct (Board.findFullRows (settle self)) as [rows|key]; [|done].
  destruct (Board.isInStartZone _ _) eqn:Hlost; [|done].
  intros [= <- _].
  destruct (cleared_facts rows self Hinv)
    as (Hok & Hfr & Hlen & Hnd & Hrows & Hnfresh & Hnext & Hkept).
  destruct (frame_dims _ _ Hfr) as (Hd & Hn & Hf).
  apply isInStartZone_true in Hlost as (c & Hc & Hrow).
  split; [done|]. split; [done|]. rewrite Hf. split; [|by exists c].
  apply Hkept. intros Hnil. rewrite Hnil in Hc. by apply elem_of_nil in Hc.
Qed.

Lemma step_playing_inv (self self' : Board.t) :
  playing_inv self → step self false self' → playing_inv self'.
Proof.
  intros Hinv Hstep. inversion Hstep as [k ? Hk|cmd ?|k ? ? n ? Hk Htick]; subst.
  - destruct Hinv. by apply spawnTetromino_playing_inv.
  - by apply commandFallingTetromino_playing_inv.
  - by apply (updateTick_playing_inv k self self' n).
Qed.

Lemma playing_playing_inv (self : Board.t) : playing self → playing_inv self.
Proof.
  induction 1 as [|self self' _ IH Hstep]; [by apply init_playing_inv|].
  by apply (step_playing_inv self).
Qed.

(** The invariant in the words of the specification. *)
Definition settled_disjoint (self : Board.t) : Prop :=
  ∀ (i j : nat) (ri rj : ref),
    i ≠ j →
    Board.tetrominos self !! i = Some ri →
    Board.tetrominos self !! j = Some rj →
    ∀ c, c ∈ cells self ri → c ∉ cells self rj.

Definition falling_free (self : Board.t) : Prop :=
  ∀ c, c ∈ cells self (Board.fallingTetromino self) →
       ∀ r, r ∈ Board.tetrominos self → c ∉ cells self r.

Definition board_invariant (self : Board.t) : Prop :=
  settled_disjoint self ∧ falling_free self.

Lemma NoDup_bind_disjoint {A B : Type} (f : A → list B) (l : list A)
    (i j : nat) (a b : A) (c : B) :
  NoDup (l ≫= f) → i ≠ j → l !! i = Some a → l !! j = Some b →
  c ∈ f a → c ∉ f b.
Proof.
  revert i j. induction l as [|a0 l IH]; intros i j Hnd Hij Hi Hj Ha Hb;
    [done|].
  rewrite bind_cons in Hnd. apply NoDup_app in Hnd as (Hnd0 & Hdisj & Hndl).
  destruct i as [|i], j as [|j]; simpl in Hi, Hj; simplify_eq.
  - apply (Hdisj c Ha). apply list_elem_of_bind. exists b.
    split; [done|]. by apply list_elem_of_lookup_2 in Hj.
  - apply (Hdisj c Hb). apply list_elem_of_bind. exists a.
    split; [done|]. by apply list_elem_of_lookup_2 in Hi.
  - apply (IH i j); (done || congruence).
Qed.

Lemma NoDup_settled_disjoint (self : Board.t) :
  NoDup (Board.nonFallingBlockCoords self) → settled_disjoint self.
Proof.
  intros Hnd i j ri rj Hij Hi Hj c Hc.
  by apply (NoDup_bind_disjoint _ _ i j ri rj c Hnd).
Qed.

Lemma playing_inv_board_invariant (self : Board.t) :
  playing_inv self → board_invariant self.
Proof.
  intros Hinv. split; [apply NoDup_settled_disjoint, Hinv|].
  intros c Hc r Hr Hin. apply (pi_free self Hinv c Hc).
  apply elem_of_nonFallingBlockCoords. eauto.
Qed.

End PlayingTick.

(** C7 (amended).  On every board the game passes through while no
    tick has reported loss, from [__init__] on: no two listed tetrominos
    share a block, the falling tetromino shares no block with a listed
    one, and every listed block lies below [gridHeight]; a tetromino
    spawned now has all its blocks at or above [gridHeight] and the
    invariant holds after the spawn; it holds after any command; after a
    tick the listed tetrominos still share no block, and the whole
    invariant holds again unless the tick reports loss, in which case
    nothing is spawned and the falling tetromino is the one just appended
    to the list, with a block at or above [gridHeight].  On a board
    at least five columns wide and of a height that is not negative, the
    falling tetromino always is at a position [isValidPosition] accepts,
    so only such positions are appended to the list. *)
Theorem board_invariant_while_playing (self : Board.t) :
  playing self →
  board_invariant self
  ∧ (∀ c, c ∈ Board.nonFallingBlockCoords self → c.2 < Board.gridHeight self)
  ∧ (∀ k, k ∈ TetrominoType.TYPES →
       let spawned := Board.spawnTetromino k self in
       board_invariant spawned
       ∧ ∀ c, c ∈ cells spawned (Board.fallingTetromino spawned) →
              Board.gridHeight self ≤ c.2)
  ∧ (∀ cmd, board_invariant (Board.commandFallingTetromino cmd self))
  ∧ (∀ k self' n gameLost,
       k ∈ TetrominoType.TYPES →
       Board.updateTick k self = OK (self', (n, gameLost)) →
       settled_disjoint self'
       ∧ if gameLost then
           Board.fallingTetromino self' ∈ Board.tetrominos self'
           ∧ ∃ c, c ∈ cells self' (Board.fallingTetromino self')
                  ∧ Board.gridHeight self' ≤ c.2
         else board_invariant self')
  ∧ (5 ≤ Board.gridWidth self → 0 ≤ Board.gridHeight self →
     Board.isValidPosition self = true).
Proof.
  intros Hplay. pose proof (playing_playing_inv self Hplay) as Hinv.
  split; [by apply playing_inv_board_invariant|].
  split; [apply Hinv|]. split; [|split; [|split; [|apply Hinv]]].
  - intros k Hk spawned.
    assert (Hs : playing_inv spawned)
      by (apply (step_playing_inv self); [done | by constructor]).
    split; [by apply playing_inv_board_invariant|].
    destruct (spawnTetromino_spec k self (pi_next_live self Hinv))
      as (Hf' & _ & _ & _ & _ & Hdn & _).
    fold spawned in Hf', Hdn. intros c. unfold cells. rewrite Hf', Hdn.
    intros Hc. apply setPosition_blocks in Hc; [|apply Hinv].
    rewrite (pi_spawnY self Hinv) in Hc. lia.
  - intros cmd. apply playing_inv_board_invariant.
    by apply commandFallingTetromino_playing_inv.
  - intros k self' n [|] Hk Htick.
    + destruct (updateTick_lost k self self' n Hinv Htick) as (_ & Hnd & Hin & Hc).
      split; [by apply NoDup_settled_disjoint | done].
    + pose proof (updateTick_playing_inv k self self' n Hk Hinv Htick) as Hinv'.
      split; [apply NoDup_settled_disjoint, Hinv'|].
      by apply playing_inv_board_invariant.
Qed.

(** ** Rows of the listed blocks, on every reachable board *)

Section Rows.

(** The rows [findFullRows] has a counter for. *)
Definition rows_counted (self : Board.t) (coords : list Coord) : Prop :=
  ∀ c, c ∈ coords →
       0 ≤ c.2 < Board.gridHeight self + Board.STARTING_ZONE_HEIGHT.

Record rows_inv (self : Board.t) : Prop := {
  ri_spawnY : Board.spawnY self = Board.gridHeight self;
  ri_falling_live :
    (Board.fallingTetromino self < length (Board.heap self))%nat;
  ri_next_live : (Board.nextTetromino self < length (Board.heap self))%nat;
  ri_live :
    Forall (fun r => (r < length (Board.heap self))%nat) (Board.tetrominos self);
  ri_falling_type :
    Tetromino.tetrominoType (Board.deref self (Board.fallingTetromino self))
    ∈ TetrominoType.TYPES;
  ri_next_type :
    Tetromino.tetrominoType (Board.deref self (Board.nextTetromino self))
    ∈ TetrominoType.TYPES;
  ri_y :
    Tetromino.y (Board.deref self (Board.fallingTetromino self))
    ≤ Board.gridHeight self;
  ri_calc :
    ∀ c, c ∈ Tetromino.calcBlockBoardCoords
               (Board.deref self (Board.fallingTetromino self)) → 0 ≤ c.2;
  ri_rows : ∀ r, r ∈ Board.tetrominos self → rows_counted self (cells self r)
}.

Lemma spawnTetromino_rows_inv (k : TetrominoType.t) (self : Board.t) :
  0 ≤ Board.gridHeight self →
  k ∈ TetrominoType.TYPES →
  Board.spawnY self = Board.gridHeight self →
  (Board.nextTetromino self < length (Board.heap self))%nat →
  Forall (fun r => (r < length (Board.heap self))%nat) (Board.tetrominos self) →
  Tetromino.tetrominoType (Board.deref self (Board.nextTetromino self))
  ∈ TetrominoType.TYPES →
  (∀ r, r ∈ Board.tetrominos self → rows_counted self (cells self r)) →
  rows_inv (Board.spawnTetromino k self).
Proof.
  intros HH0 Hk HsY Hn Hlive Hntype Hrows.
  destruct (spawnTetromino_spec k self Hn)
    as (Hf' & Hn' & Ht' & Hd' & Hlen' & Hdn & Hdfresh & Hdother).
  destruct (dims_fields _ _ Hd') as (HW & HH & HsX' & HsY').
  set (self' := Board.spawnTetromino k self) in *.
  rewrite Forall_forall in Hlive.
  assert (Hblocks : ∀ c,
            c ∈ Tetromino.blockBoardCoords (Board.deref self' (Board.nextTetromino self)) →
            Board.gridHeight self ≤ c.2 ≤ Board.gridHeight self + 3).
  { intros c. rewrite Hdn, HsY. intros Hc.
    apply setPosition_blocks in Hc; [|done]. lia. }
  split.
  - by rewrite HsY', HH.
  - rewrite Hf', Hlen'. lia.
  - rewrite Hn', Hlen'. lia.
  - rewrite Ht', Hlen'. apply Forall_forall. intros r Hr. apply Hlive in Hr. lia.
  - by rewrite Hf', Hdn.
  - by rewrite Hn', Hdfresh.
  - rewrite Hf', Hdn, HH. simpl. lia.
  - rewrite Hf'. intros c Hc. rewrite Hdn in Hc.
    change (Tetromino.calcBlockBoardCoords (Tetromino.setPosition ?a ?b ?o))
      with (Tetromino.blockBoardCoords (Tetromino.setPosition a b o)) in Hc.
    rewrite <- Hdn in Hc. apply Hblocks in Hc. lia.
  - rewrite Ht'. intros r Hr c Hc. rewrite HH. unfold Board.STARTING_ZONE_HEIGHT.
    destruct (decide (r = Board.nextTetromino self)) as [->|Hne].
    + apply Hblocks in Hc. lia.
    + unfold cells in Hc. rewrite Hdother in Hc; [|by apply Hlive|done].
      by apply (Hrows r Hr).
Qed.

Lemma init_rows_inv (x y W H bs : Z) (k1 k2 : TetrominoType.t) :
  0 ≤ H → k1 ∈ TetrominoType.TYPES → k2 ∈ TetrominoType.TYPES →
  rows_inv (Board.init x y W H bs k1 k2).
Proof.
  intros HH0 Hk1 Hk2. unfold Board.init. cbv zeta.
  set (self0 := Board.mk [Tetromino.new k1] x y W H (Z.quot (W * 1) 3) H bs
                  0%nat 0%nat []).
  assert (Hinv : rows_inv (Board.spawnTetromino k2 self0)).
  { apply spawnTetromino_rows_inv; try done.
    - simpl. lia.
    - intros r Hr. by apply elem_of_nil in Hr. }
  replace (Board.with_tetrominos [] (Board.spawnTetromino k2 self0))
    with (Board.spawnTetromino k2 self0); [done|].
  destruct (spawnTetromino_spec k2 self0) as (_ & _ & Ht & _); [simpl; lia|].
  destruct (Board.spawnTetromino k2 self0). simpl in Ht. subst.
  reflexivity.
Qed.

(** A method call on the falling tetromino that keeps its type, leaves
    it at or below the spawn row and its blocks in the counted rows. *)
Lemma modify_rows_inv (m : Tetromino.t → Tetromino.t) (self : Board.t) :
  rows_inv self →
  let o := Board.deref self (Board.fallingTetromino self) in
  Tetromino.tetrominoType (m o) = Tetromino.tetrominoType o →
  Tetromino.y (m o) ≤ Board.gridHeight self →
  (∀ c, c ∈ Tetromino.calcBlockBoardCoords (m o) → 0 ≤ c.2) →
  rows_counted self (Tetromino.blockBoardCoords (m o)) →
  rows_inv (Board.modify (Board.fallingTetromino self) m self).
Proof.
  intros [HsY Hfl Hnl Hlive Hft Hnt Hy Hcalc Hrows] o Htype Hy' Hcalc' Hblocks.
  set (f := Board.fallingTetromino self) in *.
  assert (Hdf : Board.deref (Board.modify f m self) f = m o)
    by (by apply deref_modify_eq).
  split; try done.
  - simpl. by rewrite length_insert.
  - simpl. by rewrite length_insert.
  - simpl. by rewrite length_insert.
  - change (Board.fallingTetromino (Board.modify f m self)) with f.
    by rewrite Hdf, Htype.
  - change (Board.nextTetromino (Board.modify f m self))
      with (Board.nextTetromino self).
    destruct (decide (f = Board.nextTetromino self)) as [<-|Hne].
    + by rewrite Hdf, Htype.
    + by rewrite deref_modify_ne.
  - change (Board.fallingTetromino (Board.modify f m self)) with f.
    by rewrite Hdf.
  - change (Board.fallingTetromino (Board.modify f m self)) with f.
    by rewrite Hdf.
  - intros r Hr. change (Board.tetrominos (Board.modify f m self))
      with (Board.tetrominos self) in Hr.
    unfold cells. destruct (decide (f = r)) as [<-|Hne].
    + by rewrite Hdf.
    + rewrite deref_modify_ne by done. by apply (Hrows r Hr).
Qed.

Lemma recalc_rows_inv (self : Board.t) :
  rows_inv self →
  rows_inv (Board.modify (Board.fallingTetromino self) Tetromino.recalc self).
Proof.
  intros Hinv. apply modify_rows_inv; try done; try apply Hinv.
  intros c Hc. simpl in Hc. pose proof (ri_calc self Hinv c Hc).
  apply calc_bounds in Hc; [|apply Hinv].
  pose proof (ri_y self Hinv). unfold Board.STARTING_ZONE_HEIGHT. lia.
Qed.

Lemma tried_rows_inv (cmd : Command) (self : Board.t) :
  rows_inv self →
  let tried :=
    Board.modify (Board.fallingTetromino self) (Tetromino.command cmd) self in
  Board.isValidPosition tried = true →
  rows_inv tried.
Proof.
  intros Hinv tried Hv.
  destruct (decide (cmd = TOGGLE_PAUSE)) as [->|Hc].
  { unfold tried. by rewrite modify_id. }
  set (o := Board.deref self (Board.fallingTetromino self)).
  assert (Hsync : Tetromino.blockBoardCoords (Tetromino.command cmd o)
                  = Tetromino.calcBlockBoardCoords (Tetromino.command cmd o))
    by (by destruct cmd).
  assert (Hpos : ∀ c, c ∈ Tetromino.blockBoardCoords (Tetromino.command cmd o) →
                      0 ≤ c.2).
  { apply isValidPosition_loop_true in Hv. rewrite Forall_forall in Hv.
    intros c Hc'. apply Hv.
    change (Board.fallingTetromino tried) with (Board.fallingTetromino self).
    unfold tried. rewrite deref_modify_eq by apply Hinv. exact Hc'. }
  pose proof (command_y cmd o) as Hy. pose proof (ri_y self Hinv) as Hy0.
  fold o in Hy0.
  apply modify_rows_inv; fold o; try done.
  - apply command_type.
  - lia.
  - by rewrite <- Hsync.
  - intros c Hc'. pose proof (Hpos c Hc') as H0. rewrite Hsync in Hc'.
    apply calc_bounds in Hc'; [|rewrite command_type; apply Hinv].
    unfold Board.STARTING_ZONE_HEIGHT. lia.
Qed.

Lemma commandFallingTetromino_rows_inv (cmd : Command) (self : Board.t) :
  rows_inv self → rows_inv (Board.commandFallingTetromino cmd self).
Proof.
  intros Hinv. unfold Board.commandFallingTetromino.
  destruct (Board.isValidPosition _) eqn:Hv.
  - by apply tried_rows_inv.
  - change (Board.fallingTetromino (Board.modify _ _ self))
      with (Board.fallingTetromino self).
    destruct (decide (cmd = TOGGLE_PAUSE)) as [->|Hc].
    + by rewrite !modify_id.
    + rewrite modify_command_undo by done. by apply recalc_rows_inv.
Qed.

End Rows.

Section RowsTick.

Lemma clearRows_frame (rows : list Z) (self : Board.t) :
  frame (Board.clearRows rows self) = frame self
  ∧ length (Board.heap (Board.clearRows rows self)) = length (Board.heap self).
Proof.
  unfold Board.clearRows. generalize (Board.sort_reverse rows). intros l.
  revert self. induction l as [|row l IH]; intros self; [done|].
  cbn [foldl]. destruct (IH (Board.clearRow row self)) as [-> ->].
  apply clearRow_loop_frame.
Qed.

Lemma settle_rows_inv (self : Board.t) : rows_inv self → rows_inv (settle self).
Proof.
  intros Hinv. pose proof (recalc_rows_inv self Hinv) as H1.
  set (f := Board.fallingTetromino self) in *.
  assert (Hcells : cells (Board.modify f Tetromino.recalc self) f
                   = Tetromino.calcBlockBoardCoords (Board.deref self f)).
  { unfold cells. rewrite deref_modify_eq by apply Hinv. done. }
  destruct H1 as [HsY Hfl Hnl Hlive Hft Hnt Hy Hcalc Hrows].
  split; try done.
  - simpl. apply Forall_app. split; [exact Hlive|].
    apply Forall_singleton. exact Hfl.
  - intros r [Hr|Hr%list_elem_of_singleton]%elem_of_app.
    + by apply (Hrows r Hr).
    + subst r. intros c Hc.
      assert (Hc' : c ∈ Tetromino.calcBlockBoardCoords (Board.deref self f))
        by (rewrite <- Hcells; exact Hc).
      pose proof (ri_calc self Hinv c Hc') as Hpos.
      apply calc_bounds in Hc'; [|apply Hinv].
      pose proof (ri_y self Hinv) as Hy0. fold f in Hy0.
      change (Board.gridHeight (settle self)) with (Board.gridHeight self).
      unfold Board.STARTING_ZONE_HEIGHT. lia.
Qed.

Lemma clearRow_rows_inv (row : Z) (self : Board.t) :
  0 ≤ row → rows_inv self → rows_inv (Board.clearRow row self).
Proof.
  intros Hrow [HsY Hfl Hnl Hlive Hft Hnt Hy Hcalc Hrows].
  destruct (clearRow_loop_frame row (Board.tetrominos self) [] self) as [Hfr Hlen].
  fold (Board.clearRow row self) in Hfr, Hlen.
  destruct (frame_dims _ _ Hfr) as (Hd & Hn & Hf).
  destruct (dims_fields _ _ Hd) as (HW & HH & HsX & HsY').
  assert (Hkeep : ∀ (P : Tetromino.t → Prop),
            (∀ o, P o → P (Tetromino.clearRow row o).1) →
            ∀ r, P (Board.deref self r) →
                 P (Board.deref (Board.clearRow row self) r)).
  { intros P HP r. by apply clearRow_loop_keeps. }
  rewrite Forall_forall in Hlive.
  assert (Hsub : ∀ r, r ∈ Board.tetrominos (Board.clearRow row self) →
                      r ∈ Board.tetrominos self).
  { intros r [Hr|Hr]%clearRow_loop_tetrominos; [|done].
    by apply elem_of_nil in Hr. }
  split.
  - by rewrite HsY', HH.
  - by rewrite Hf, Hlen.
  - by rewrite Hn, Hlen.
  - apply Forall_forall. intros r Hr. rewrite Hlen. by apply Hlive, Hsub.
  - rewrite Hf.
    by apply (Hkeep (fun o => Tetromino.tetrominoType o ∈ TetrominoType.TYPES)).
  - rewrite Hn.
    by apply (Hkeep (fun o => Tetromino.tetrominoType o ∈ TetrominoType.TYPES)).
  - rewrite Hf, HH.
    by apply (Hkeep (fun o => Tetromino.y o ≤ Board.gridHeight self)).
  - rewrite Hf.
    by apply (Hkeep (fun o => ∀ c, c ∈ Tetromino.calcBlockBoardCoords o → 0 ≤ c.2)).
  - intros r Hr. unfold rows_counted, cells. rewrite HH.
    apply (Hkeep (fun o => ∀ c, c ∈ Tetromino.blockBoardCoords o →
             0 ≤ c.2 < Board.gridHeight self + Board.STARTING_ZONE_HEIGHT)).
    + intros o Ho c. rewrite Tetromino_clearRow_with_blocks. simpl.
      intros (c0 & Hc0 & Hs)%list_elem_of_omap.
      apply shiftBlock_row in Hs as (_ & Hle & Hpos).
      specialize (Ho c0 Hc0). lia.
    + apply (Hrows r), Hsub, Hr.
Qed.

Lemma clearRows_rows_inv (rows : list Z) (self : Board.t) :
  Forall (fun row => 0 ≤ row) rows →
  rows_inv self → rows_inv (Board.clearRows rows self).
Proof.
  intros Hrows. unfold Board.clearRows.
  assert (Hsorted : Forall (fun row => 0 ≤ row) (Board.sort_reverse rows)).
  { destruct (sort_reverse_spec rows) as [Hperm _]. by rewrite Hperm. }
  revert Hsorted. generalize (Board.sort_reverse rows). intros l Hl.
  revert self. induction Hl as [|row l Hrow Hl IH]; intros self Hinv; [done|].
  cbn [foldl]. by apply IH, clearRow_rows_inv.
Qed.

Lemma findFullRows_nonneg (self : Board.t) (fullRows : list Z) :
  Board.findFullRows self = OK fullRows → Forall (fun row => 0 ≤ row) fullRows.
Proof.
  unfold Board.findFullRows. destruct (Board.countRows _ _); [|done].
  intros [= <-]. apply Forall_forall. intros row.
  rewrite list_elem_of_filter, elem_of_seqZ. lia.
Qed.

Lemma findFullRows_rows_inv (self : Board.t) :
  rows_inv self → ∃ fullRows, Board.findFullRows self = OK fullRows.
Proof.
  intros Hinv. eexists. apply findFullRows_OK.
  intros c (r & Hr & Hc)%elem_of_nonFallingBlockCoords.
  by apply (ri_rows self Hinv r Hr).
Qed.

Lemma updateTick_rows_inv (k : TetrominoType.t) (self : Board.t) :
  0 ≤ Board.gridHeight self →
  k ∈ TetrominoType.TYPES →
  rows_inv self →
  ∃ self' n gameLost,
    Board.updateTick k self = OK (self', (n, gameLost)) ∧ rows_inv self'.
Proof.
  intros HH0 Hk Hinv. rewrite updateTick_unfold. cbv zeta.
  destruct (Board.isValidPosition _) eqn:Hv.
  { eexists _, _, _. split; [done|]. by apply (tried_rows_inv MOVE_DOWN). }
  pose proof (settle_rows_inv self Hinv) as Hs.
  destruct (findFullRows_rows_inv _ Hs) as [rows Hrows]. rewrite Hrows.
  pose proof (clearRows_rows_inv rows _ (findFullRows_nonneg _ _ Hrows) Hs) as Hc.
  eexists _, _, _. split; [done|].
  destruct (Board.isInStartZone _ _); [done|].
  destruct (clearRows_frame rows (settle self)) as [Hfr _].
  destruct (frame_dims _ _ Hfr) as (Hd & _ & _).
  destruct (dims_fields _ _ Hd) as (_ & HH & _ & _).
  destruct Hc. apply spawnTetromino_rows_inv; try done.
  by rewrite HH.
Qed.

Lemma step_dims (self self' : Board.t) (gameLost : bool) :
  step self gameLost self' → dims self' = dims self.
Proof.
  intros Hstep. inversion Hstep as [k ? Hk|cmd ?|k ? ? n ? Hk Htick]; subst.
  - done.
  - unfold Board.commandFallingTetromino. by destruct (Board.isValidPosition _).
  - rewrite updateTick_unfold in Htick. cbv zeta in Htick.
    destruct (Board.isValidPosition _); [by simplify_eq|].
    destruct (Board.findFullRows _) as [rows|]; [|done].
    destruct (clearRows_frame rows (settle self)) as [Hfr _].
    destruct (frame_dims _ _ Hfr) as (Hd & _ & _).
    injection Htick as <- _ _. by destruct (Board.isInStartZone _ _).
Qed.

Lemma step_rows_inv (self self' : Board.t) (gameLost : bool) :
  0 ≤ Board.gridHeight self →
  rows_inv self → step self gameLost self' → rows_inv self'.
Proof.
  intros HH0 Hinv Hstep.
  inversion Hstep as [k ? Hk|cmd ?|k ? ? n ? Hk Htick]; subst.
  - destruct Hinv. by apply spawnTetromino_rows_inv.
  - by apply commandFallingTetromino_rows_inv.
  - destruct (updateTick_rows_inv k self HH0 Hk Hinv)
      as (b & n' & l & Heq & Hinv').
    rewrite Heq in Htick. by simplify_eq.
Qed.

Lemma reachable_rows_inv (self : Board.t) :
  reachable self → 0 ≤ Board.gridHeight self → rows_inv self.
Proof.
  induction 1 as [|self gameLost self' _ IH Hstep]; intros HH0.
  - by apply init_rows_inv.
  - destruct (dims_fields _ _ (step_dims _ _ _ Hstep)) as (_ & HH & _).
    rewrite HH in HH0. apply (step_rows_inv self self' gameLost); auto.
Qed.

End RowsTick.

(** C8.  On every board that calls of [spawnTetromino],
    [commandFallingTetromino] and [updateTick] lead to from a new board
    whose height is not negative, also after a tick has reported loss:
    every block of a listed tetromino lies in a row of [0 .. gridHeight +
    4), [findFullRows] finds a counter for each and returns, and
    [updateTick] returns a board, a number of rows and a flag, whichever
    type is drawn.  ([isValidPosition] never touches the counters; it is
    a function that gives [True] or [False] on every board.) *)
Theorem updateTick_total (self : Board.t) :
  reachable self →
  0 ≤ Board.gridHeight self →
  (∀ r c, r ∈ Board.tetrominos self → c ∈ cells self r →
          0 ≤ c.2 < Board.gridHeight self + Board.STARTING_ZONE_HEIGHT)
  ∧ (∃ fullRows, Board.findFullRows self = OK fullRows)
  ∧ (∃ valid, Board.isValidPosition self = valid)
  ∧ ∀ k, k ∈ TetrominoType.TYPES →
      ∃ self' n gameLost,
        Board.updateTick k self = OK (self', (n, gameLost))
        ∧ reachable self'.
Proof.
  intros Hreach HH0. pose proof (reachable_rows_inv self Hreach HH0) as Hinv.
  split; [|split; [|split]].
  - intros r c Hr Hc. by apply (ri_rows self Hinv r Hr).
  - by apply findFullRows_rows_inv.
  - by eexists.
  - intros k Hk.
    destruct (updateTick_rows_inv k self HH0 Hk Hinv)
      as (self' & n & l & Heq & _).
    exists self', n, l. split; [done|].
    apply (reachable_step self l). { done. } by apply (step_tick k self self' n l).
Qed.

(** ** The session *)

(** Several frames in a row; [ks] are the types the frames may draw. *)
Fixpoint updates (ks : list TetrominoType.t) (self : Game.t) : result Game.t :=
  match ks with
  | [] => OK self
  | k :: ks' =>
      match Game.update k self with
      | OK self' => updates ks' self'
      | KeyError key => KeyError key
      end
  end.

Lemma showGameover_idem (self : Game.t) :
  Game.showGameover (Game.showGameover self) = Game.showGameover self.
Proof. done. Qed.

Lemma updates_lost (ks : list TetrominoType.t) (self : Game.t) :
  Game.lost self = true →
  updates ks self = OK (if ks is [] then self else Game.showGameover self).
Proof.
  revert self. induction ks as [|k ks IH]; intros self Hlost; [done|].
  cbn [updates]. unfold Game.update. rewrite Hlost.
  rewrite IH by done. destruct ks; [done|]. by rewrite showGameover_idem.
Qed.

(** C10.  Once [lost] is set, an [update] only sets
    [showGameoverLabel]: the board with its store, the counters, the
    pause flag, the pending input, the timer and [lost] itself are as
    before, and the same holds after any number of further updates. *)
Theorem update_when_lost (k : TetrominoType.t) (ks : list TetrominoType.t)
    (self : Game.t) :
  Game.lost self = true →
  Game.update k self = OK (Game.showGameover self)
  ∧ updates (k :: ks) self = OK (Game.showGameover self)
  ∧ let self' := Game.showGameover self in
    Game.board self' = Game.board self
    ∧ Game.numRowsCleared self' = Game.numRowsCleared self
    ∧ Game.rowsCleared self' = Game.rowsCleared self
    ∧ Game.paused self' = Game.paused self
    ∧ Game.lost self' = true
    ∧ Game.input self' = Game.input self
    ∧ Game.ticker self' = Game.ticker self
    ∧ Game.tickSpeed self' = Game.tickSpeed self
    ∧ InfoDisplay.rowsClearedLabel (Game.infoDisplay self')
      = InfoDisplay.rowsClearedLabel (Game.infoDisplay self)
    ∧ InfoDisplay.showPausedLabel (Game.infoDisplay self')
      = InfoDisplay.showPausedLabel (Game.infoDisplay self)
    ∧ InfoDisplay.showGameoverLabel (Game.infoDisplay self') = true.
Proof.
  intros Hlost. split; [|split].
  - unfold Game.update. by rewrite Hlost.
  - by rewrite updates_lost.
  - by repeat split.
Qed.

(** ** Worked boards *)

(** A call made on the board while the game is being played. *)
Inductive call := Tick (k : TetrominoType.t) | Cmd (cmd : Command).

(** The board after a list of calls, while no tick reports loss or
    raises. *)
Fixpoint play (calls : list call) (self : Board.t) : option Board.t :=
  match calls with
  | [] => Some self
  | Tick k :: rest =>
      match Board.updateTick k self with
      | OK (self', (_, false)) => play rest self'
      | _ => None
      end
  | Cmd cmd :: rest => play rest (Board.commandFallingTetromino cmd self)
  end.

Definition call_ok (c : call) : Prop :=
  match c with
  | Tick k => k ∈ TetrominoType.TYPES
  | Cmd _ => True
  end.

Lemma play_playing (calls : list call) (self self' : Board.t) :
  Forall call_ok calls → playing self → play calls self = Some self' →
  playing self'.
Proof.
  intros Hcalls. revert self.
  induction Hcalls as [|c calls Hc Hcalls IH]; intros self Hplay Hrun.
  - by injection Hrun as <-.
  - destruct c as [k|cmd]; cbn [play] in Hrun.
    + destruct (Board.updateTick k self) as [[b [n [|]]]|] eqn:Htick; try done.
      apply (IH b); [|done]. apply (playing_step self); [done|].
      by apply (step_tick k self b n false).
    + apply (IH _ (playing_step _ _ Hplay (step_command cmd self)) Hrun).
Qed.

Lemma line_in_TYPES : TetrominoType.line ∈ TetrominoType.TYPES.
Proof. unfold TetrominoType.TYPES. by left. Qed.

Lemma square_in_TYPES : TetrominoType.square ∈ TetrominoType.TYPES.
Proof. unfold TetrominoType.TYPES. right. by left. Qed.

(** A board five columns wide and three rows high, with one line lying
    in columns 1 to 4 of row 0 and a second line standing in column 0,
    on the floor, after the calls below. *)
Definition narrow : Board.t :=
  Board.init 445 13 5 3 24 TetrominoType.line TetrominoType.line.

Definition narrow_calls : list call :=
  replicate 5 (Tick TetrominoType.line)
  ++ [Cmd ROTATE_CLOCKWISE; Cmd MOVE_LEFT; Cmd MOVE_LEFT]
  ++ replicate 3 (Tick TetrominoType.line).

Definition resting : Board.t := default narrow (play narrow_calls narrow).

Lemma playing_resting : playing resting.
Proof.
  apply (play_playing narrow_calls narrow).
  - unfold narrow_calls. repeat apply Forall_app_2;
      try apply Forall_replicate; try exact line_in_TYPES.
    by repeat constructor.
  - apply playing_init; exact line_in_TYPES.
  - vm_compute. reflexivity.
Qed.

(** The game board, ten by twenty, after ten squares were left to fall
    from the spawn position: they fill columns 3 and 4 up to row 19, and
    an eleventh square waits at the spawn position. *)
Definition tall : Board.t :=
  Board.init 445 13 10 20 24 TetrominoType.square TetrominoType.square.

Definition stacked : Board.t :=
  default tall (play (replicate 120 (Tick TetrominoType.square)) tall).

Lemma playing_stacked : playing stacked.
Proof.
  apply (play_playing (replicate 120 (Tick TetrominoType.square)) tall).
  - apply Forall_replicate. exact square_in_TYPES.
  - apply playing_init; exact square_in_TYPES.
  - vm_compute. reflexivity.
Qed.

(** The game board with a square in columns 8 and 9 and a line in
    columns 4 to 7 on the floor, and a line over columns 0 to 3 that has
    fallen to row 0. *)
Definition rowfull_calls : list call :=
  replicate 5 (Cmd MOVE_RIGHT) ++ replicate 21 (Tick TetrominoType.line)
  ++ [Cmd MOVE_RIGHT] ++ replicate 22 (Tick TetrominoType.line)
  ++ replicate 3 (Cmd MOVE_LEFT) ++ replicate 21 (Tick TetrominoType.line).

Definition rowfull_start : Board.t :=
  Board.init 445 13 10 20 24 TetrominoType.square TetrominoType.line.

Definition rowfull : Board.t :=
  default rowfull_start (play rowfull_calls rowfull_start).

Lemma playing_rowfull : playing rowfull.
Proof.
  apply (play_playing rowfull_calls rowfull_start).
  - unfold rowfull_calls. repeat apply Forall_app_2;
      try apply Forall_replicate; try exact line_in_TYPES; try exact I.
    by repeat constructor.
  - apply playing_init; [exact square_in_TYPES | exact line_in_TYPES].
  - vm_compute. reflexivity.
Qed.

Example rowfull_blocks :
  Board.nonFallingBlockCoords (settle rowfull)
  = [(8, 0); (8, 1); (9, 0); (9, 1); (4, 0); (5, 0); (6, 0); (7, 0);
     (0, 0); (1, 0); (2, 0); (3, 0)].
Proof. vm_compute. reflexivity. Qed.

(** The scenario of the specification: width 10, the four blocks of the
    tetromino just appended and six blocks appended before fill row 0. *)
Example findFullRows_scenario : Board.findFullRows (settle rowfull) = OK [0].
Proof. vm_compute. reflexivity. Qed.

(** A board whose height is negative: the first tick raises. *)
Example updateTick_negative_height :
  Board.updateTick TetrominoType.square
    (Board.init 445 13 10 (-4) 24 TetrominoType.square TetrominoType.square)
  = KeyError (-4).
Proof. vm_compute. reflexivity. Qed.

(** A position [isValidPosition] rejects is undone. *)
Example commandFallingTetromino_wall :
  Board.commandFallingTetromino MOVE_LEFT resting = resting.
Proof. vm_compute. reflexivity. Qed.

(** ** The properties at the worked boards *)

(** C1, as first stated, fails on [resting].  The standing line cannot
    move down; it rests on rows 0 to 3 of a board whose [gridHeight] is
    3, so its top block is in the starting zone.  Its lowest block
    completes row 0, that row is cleared, the three blocks left move
    down to rows 0 to 2, and the tick reports one cleared row and no
    loss. *)
Lemma updateTick_loss_counterexample :
  playing resting
  ∧ Board.gridHeight resting = 3
  ∧ Board.isValidPosition
      (Board.modify (Board.fallingTetromino resting) Tetromino.moveDown resting)
    = false
  ∧ cells resting (Board.fallingTetromino resting)
    = [(0, 0); (0, 1); (0, 2); (0, 3)]
  ∧ (∃ c, c ∈ cells resting (Board.fallingTetromino resting)
          ∧ Board.gridHeight resting ≤ c.2)
  ∧ ∃ after,
      Board.updateTick TetrominoType.square resting = OK (after, (1, false))
      ∧ cells after 1%nat = [(0, 0); (0, 1); (0, 2)].
Proof.
  split; [exact playing_resting|].
  split; [vm_compute; reflexivity|].
  split; [vm_compute; reflexivity|].
  split; [vm_compute; reflexivity|].
  split.
  - exists (0, 3). split; [|vm_compute; discriminate].
    apply (bool_decide_unpack _). vm_compute. reflexivity.
  - eexists. split; vm_compute; reflexivity.
Qed.

Lemma updateTick_spec_witness :
  refs_ok resting
  ∧ (Board.fallingTetromino resting ∉ Board.tetrominos resting)
  ∧ (Board.fallingTetromino resting < length (Board.heap resting))%nat
  ∧ cells (Board.clearRows [0] (settle resting))
      (Board.fallingTetromino resting)
    = clearedCoords [0] [(0, 0); (0, 1); (0, 2); (0, 3)]
  ∧ ∃ after,
      Board.updateTick TetrominoType.square resting = OK (after, (1, false)).
Proof.
  assert (H1 : refs_ok resting)
    by (split; apply (bool_decide_unpack _); vm_compute; reflexivity).
  assert (H2 : Board.fallingTetromino resting ∉ Board.tetrominos resting)
    by (apply (bool_decide_unpack _); vm_compute; reflexivity).
  assert (H3 : (Board.fallingTetromino resting
                < length (Board.heap resting))%nat)
    by (vm_compute; lia).
  split; [exact H1|]. split; [exact H2|]. split; [exact H3|].
  pose proof (updateTick_spec TetrominoType.square resting H1 H2 H3) as H.
  cbv zeta in H.
  replace (Board.isValidPosition
             (Board.modify (Board.fallingTetromino resting)
                Tetromino.moveDown resting))
    with false in H by (vm_compute; reflexivity).
  replace (Board.findFullRows (settle resting)) with (OK (A:=list Z) [0]) in H
    by (vm_compute; reflexivity).
  destruct H as (_ & Hcells & Htick). split.
  - rewrite Hcells. vm_compute. reflexivity.
  - eexists. rewrite Htick. vm_compute. reflexivity.
Defined.

Lemma clearRows_spec_witness :
  refs_ok (settle resting)
  ∧ Board.sort_reverse [0; 2; 1] = [2; 1; 0]
  ∧ cells (Board.clearRows [0] (settle resting)) 1%nat
    = [(0, 0); (0, 1); (0, 2)]
  ∧ Board.tetrominos (Board.clearRow 0 (settle resting)) = [1%nat].
Proof.
  assert (H1 : refs_ok (settle resting))
    by (split; apply (bool_decide_unpack _); vm_compute; reflexivity).
  split; [exact H1|]. split; [vm_compute; reflexivity|].
  destruct (clearRows_spec [0] 0 (settle resting) H1)
    as (_ & _ & _ & Hin & _ & _ & _ & Ht & _).
  split.
  - unfold cells at 1. rewrite Hin by (apply (bool_decide_unpack _); vm_compute; reflexivity).
    vm_compute. reflexivity.
  - rewrite Ht. vm_compute. reflexivity.
Defined.

Lemma commandFallingTetromino_rollback_witness :
  cells resting (Board.fallingTetromino resting)
  = Tetromino.calcBlockBoardCoords
      (Board.deref resting (Board.fallingTetromino resting))
  ∧ (Board.fallingTetromino resting ∉ Board.tetrominos resting)
  ∧ Board.fallingTetromino resting ≠ Board.nextTetromino resting
  ∧ Board.isValidPosition
      (Board.modify (Board.fallingTetromino resting)
         (Tetromino.command MOVE_LEFT) resting) = false
  ∧ Board.commandFallingTetromino MOVE_LEFT resting = resting.
Proof.
  assert (H1 : cells resting (Board.fallingTetromino resting)
               = Tetromino.calcBlockBoardCoords
                   (Board.deref resting (Board.fallingTetromino resting)))
    by (vm_compute; reflexivity).
  assert (H2 : Board.fallingTetromino resting ∉ Board.tetrominos resting)
    by (apply (bool_decide_unpack _); vm_compute; reflexivity).
  assert (H3 : Board.fallingTetromino resting ≠ Board.nextTetromino resting)
    by (vm_compute; lia).
  split; [exact H1|]. split; [exact H2|]. split; [exact H3|].
  split; [vm_compute; reflexivity|].
  destruct (commandFallingTetromino_rollback MOVE_LEFT resting H1 H2 H3)
    as (Heq & _).
  rewrite Heq. vm_compute. reflexivity.
Defined.

Lemma findFullRows_spec_witness :
  (∀ c, c ∈ Board.nonFallingBlockCoords (settle rowfull) →
        0 ≤ c.2
        < Board.gridHeight (settle rowfull) + Board.STARTING_ZONE_HEIGHT)
  ∧ Board.findFullRows (settle rowfull) = OK [0]
  ∧ ∃ fullRows,
      Board.findFullRows (settle rowfull) = OK fullRows
      ∧ NoDup fullRows
      ∧ ∀ row, row ∈ fullRows ↔
          0 ≤ row
          < Board.gridHeight (settle rowfull) + Board.STARTING_ZONE_HEIGHT
          ∧ blocksInRow row (Board.nonFallingBlockCoords (settle rowfull))
            = Board.gridWidth (settle rowfull).
Proof.
  assert (H1 : ∀ c, c ∈ Board.nonFallingBlockCoords (settle rowfull) →
            0 ≤ c.2
            < Board.gridHeight (settle rowfull) + Board.STARTING_ZONE_HEIGHT).
  { apply Forall_forall. apply (bool_decide_unpack _). vm_compute. reflexivity. }
  split; [exact H1|]. split; [vm_compute; reflexivity|].
  exact (findFullRows_spec (settle rowfull) H1).
Defined.

(** C7, as first stated, fails on [stacked].  The invariant holds there;
    the eleventh square cannot move down from the spawn position, the
    tick appends it where it is, reports loss and spawns nothing, and
    the falling tetromino is then the last tetromino of the list. *)
Lemma board_invariant_counterexample :
  playing stacked
  ∧ board_invariant stacked
  ∧ ∃ toppedOut,
      Board.updateTick TetrominoType.square stacked = OK (toppedOut, (0, true))
      ∧ Board.fallingTetromino toppedOut = 10%nat
      ∧ Board.tetrominos toppedOut = seq 0 11
      ∧ cells toppedOut 10%nat = [(3, 20); (3, 21); (4, 20); (4, 21)]
      ∧ ¬ board_invariant toppedOut.
Proof.
  split; [exact playing_stacked|].
  split; [exact (playing_inv_board_invariant _
                   (playing_playing_inv _ playing_stacked))|].
  eexists. split; [vm_compute; reflexivity|].
  split; [vm_compute; reflexivity|].
  split; [vm_compute; reflexivity|].
  split; [vm_compute; reflexivity|].
  intros [_ Hfree]. apply (Hfree (3, 20)) with (r := 10%nat);
    apply (bool_decide_unpack _); vm_compute; reflexivity.
Qed.

Lemma board_invariant_while_playing_witness :
  playing stacked
  ∧ board_invariant stacked
  ∧ Board.isValidPosition stacked = true.
Proof.
  split; [exact playing_stacked|].
  destruct (board_invariant_while_playing stacked playing_stacked)
    as (Hinv & _ & _ & _ & _ & Hvalid).
  split; [exact Hinv|]. apply Hvalid; vm_compute; discriminate.
Defined.

Lemma updateTick_total_witness :
  reachable stacked
  ∧ 0 ≤ Board.gridHeight stacked
  ∧ (∃ fullRows, Board.findFullRows stacked = OK fullRows)
  ∧ ∃ self' n gameLost,
      Board.updateTick TetrominoType.square stacked
      = OK (self', (n, gameLost)).
Proof.
  assert (H1 : reachable stacked) by exact (playing_reachable _ playing_stacked).
  assert (H2 : 0 ≤ Board.gridHeight stacked) by (vm_compute; discriminate).
  split; [exact H1|]. split; [exact H2|].
  destruct (updateTick_total stacked H1 H2) as (_ & Hrows & _ & Htick).
  split; [exact Hrows|].
  destruct (Htick TetrominoType.square square_in_TYPES)
    as (self' & n & l & Heq & _).
  by exists self', n, l.
Defined.

(** The session on [stacked]: the first frame arms the timer, the clock
    fires, the second frame ticks and the game is lost. *)
Definition clockFires (self : Game.t) : Game.t :=
  Game.mk (Game.paused self) (Game.lost self) (Game.numRowsCleared self)
    (Game.board self) (Game.infoDisplay self) (Game.input self)
    (Game.tickSpeed self) (GameTick.setTick (Game.ticker self))
    (Game.rowsCleared self).

Definition gameover : Game.t :=
  let g0 := Game.init stacked InfoDisplay.init (Input.mk None) in
  match Game.update TetrominoType.square g0 with
  | OK g1 =>
      match Game.update TetrominoType.square (clockFires g1) with
      | OK g2 => g2
      | KeyError _ => g1
      end
  | KeyError _ => g0
  end.

Lemma update_when_lost_witness :
  Game.lost gameover = true
  ∧ Game.update TetrominoType.line gameover = OK (Game.showGameover gameover)
  ∧ updates [TetrominoType.line; TetrominoType.T_shape; TetrominoType.line]
      gameover
    = OK (Game.showGameover gameover).
Proof.
  assert (H1 : Game.lost gameover = true) by (vm_compute; reflexivity).
  split; [exact H1|].
  destruct (update_when_lost TetrominoType.line
              [TetrominoType.T_shape; TetrominoType.line] gameover H1)
    as (Hu & Hus & _).
  split; [exact Hu | exact Hus].
Defined.

(** * Further properties of the code *)

(** ** Turning and moving a tetromino *)

Section Geometry.

(** The unit step of a command that moves. *)
Definition delta (cmd : Command) : option Coord :=
  match cmd with
  | MOVE_DOWN => Some (0, -1)
  | MOVE_LEFT => Some (-1, 0)
  | MOVE_RIGHT => Some (1, 0)
  | _ => None
  end.

Lemma fmap_translate (dx dy x y : Z) (l : list Coord) :
  (fun c : Coord => (c.1 + dx, c.2 + dy)) <$> Tetromino.translate x y l
  = Tetromino.translate (x + dx) (y + dy) l.
Proof.
  induction l as [|c l IH]; [done|]. cbn [Tetromino.translate fmap list_fmap].
  f_equal; [f_equal; simpl; lia | exact IH].
Qed.

End Geometry.

(** X1.  [rotateClockwise] four times, and [rotateClockwise] and
    [rotateCounterclockwise] one after the other in either order, give the
    tetromino with the anchor, orientation and type it had and its blocks
    recomputed; a tetromino that was last moved or turned is unchanged. *)
Theorem rotate_cycle (self : Tetromino.t) :
  let cw := Tetromino.rotateClockwise in
  let ccw := Tetromino.rotateCounterclockwise in
  cw (cw (cw (cw self))) = Tetromino.recalc self
  ∧ ccw (cw self) = Tetromino.recalc self
  ∧ cw (ccw self) = Tetromino.recalc self
  ∧ ccw self = cw (cw (cw self))
  ∧ (Tetromino.blockBoardCoords self = Tetromino.calcBlockBoardCoords self →
     cw (cw (cw (cw self))) = self).
Proof.
  destruct self as [x y k o cs]. cbv zeta. repeat split.
  - by destruct o.
  - by destruct o.
  - by destruct o.
  - simpl. intros ->. by destruct o.
Qed.

Lemma rotate_cycle_witness :
  let piece := Tetromino.setPosition 3 20 (Tetromino.new TetrominoType.L_shape) in
  Tetromino.blockBoardCoords piece = Tetromino.calcBlockBoardCoords piece
  ∧ Tetromino.rotateClockwise
      (Tetromino.rotateClockwise
         (Tetromino.rotateClockwise (Tetromino.rotateClockwise piece)))
    = piece.
Proof.
  intros piece.
  assert (H : Tetromino.blockBoardCoords piece
              = Tetromino.calcBlockBoardCoords piece) by reflexivity.
  split; [exact H|].
  destruct (rotate_cycle piece) as (_ & _ & _ & _ & Hback).
  exact (Hback H).
Defined.

(** X2. A command that moves shifts every block by the same unit step:
    the blocks after [MOVE_DOWN], [MOVE_LEFT] or [MOVE_RIGHT] are the
    blocks computed before, each moved by (0,-1), (-1,0) or (1,0), in the
    same order, and the orientation and type are unchanged. *)
Theorem command_moves_rigidly (cmd : Command) (step : Coord)
    (self : Tetromino.t) :
  delta cmd = Some step →
  let self' := Tetromino.command cmd self in
  Tetromino.blockBoardCoords self'
  = (fun c : Coord => (c.1 + step.1, c.2 + step.2))
      <$> Tetromino.calcBlockBoardCoords self
  ∧ Tetromino.x self' = Tetromino.x self + step.1
  ∧ Tetromino.y self' = Tetromino.y self + step.2
  ∧ Tetromino.orientation self' = Tetromino.orientation self
  ∧ Tetromino.tetrominoType self' = Tetromino.tetrominoType self.
Proof.
  intros Hd self'. subst self'. unfold Tetromino.calcBlockBoardCoords.
  rewrite fmap_translate.
  destruct cmd; simplify_eq/=; unfold Tetromino.calcBlockBoardCoords; simpl;
    repeat split; try lia; f_equal; lia.
Qed.

Lemma command_moves_rigidly_witness :
  let piece := Tetromino.setPosition 3 20 (Tetromino.new TetrominoType.L_shape) in
  delta MOVE_DOWN = Some (0, -1)
  ∧ Tetromino.blockBoardCoords piece = [(3, 21); (4, 21); (5, 21); (5, 22)]
  ∧ Tetromino.blockBoardCoords (Tetromino.command MOVE_DOWN piece)
    = [(3, 20); (4, 20); (5, 20); (5, 21)].
Proof.
  intros piece. split; [reflexivity|]. split; [reflexivity|].
  destruct (command_moves_rigidly MOVE_DOWN (0, -1) piece eq_refl) as (Hb & _).
  rewrite Hb. reflexivity.
Defined.

(** ** The input *)

Section InputEvents.

Context (keys : key.t).

(** The input after a handler of tetris.py ran; the clock and the frame
    callback do not write it. *)
Definition pressed (ev : tetris.event) (self : Input.t) : Input.t :=
  match ev with
  | tetris.on_key_press symbol modifiers =>
      Input.processKeypress keys symbol modifiers self
  | tetris.on_text_motion motion => Input.processTextMotion keys motion self
  | _ => self
  end.

(** The action an event stores when it is read at all. *)
Definition recognised (ev : tetris.event) : option Command :=
  Input.action (pressed ev (Input.mk None)).

Lemma pressed_recognised (ev : tetris.event) (self : Input.t) :
  pressed ev self
  = match recognised ev with
    | Some a => Input.mk (Some a)
    | None => self
    end.
Proof.
  unfold recognised. destruct ev as [symbol modifiers|motion| |k]; simpl.
  - unfold Input.processKeypress. by case_decide.
  - unfold Input.processTextMotion. by repeat case_decide.
  - done.
  - done.
Qed.

Lemma foldl_pressed (evs : list tetris.event) (self : Input.t) :
  Input.action (foldl (fun inp ev => pressed ev inp) self evs)
  = match last (omap recognised evs) with
    | Some a => Some a
    | None => Input.action self
    end.
Proof.
  induction evs as [|ev evs IH] using rev_ind; [done|].
  rewrite foldl_app. cbn [foldl]. rewrite pressed_recognised, omap_app.
  cbn [omap list_omap]. destruct (recognised ev) as [a|].
  - by rewrite last_snoc.
  - by rewrite app_nil_r.
Qed.

End InputEvents.

Lemma NoDup_four {A : Type} (a b c d : A) :
  NoDup [a; b; c; d] → a ≠ b ∧ a ≠ c ∧ a ≠ d ∧ b ≠ c ∧ b ≠ d ∧ c ≠ d.
Proof.
  intros Hnd. apply NoDup_cons in Hnd as [Ha Hnd].
  apply NoDup_cons in Hnd as [Hb Hnd]. apply NoDup_cons in Hnd as [Hc _].
  repeat split; intros ->.
  - apply Ha. by left.
  - apply Ha. right. by left.
  - apply Ha. right. right. by left.
  - apply Hb. by left.
  - apply Hb. right. by left.
  - apply Hc. by left.
Qed.

(** X3.  The input holds one action, the last one read: after any
    key presses and text motions, [consume] returns the action of the
    last event that was read (the space bar, or one of the four arrows),
    or what was pending before if none was, and leaves nothing pending,
    so that a second [consume] returns [None].  With the four arrow
    constants distinct, each arrow stores its own command. *)
Theorem consume_last_input (keys : key.t) (evs : list tetris.event)
    (self : Input.t) :
  NoDup [key.MOTION_LEFT keys; key.MOTION_RIGHT keys; key.MOTION_UP keys;
         key.MOTION_DOWN keys] →
  let self' := foldl (fun inp ev => pressed keys ev inp) self evs in
  (Input.consume self').1
  = match last (omap (recognised keys) evs) with
    | Some a => Some a
    | None => Input.action self
    end
  ∧ (Input.consume (Input.consume self').2).1 = None
  ∧ (∀ modifiers,
       recognised keys (tetris.on_key_press (key.SPACE keys) modifiers)
       = Some TOGGLE_PAUSE)
  ∧ (∀ symbol modifiers,
       symbol ≠ key.SPACE keys →
       recognised keys (tetris.on_key_press symbol modifiers) = None)
  ∧ recognised keys (tetris.on_text_motion (key.MOTION_LEFT keys))
    = Some MOVE_LEFT
  ∧ recognised keys (tetris.on_text_motion (key.MOTION_RIGHT keys))
    = Some MOVE_RIGHT
  ∧ recognised keys (tetris.on_text_motion (key.MOTION_UP keys))
    = Some ROTATE_CLOCKWISE
  ∧ recognised keys (tetris.on_text_motion (key.MOTION_DOWN keys))
    = Some MOVE_DOWN
  ∧ (∀ motion,
       motion ∉ [key.MOTION_LEFT keys; key.MOTION_RIGHT keys;
                 key.MOTION_UP keys; key.MOTION_DOWN keys] →
       recognised keys (tetris.on_text_motion motion) = None).
Proof.
  intros Hnd self'.
  split; [apply foldl_pressed|]. split; [done|].
  apply NoDup_four in Hnd as (Hlr & Hlu & Hld & Hru & Hrd & Hud).
  unfold recognised, pressed, Input.processKeypress, Input.processTextMotion.
  repeat split.
  - intros _. by rewrite decide_True.
  - intros symbol _ Hs. by rewrite decide_False.
  - by rewrite decide_True.
  - repeat case_decide; (done || congruence).
  - repeat case_decide; (done || congruence).
  - repeat case_decide; (done || congruence).
  - intros motion Hm. rewrite !not_elem_of_cons in Hm.
    destruct Hm as (? & ? & ? & ? & _). repeat case_decide; (done || congruence).
Qed.

(** The values the constants have in pyglet. *)
Definition pyglet_keys : key.t := key.mk 32 65361 65363 65362 65364.

Lemma consume_last_input_witness :
  NoDup [key.MOTION_LEFT pyglet_keys; key.MOTION_RIGHT pyglet_keys;
         key.MOTION_UP pyglet_keys; key.MOTION_DOWN pyglet_keys]
  ∧ (Input.consume
       (foldl (fun inp ev => pressed pyglet_keys ev inp) (Input.mk None)
          [tetris.on_text_motion 65361; tetris.on_key_press 32 0;
           tetris.on_text_motion 65364; tetris.on_key_press 97 0])).1
    = Some MOVE_DOWN.
Proof.
  assert (H1 : NoDup [key.MOTION_LEFT pyglet_keys; key.MOTION_RIGHT pyglet_keys;
                      key.MOTION_UP pyglet_keys; key.MOTION_DOWN pyglet_keys])
    by (apply (bool_decide_unpack _); vm_compute; reflexivity).
  split; [exact H1|].
  destruct (consume_last_input pyglet_keys
              [tetris.on_text_motion 65361; tetris.on_key_press 32 0;
               tetris.on_text_motion 65364; tetris.on_key_press 97 0]
              (Input.mk None) H1) as (Hc & _).
  rewrite Hc. reflexivity.
Defined.

(** ** The tick timer *)

(** What happens to a timer: a frame polls it, or the clock runs the
    scheduled [setTick]. *)
Inductive timing := poll (nextTickTime : Q) | fire.

(** The answers of the polls, in order, and the timer afterwards. *)
Fixpoint timed (evs : list timing) (self : GameTick.t) : list bool * GameTick.t :=
  match evs with
  | [] => ([], self)
  | poll nextTickTime :: rest =>
      let '(due, self) := GameTick.isTick nextTickTime self in
      let '(answers, self) := timed rest self in
      (due :: answers, self)
  | fire :: rest => timed rest (GameTick.setTick self)
  end.

Definition is_fire (ev : timing) : bool :=
  match ev with
  | fire => true
  | poll _ => false
  end.

Definition fires (evs : list timing) : nat :=
  length (filter (fun ev => is_fire ev = true) evs).

Definition dues (answers : list bool) : nat :=
  length (filter (fun b : bool => b = true) answers).

Section Timer.

(** At most one [setTick] is scheduled, and none while the flag is up. *)
Definition timer_ok (self : GameTick.t) : Prop :=
  (length (GameTick.scheduled self) ≤ 1)%nat
  ∧ (GameTick.tick self = true → GameTick.scheduled self = [])
  ∧ (GameTick.started self = false →
     GameTick.tick self = false ∧ GameTick.scheduled self = [])
  ∧ (GameTick.started self = true → GameTick.tick self = false →
     length (GameTick.scheduled self) = 1%nat).

Lemma isTick_timer_ok (t : Q) (self : GameTick.t) :
  timer_ok self → timer_ok (GameTick.isTick t self).2.
Proof.
  destruct self as [tk st sch]. unfold timer_ok, GameTick.isTick. simpl.
  intros (Hlen & Htick & Hst & Harmed).
  destruct st; simpl.
  - destruct tk; simpl.
    + rewrite (Htick eq_refl). simpl. repeat split; (done || lia).
    + repeat split; (done || auto).
  - destruct (Hst eq_refl) as [-> ->]. simpl. repeat split; (done || lia).
Qed.

Lemma setTick_timer_ok (self : GameTick.t) :
  timer_ok self → timer_ok (GameTick.setTick self).
Proof.
  destruct self as [tk st sch]. unfold timer_ok, GameTick.setTick. simpl.
  intros (Hlen & Htick & Hst & Harmed).
  destruct sch as [|t sch]; simpl in *; [done|].
  destruct sch; simpl in *; [|lia].
  split; [lia|]. split; [done|]. split; [|done].
  intros ->. by destruct (Hst eq_refl).
Qed.

Lemma timed_timer_ok (evs : list timing) (self : GameTick.t) :
  timer_ok self → timer_ok (timed evs self).2.
Proof.
  revert self. induction evs as [|[t|] evs IH]; intros self Hok; [done| |].
  - cbn [timed]. destruct (GameTick.isTick t self) as [due tk] eqn:Hp.
    specialize (IH tk). destruct (timed evs tk) as [answers tk'].
    simpl in *. apply IH. pose proof (isTick_timer_ok t self Hok) as H.
    by rewrite Hp in H.
  - cbn [timed]. by apply IH, setTick_timer_ok.
Qed.

Lemma fires_poll (t : Q) (evs : list timing) :
  fires (poll t :: evs) = fires evs.
Proof. unfold fires. by rewrite filter_cons_False. Qed.

Lemma fires_fire (evs : list timing) : fires (fire :: evs) = S (fires evs).
Proof. unfold fires. by rewrite filter_cons_True. Qed.

Lemma dues_cons (due : bool) (answers : list bool) :
  dues (due :: answers) = ((if due then 1 else 0) + dues answers)%nat.
Proof.
  unfold dues. destruct due.
  - by rewrite filter_cons_True.
  - by rewrite filter_cons_False.
Qed.

Lemma timed_dues (evs : list timing) (self : GameTick.t) :
  (dues (timed evs self).1
   ≤ (if GameTick.tick self then 1 else 0) + fires evs)%nat.
Proof.
  revert self. induction evs as [|[t|] evs IH]; intros self.
  - unfold dues. simpl. lia.
  - cbn [timed]. rewrite fires_poll.
    destruct (GameTick.isTick t self) as [due tk] eqn:Hp.
    specialize (IH tk). destruct (timed evs tk) as [answers tk'].
    cbn [fst] in *. rewrite dues_cons.
    unfold GameTick.isTick in Hp. destruct self as [tck st sch].
    simpl in *. destruct st, tck; injection Hp as <- <-; simpl in *; lia.
  - cbn [timed]. rewrite fires_fire.
    specialize (IH (GameTick.setTick self)).
    unfold GameTick.setTick in *. destruct self as [tck st [|t sch]];
      simpl in *; destruct tck; lia.
Qed.

End Timer.

(** X4.  However a timer is polled and fired: the first poll of a new
    timer answers [tickOnFirstCall]; over any sequence, the polls answer
    [True] at most once per firing of the clock (once more if the timer
    was made with [tickOnFirstCall]); and the timer never has more than
    one [setTick] scheduled, none while its flag is up, and one whenever
    it was started and its flag is down. *)
Theorem isTick_once_per_firing (tickOnFirstCall : bool) (evs : list timing) :
  let self := GameTick.new tickOnFirstCall in
  (∀ t, (GameTick.isTick t self).1 = tickOnFirstCall)
  ∧ (dues (timed evs self).1
     ≤ (if tickOnFirstCall then 1 else 0) + fires evs)%nat
  ∧ timer_ok (timed evs self).2.
Proof.
  intros self. split; [by destruct tickOnFirstCall|]. split.
  - apply (timed_dues evs self).
  - apply timed_timer_ok. unfold timer_ok, self. simpl.
    destruct tickOnFirstCall; repeat split; (done || lia).
Qed.

(** ** Screen coordinates *)

Section Screen.

Lemma gridCoordsToScreenCoords_fmap (self : Board.t) (coords : list Coord) :
  Board.gridCoordsToScreenCoords self coords
  = (fun c : Coord => (Board.x self + c.1 * Board.blockSize self,
                       Board.y self + c.2 * Board.blockSize self)) <$> coords.
Proof.
  unfold Board.gridCoordsToScreenCoords.
  induction coords as [|c coords IH]; [done|]. simpl. by rewrite IH.
Qed.

Lemma screen_inj (x y bs : Z) :
  bs ≠ 0 → Inj (=) (=) (fun c : Coord => (x + c.1 * bs, y + c.2 * bs)).
Proof.
  intros Hbs [a b] [c d] H. simpl in H. inversion H as [[H1 H2]].
  f_equal; nia.
Qed.

End Screen.

(** X5.  [gridCoordsToScreenCoords] yields one screen coordinate per
    block, in order, a block [(col, row)] being put at
    [(x + col * blockSize, y + row * blockSize)]; with a block size other
    than zero different blocks get different screen coordinates, so
    blocks that are pairwise distinct are drawn at pairwise distinct
    places. *)
Theorem gridCoordsToScreenCoords_spec (self : Board.t) (coords : list Coord) :
  Board.blockSize self ≠ 0 →
  let screen := Board.gridCoordsToScreenCoords self coords in
  length screen = length coords
  ∧ (∀ i c, coords !! i = Some c →
       screen !! i = Some (Board.x self + c.1 * Board.blockSize self,
                           Board.y self + c.2 * Board.blockSize self))
  ∧ (∀ c1 c2, c1 ∈ coords → c2 ∈ coords → c1 ≠ c2 →
       Board.gridCoordsToScreenCoords self [c1]
       ≠ Board.gridCoordsToScreenCoords self [c2])
  ∧ (NoDup coords → NoDup screen).
Proof.
  intros Hbs screen. subst screen. rewrite gridCoordsToScreenCoords_fmap.
  split; [by rewrite length_fmap|]. split; [|split].
  - intros i c Hi. by rewrite list_lookup_fmap, Hi.
  - intros c1 c2 _ _ Hne. rewrite !gridCoordsToScreenCoords_fmap. simpl.
    intros [= H1 H2]. apply Hne. destruct c1, c2. simpl in *. f_equal; nia.
  - apply NoDup_fmap_2. by apply screen_inj.
Qed.

Lemma gridCoordsToScreenCoords_spec_witness :
  Board.blockSize tall ≠ 0
  ∧ Board.gridCoordsToScreenCoords tall [(3, 20); (3, 21); (4, 20); (4, 21)]
    = [(517, 493); (517, 517); (541, 493); (541, 517)]
  ∧ NoDup (Board.gridCoordsToScreenCoords tall
             [(3, 20); (3, 21); (4, 20); (4, 21)]).
Proof.
  assert (H1 : Board.blockSize tall ≠ 0) by (vm_compute; discriminate).
  split; [exact H1|]. split; [reflexivity|].
  destruct (gridCoordsToScreenCoords_spec tall
              [(3, 20); (3, 21); (4, 20); (4, 21)] H1) as (_ & _ & _ & Hnd).
  apply Hnd. apply (bool_decide_unpack _). vm_compute. reflexivity.
Defined.

(** ** Counting blocks through a clearing *)

Section Counting.

Lemma blocksInRow_nil (row : Z) : blocksInRow row [] = 0.
Proof. done. Qed.

Lemma blocksInRow_app (row : Z) (l1 l2 : list Coord) :
  blocksInRow row (l1 ++ l2) = blocksInRow row l1 + blocksInRow row l2.
Proof.
  unfold blocksInRow. rewrite filter_app, length_app. lia.
Qed.

Lemma blocksInRow_nonneg (row : Z) (l : list Coord) : 0 ≤ blocksInRow row l.
Proof. unfold blocksInRow. lia. Qed.

Lemma blocksInRow_zero (row : Z) (l : list Coord) :
  (∀ c, c ∈ l → c.2 ≠ row) → blocksInRow row l = 0.
Proof.
  induction l as [|c l IH]; intros Hl; [done|].
  rewrite blocksInRow_cons, IH by (intros; apply Hl; by right).
  rewrite decide_False; [done|]. apply Hl. by left.
Qed.

Lemma blocksInRow_pos (row : Z) (l : list Coord) :
  blocksInRow row l ≠ 0 → ∃ c, c ∈ l ∧ c.2 = row.
Proof.
  induction l as [|c l IH]; [done|]. rewrite blocksInRow_cons.
  destruct (decide (c.2 = row)) as [Hc|Hc].
  - intros _. exists c. split; [by left | done].
  - intros H. destruct IH as (c' & Hin & Hrow); [lia|].
    exists c'. split; [by right | done].
Qed.

(** Clearing a row takes away as many blocks as lie in it. *)
Lemma length_omap_shiftBlock (row : Z) (l : list Coord) :
  Z.of_nat (length (omap (shiftBlock row) l))
  = Z.of_nat (length l) - blocksInRow row l.
Proof.
  induction l as [|c l IH]; [done|].
  rewrite blocksInRow_cons. cbn [omap list_omap]. unfold shiftBlock at 1.
  destruct (decide (c.2 = row)); [simpl; lia|].
  destruct (decide (row < c.2)); simpl; lia.
Qed.

(** After clearing a row, the rows below it hold what they held and
    every other row holds what the row above it held. *)
Lemma blocksInRow_omap_shiftBlock (row r : Z) (l : list Coord) :
  blocksInRow r (omap (shiftBlock row) l)
  = if decide (r < row) then blocksInRow r l else blocksInRow (r + 1) l.
Proof.
  induction l as [|c l IH]; [by case_decide|].
  cbn [omap list_omap]. unfold shiftBlock at 1.
  destruct (decide (c.2 = row)) as [Hc|Hc].
  - rewrite IH, !blocksInRow_cons. repeat case_decide; lia.
  - destruct (decide (row < c.2)); rewrite !blocksInRow_cons, IH;
      simpl; repeat case_decide; lia.
Qed.

(** After clearing rows given in descending order, every row holds what
    some row that was not cleared held. *)
Lemma blocksInRow_clearedCoords (rows : list Z) (l : list Coord) (r : Z) :
  StronglySorted Z.ge rows →
  ∃ r0, (r0 ∉ rows) ∧ r ≤ r0
        ∧ blocksInRow r (clearedCoords rows l) = blocksInRow r0 l.
Proof.
  intros Hs. revert l. induction Hs as [|row rows Hs IH Hle]; intros l.
  - exists r. split; [apply not_elem_of_nil|]. split; [lia | done].
  - rewrite clearedCoords_cons.
    destruct (IH (omap (shiftBlock row) l)) as (r1 & Hr1 & Hle1 & ->).
    rewrite blocksInRow_omap_shiftBlock. rewrite Forall_forall in Hle.
    destruct (decide (r1 < row)).
    + exists r1. split; [|split; [lia | done]].
      rewrite not_elem_of_cons. split; [lia | done].
    + exists (r1 + 1). split; [|split; [lia | done]].
      rewrite not_elem_of_cons. split; [lia|].
      intros Hin. apply Hle in Hin. lia.
Qed.

(** Clearing distinct full rows, highest first, takes away the width of
    the board for each. *)
Lemma length_clearedCoords (W : Z) (rows : list Z) (l : list Coord) :
  StronglySorted Z.ge rows → NoDup rows →
  (∀ row, row ∈ rows → blocksInRow row l = W) →
  Z.of_nat (length (clearedCoords rows l))
  = Z.of_nat (length l) - W * Z.of_nat (length rows).
Proof.
  intros Hs. revert l. induction Hs as [|row rows Hs IH Hle]; intros l Hnd Hfull.
  - simpl. lia.
  - apply NoDup_cons in Hnd as [Hrow Hnd]. rewrite Forall_forall in Hle.
    rewrite clearedCoords_cons, IH; [|done|].
    + rewrite length_omap_shiftBlock, (Hfull row) by left. simpl length. lia.
    + intros r Hr. rewrite blocksInRow_omap_shiftBlock.
      rewrite decide_True.
      * apply Hfull. by right.
      * pose proof (Hle r Hr).
        assert (r ≠ row) by (intros ->; done). lia.
Qed.

Lemma countRows_app (l1 l2 : list Coord) (d : gmap Z Z) :
  Board.countRows (l1 ++ l2) d
  = match Board.countRows l1 d with
    | OK d' => Board.countRows l2 d'
    | KeyError key => KeyError key
    end.
Proof.
  revert d. induction l1 as [|c l1 IH]; intros d; [done|]. simpl.
  destruct (d !! c.2); [apply IH | done].
Qed.

(** The counter raises at the first block whose row it has no entry
    for. *)
Lemma findFullRows_raises (self : Board.t) (before after : list Coord)
    (c : Coord) :
  Board.nonFallingBlockCoords self = before ++ c :: after →
  rows_counted self before →
  ¬ (0 ≤ c.2 < Board.gridHeight self + Board.STARTING_ZONE_HEIGHT) →
  Board.findFullRows self = KeyError c.2.
Proof.
  intros Hnf Hbefore Hc. unfold Board.findFullRows. rewrite Hnf, countRows_app.
  set (rows := seqZ 0 _). set (d := foldl _ ∅ rows).
  destruct (countRows_OK before d) as (d' & -> & Hd').
  { intros c' Hc'. unfold d. rewrite rowCounts_init.
    rewrite decide_True; [by eexists|]. apply elem_of_seqZ.
    specialize (Hbefore c' Hc'). lia. }
  simpl. rewrite Hd'. unfold d. rewrite rowCounts_init.
  rewrite decide_False; [done|]. unfold rows. rewrite elem_of_seqZ. lia.
Qed.

(** If it returns, every listed block was in a counted row. *)
Lemma findFullRows_OK_inv (self : Board.t) (fullRows : list Z) :
  Board.findFullRows self = OK fullRows →
  rows_counted self (Board.nonFallingBlockCoords self).
Proof.
  intros Hok.
  assert (Hall : ∀ prefix rest,
            Board.nonFallingBlockCoords self = prefix ++ rest →
            rows_counted self prefix).
  { intros prefix. induction prefix as [|c prefix IH] using rev_ind.
    - intros rest _ c Hc. by apply elem_of_nil in Hc.
    - intros rest Hnf. rewrite <- app_assoc in Hnf. simpl in Hnf.
      pose proof (IH _ Hnf) as Hp. intros c' [Hc'|Hc']%elem_of_app.
      + by apply Hp.
      + apply list_elem_of_singleton in Hc'. subst c'.
        destruct (decide (0 ≤ c.2 < Board.gridHeight self
                            + Board.STARTING_ZONE_HEIGHT)) as [|Hn]; [done|].
        rewrite (findFullRows_raises self prefix rest c Hnf Hp Hn) in Hok.
        done. }
  apply (Hall _ []). by rewrite app_nil_r.
Qed.

Lemma findFullRows_OK_eq (self : Board.t) (fullRows : list Z) :
  Board.findFullRows self = OK fullRows →
  fullRows
  = filter (fun row => blocksInRow row (Board.nonFallingBlockCoords self)
                       = Board.gridWidth self)
      (seqZ 0 (Board.gridHeight self + Board.STARTING_ZONE_HEIGHT)).
Proof.
  intros Hok. pose proof (findFullRows_OK_inv self fullRows Hok) as Hr.
  rewrite (findFullRows_OK self Hr) in Hok. by injection Hok as <-.
Qed.

End Counting.

(** X6.  [findFullRows] raises [KeyError] exactly when a block of a
    listed tetromino lies outside rows [0 .. gridHeight + 4): it returns
    when all lie inside, and otherwise the key of the error is the row of
    the first such block in the order of the list. *)
Theorem findFullRows_KeyError (self : Board.t) :
  match Board.findFullRows self with
  | OK fullRows => rows_counted self (Board.nonFallingBlockCoords self)
  | KeyError key =>
      ∃ before c after,
        Board.nonFallingBlockCoords self = before ++ c :: after
        ∧ rows_counted self before
        ∧ key = c.2
        ∧ ¬ (0 ≤ key < Board.gridHeight self + Board.STARTING_ZONE_HEIGHT)
  end.
Proof.
  destruct (Board.findFullRows self) as [fullRows|key] eqn:Hf.
  - by apply (findFullRows_OK_inv self fullRows).
  - set (P := fun c : Coord =>
                0 ≤ c.2 < Board.gridHeight self + Board.STARTING_ZONE_HEIGHT).
    destruct (decide (Forall P (Board.nonFallingBlockCoords self))) as [Hall|Hn].
    { rewrite findFullRows_OK in Hf; [done|]. by apply Forall_forall. }
    assert (Hsplit : ∀ l, ¬ Forall P l →
              ∃ before c after, l = before ++ c :: after
                                ∧ Forall P before ∧ ¬ P c).
    { induction l as [|c l IH]; intros Hl; [by destruct Hl|].
      destruct (decide (P c)) as [Hc|Hc].
      - destruct IH as (before & c' & after & -> & Hb & Hc').
        { intros Hl'. apply Hl. by constructor. }
        exists (c :: before), c', after. split; [done|]. split; [|done].
        by constructor.
      - exists [], c, l. split; [done|]. split; [constructor | done]. }
    destruct (Hsplit _ Hn) as (before & c & after & Hnf & Hb & Hc).
    rewrite Forall_forall in Hb.
    rewrite (findFullRows_raises self before after c Hnf Hb Hc) in Hf.
    injection Hf as <-. by exists before, c, after.
Qed.

(** ** The listed blocks from one call to the next *)

Section ListedBlocks.

Lemma spawnTetromino_nonFallingBlockCoords (k : TetrominoType.t)
    (self : Board.t) :
  playing_inv self →
  Board.nonFallingBlockCoords (Board.spawnTetromino k self)
  = Board.nonFallingBlockCoords self.
Proof.
  intros Hinv.
  destruct (spawnTetromino_spec k self (pi_next_live self Hinv))
    as (_ & _ & Ht' & _ & _ & _ & _ & Hdother).
  destruct (pi_refs self Hinv) as [_ Hr]. rewrite Forall_forall in Hr.
  apply nonFallingBlockCoords_ext; [done|]. rewrite Ht'. intros r Hr'.
  unfold cells. rewrite Hdother; [done | by apply Hr |].
  intros ->. by apply (pi_next_fresh self Hinv).
Qed.

Lemma commandFallingTetromino_nonFallingBlockCoords (cmd : Command)
    (self : Board.t) :
  Board.fallingTetromino self ∉ Board.tetrominos self →
  Board.nonFallingBlockCoords (Board.commandFallingTetromino cmd self)
  = Board.nonFallingBlockCoords self.
Proof.
  intros Hf. unfold Board.commandFallingTetromino.
  destruct (Board.isValidPosition _);
    rewrite ?nonFallingBlockCoords_modify; done.
Qed.

Lemma nonFallingBlockCoords_settle (self : Board.t) :
  playing_inv self →
  Board.nonFallingBlockCoords (settle self)
  = Board.nonFallingBlockCoords self
    ++ cells self (Board.fallingTetromino self).
Proof.
  intros Hinv. rewrite (settle_in_sync self (pi_sync self Hinv)).
  unfold Board.nonFallingBlockCoords. simpl.
  rewrite bind_app. simpl. by rewrite app_nil_r.
Qed.

Lemma nonFallingBlockCoords_cleared (rows : list Z) (self : Board.t) :
  playing_inv self →
  Board.nonFallingBlockCoords (Board.clearRows rows (settle self))
  = clearedCoords (Board.sort_reverse rows)
      (Board.nonFallingBlockCoords self
       ++ cells self (Board.fallingTetromino self)).
Proof.
  intros Hinv. unfold Board.clearRows.
  rewrite clearRow_fold_nonFallingBlockCoords.
  - by rewrite nonFallingBlockCoords_settle.
  - apply settle_refs_ok; apply Hinv.
Qed.

(** The listed blocks after a tick. *)
Lemma updateTick_nonFallingBlockCoords (k : TetrominoType.t)
    (self self' : Board.t) (n : Z) (gameLost : bool) :
  playing_inv self →
  Board.updateTick k self = OK (self', (n, gameLost)) →
  let moved :=
    Board.modify (Board.fallingTetromino self) Tetromino.moveDown self in
  (Board.isValidPosition moved = true ∧ n = 0 ∧ gameLost = false
   ∧ Board.nonFallingBlockCoords self' = Board.nonFallingBlockCoords self)
  ∨ (Board.isValidPosition moved = false
     ∧ ∃ fullRows,
         Board.findFullRows (settle self) = OK fullRows
         ∧ n = Z.of_nat (length fullRows)
         ∧ Board.nonFallingBlockCoords self'
           = clearedCoords (Board.sort_reverse fullRows)
               (Board.nonFallingBlockCoords self
                ++ cells self (Board.fallingTetromino self))).
Proof.
  intros Hinv Htick moved. rewrite updateTick_unfold in Htick.
  cbv zeta in Htick. fold moved in Htick.
  destruct (Board.isValidPosition moved) eqn:Hv.
  - left. injection Htick as <- <- <-. repeat split.
    unfold moved. apply nonFallingBlockCoords_modify, Hinv.
  - right. split; [done|].
    destruct (Board.findFullRows (settle self)) as [rows|key]; [|done].
    exists rows. split; [done|].
    injection Htick as <- <- <-. split; [done|].
    rewrite <- nonFallingBlockCoords_cleared by done.
    destruct (Board.isInStartZone _ _); [done|].
    destruct (cleared_facts rows self Hinv)
      as (Hok & Hfr & Hlen & Hnd & Hrows & Hnfresh & Hnext & _).
    destruct (frame_dims _ _ Hfr) as (_ & Hn & _).
    destruct (spawnTetromino_spec k (Board.clearRows rows (settle self)))
      as (_ & _ & Ht' & _ & _ & _ & _ & Hdother).
    { rewrite Hn, Hlen. apply Hinv. }
    destruct Hok as [_ Hr]. rewrite Forall_forall in Hr.
    apply nonFallingBlockCoords_ext; [done|]. rewrite Ht'. intros r Hr'.
    unfold cells. rewrite Hdother; [done | by apply Hr |].
    intros ->. rewrite Hn in Hr'. done.
Qed.

(** The rows a tick clears: distinct, each full before the clearing. *)
Lemma fullRows_facts (self : Board.t) (fullRows : list Z) :
  Board.findFullRows self = OK fullRows →
  NoDup (Board.sort_reverse fullRows)
  ∧ StronglySorted Z.ge (Board.sort_reverse fullRows)
  ∧ length (Board.sort_reverse fullRows) = length fullRows
  ∧ ∀ row, row ∈ Board.sort_reverse fullRows ↔
      0 ≤ row < Board.gridHeight self + Board.STARTING_ZONE_HEIGHT
      ∧ blocksInRow row (Board.nonFallingBlockCoords self)
        = Board.gridWidth self.
Proof.
  intros Hok. pose proof (findFullRows_OK_eq self fullRows Hok) as Heq.
  destruct (sort_reverse_spec fullRows) as [Hperm Hsorted].
  split; [|split; [done|split]].
  - rewrite Hperm, Heq. apply NoDup_filter, NoDup_seqZ.
  - by rewrite Hperm.
  - intros row. rewrite Hperm, Heq, list_elem_of_filter, elem_of_seqZ.
    split; intros [? ?]; (split; [done || lia | done || lia]).
Qed.

End ListedBlocks.

Section FullRowsGone.

(** No row holds as many listed blocks as the board is wide. *)
Definition no_full_row (self : Board.t) : Prop :=
  ∀ row, blocksInRow row (Board.nonFallingBlockCoords self)
         ≠ Board.gridWidth self.

Lemma cleared_no_full_row (W : Z) (fullRows : list Z) (l : list Coord)
    (bound : Z) :
  W ≠ 0 →
  StronglySorted Z.ge fullRows →
  (∀ c, c ∈ l → 0 ≤ c.2 < bound) →
  (∀ row, row ∈ fullRows ↔ 0 ≤ row < bound ∧ blocksInRow row l = W) →
  ∀ row, blocksInRow row (clearedCoords fullRows l) ≠ W.
Proof.
  intros HW Hs Hrange Hfull row.
  destruct (blocksInRow_clearedCoords fullRows l row Hs) as (r0 & Hr0 & _ & ->).
  intros Hcount. destruct (decide (0 ≤ r0 < bound)) as [Hin|Hout].
  - apply Hr0, Hfull. by split.
  - rewrite blocksInRow_zero in Hcount; [lia|].
    intros c Hc <-. apply Hout. by apply Hrange.
Qed.

Lemma step_no_full_row (self self' : Board.t) :
  playing_inv self → Board.gridWidth self ≠ 0 →
  no_full_row self → step self false self' → no_full_row self'.
Proof.
  intros Hinv HW Hno Hstep.
  destruct (dims_fields _ _ (step_dims _ _ _ Hstep)) as (HW' & _).
  unfold no_full_row. rewrite HW'.
  inversion Hstep as [k ? Hk|cmd ?|k ? ? n ? Hk Htick]; subst.
  - by rewrite spawnTetromino_nonFallingBlockCoords.
  - rewrite commandFallingTetromino_nonFallingBlockCoords; [done|apply Hinv].
  - destruct (updateTick_nonFallingBlockCoords k self self' n false Hinv Htick)
      as [(_ & _ & _ & ->)|(_ & rows & Hrows & _ & ->)]; [done|].
    destruct (fullRows_facts _ _ Hrows) as (_ & Hs & _ & Hfull).
    rewrite <- nonFallingBlockCoords_settle by done.
    apply (cleared_no_full_row _ _ _
             (Board.gridHeight (settle self) + Board.STARTING_ZONE_HEIGHT));
      try done.
    by apply (findFullRows_OK_inv _ rows).
Qed.

Lemma playing_no_full_row (self : Board.t) :
  playing self → Board.gridWidth self ≠ 0 → no_full_row self.
Proof.
  induction 1 as [x y W H bs k1 k2 Hk1 Hk2|self self' Hplay IH Hstep];
    intros HW.
  - intros row.
    replace (Board.nonFallingBlockCoords (Board.init x y W H bs k1 k2))
      with (@nil Coord); [rewrite blocksInRow_nil; simpl in *; lia|].
    by unfold Board.nonFallingBlockCoords.
  - destruct (dims_fields _ _ (step_dims _ _ _ Hstep)) as (HW' & _).
    rewrite HW' in HW.
    apply (step_no_full_row self self'); auto using playing_playing_inv.
Qed.

Lemma filter_none {A : Type} (P : A → Prop) `{!∀ a, Decision (P a)}
    (l : list A) :
  (∀ a, a ∈ l → ¬ P a) → filter P l = [].
Proof.
  induction l as [|a l IH]; intros Hl; [done|].
  rewrite filter_cons_False by (apply Hl; left).
  apply IH. intros b Hb. apply Hl. by right.
Qed.

End FullRowsGone.

(** X7.  While the game is being played on a board whose width is not
    zero, no row is left full between two calls: in every row the number
    of blocks of listed tetrominos differs from [gridWidth], and (the
    height not being negative) [findFullRows] returns the empty list.
    Every full row is cleared by the tick that completes it. *)
Theorem no_full_row_left (self : Board.t) :
  playing self →
  Board.gridWidth self ≠ 0 →
  (∀ row, blocksInRow row (Board.nonFallingBlockCoords self)
          ≠ Board.gridWidth self)
  ∧ (0 ≤ Board.gridHeight self → Board.findFullRows self = OK []).
Proof.
  intros Hplay HW. pose proof (playing_no_full_row self Hplay HW) as Hno.
  split; [exact Hno|]. intros HH0.
  pose proof (reachable_rows_inv self (playing_reachable _ Hplay) HH0) as Hinv.
  rewrite findFullRows_OK.
  - f_equal. apply filter_none. intros row _. apply Hno.
  - intros c (r & Hr & Hc)%elem_of_nonFallingBlockCoords.
    by apply (ri_rows self Hinv r Hr).
Qed.

Lemma no_full_row_left_witness :
  playing resting
  ∧ Board.gridWidth resting ≠ 0
  ∧ blocksInRow 0 (Board.nonFallingBlockCoords resting) = 4
  ∧ Board.findFullRows resting = OK [].
Proof.
  assert (HW : Board.gridWidth resting ≠ 0) by (vm_compute; discriminate).
  split; [exact playing_resting|]. split; [exact HW|].
  split; [vm_compute; reflexivity|].
  destruct (no_full_row_left resting playing_resting HW) as [_ Hf].
  apply Hf. vm_compute. discriminate.
Defined.

(** X8.  A tick on a board being played changes the number of listed
    blocks by the four blocks of the tetromino it appends, when the
    tetromino could not move down, less [gridWidth] for every row it
    reports as cleared; a tick that moves the tetromino down leaves the
    number as it is. *)
Theorem updateTick_block_count (k : TetrominoType.t) (self self' : Board.t)
    (n : Z) (gameLost : bool) :
  playing self →
  Board.updateTick k self = OK (self', (n, gameLost)) →
  let moved :=
    Board.modify (Board.fallingTetromino self) Tetromino.moveDown self in
  Z.of_nat (length (Board.nonFallingBlockCoords self'))
  = Z.of_nat (length (Board.nonFallingBlockCoords self))
    + (if Board.isValidPosition moved then 0 else 4)
    - n * Board.gridWidth self.
Proof.
  intros Hplay Htick moved. pose proof (playing_playing_inv self Hplay) as Hinv.
  destruct (updateTick_nonFallingBlockCoords k self self' n gameLost Hinv Htick)
    as [(Hv & -> & _ & ->)|(Hv & rows & Hrows & -> & ->)];
    fold moved in Hv; rewrite Hv; [lia|].
  destruct (fullRows_facts _ _ Hrows) as (Hnd & Hs & Hlen & Hfull).
  rewrite <- nonFallingBlockCoords_settle by done.
  rewrite (length_clearedCoords (Board.gridWidth self)); try done.
  - rewrite Hlen, nonFallingBlockCoords_settle, length_app by done.
    rewrite (pi_sync self Hinv).
    destruct (calc_four_distinct
                (Board.deref self (Board.fallingTetromino self))) as [-> _];
      [apply Hinv|]. lia.
  - intros row Hrow. by apply Hfull in Hrow as [_ ?].
Qed.

(** The board after the tick on [resting]: row 0 cleared, a square
    drawn as the next tetromino. *)
Definition resting_ticked : Board.t :=
  Board.spawnTetromino TetrominoType.square
    (Board.clearRows [0] (settle resting)).

Lemma updateTick_resting :
  Board.updateTick TetrominoType.square resting
  = OK (resting_ticked, (1, false)).
Proof. vm_compute. reflexivity. Qed.

Lemma updateTick_block_count_witness :
  playing resting
  ∧ Board.updateTick TetrominoType.square resting
    = OK (resting_ticked, (1, false))
  ∧ length (Board.nonFallingBlockCoords resting) = 4%nat
  ∧ Board.gridWidth resting = 5
  ∧ Z.of_nat (length (Board.nonFallingBlockCoords resting_ticked)) = 3.
Proof.
  assert (H4 : length (Board.nonFallingBlockCoords resting) = 4%nat)
    by (vm_compute; reflexivity).
  assert (H5 : Board.gridWidth resting = 5) by (vm_compute; reflexivity).
  assert (Hv : Board.isValidPosition
                 (Board.modify (Board.fallingTetromino resting)
                    Tetromino.moveDown resting) = false)
    by (vm_compute; reflexivity).
  split; [exact playing_resting|]. split; [exact updateTick_resting|].
  split; [exact H4|]. split; [exact H5|].
  pose proof (updateTick_block_count TetrominoType.square resting
                resting_ticked 1 false playing_resting updateTick_resting) as H.
  cbv zeta in H. rewrite Hv, H4, H5 in H. lia.
Defined.

(** X9.  On a board being played whose width is not zero, a tick
    reports at most four cleared rows, and never a negative number: a row
    can only become full through a block of the tetromino just
    appended. *)
Theorem updateTick_at_most_four_rows (k : TetrominoType.t)
    (self self' : Board.t) (n : Z) (gameLost : bool) :
  playing self →
  Board.gridWidth self ≠ 0 →
  Board.updateTick k self = OK (self', (n, gameLost)) →
  0 ≤ n ≤ 4.
Proof.
  intros Hplay HW Htick. pose proof (playing_playing_inv self Hplay) as Hinv.
  pose proof (playing_no_full_row self Hplay HW) as Hno.
  destruct (updateTick_nonFallingBlockCoords k self self' n gameLost Hinv Htick)
    as [(_ & -> & _)|(_ & rows & Hrows & -> & _)]; [lia|].
  split; [lia|].
  destruct (fullRows_facts _ _ Hrows) as (Hnd & _ & Hlen & Hfull).
  set (f := Board.fallingTetromino self) in *.
  assert (Hsub : ∀ row, row ∈ Board.sort_reverse rows →
                        row ∈ (snd <$> cells self f)).
  { intros row [_ Hcount]%Hfull.
    rewrite nonFallingBlockCoords_settle, blocksInRow_app in Hcount by done.
    change (Board.gridWidth (settle self)) with (Board.gridWidth self) in Hcount.
    destruct (blocksInRow_pos row (cells self f)) as (c & Hc & <-).
    - fold f in Hcount. specialize (Hno row). lia.
    - apply list_elem_of_fmap. by exists c. }
  pose proof (submseteq_length _ _ (NoDup_submseteq _ _ Hnd Hsub)) as Hle.
  rewrite Hlen, length_fmap in Hle. unfold f in Hle.
  rewrite (pi_sync self Hinv) in Hle.
  destruct (calc_four_distinct
              (Board.deref self (Board.fallingTetromino self))) as [H4 _];
    [apply Hinv|]. lia.
Qed.

Lemma updateTick_at_most_four_rows_witness :
  playing resting
  ∧ Board.gridWidth resting ≠ 0
  ∧ Board.updateTick TetrominoType.square resting
    = OK (resting_ticked, (1, false))
  ∧ 0 ≤ 1 ≤ 4.
Proof.
  assert (HW : Board.gridWidth resting ≠ 0) by (vm_compute; discriminate).
  split; [exact playing_resting|]. split; [exact HW|].
  split; [exact updateTick_resting|].
  exact (updateTick_at_most_four_rows TetrominoType.square resting
           resting_ticked 1 false playing_resting HW updateTick_resting).
Defined.

(** ** Blocks inside the grid *)

Section InsideGrid.

(** The columns of the listed blocks are columns of the grid. *)
Definition columns_ok (self : Board.t) : Prop :=
  ∀ c, c ∈ Board.nonFallingBlockCoords self → 0 ≤ c.1 < Board.gridWidth self.

Lemma falling_inside (self : Board.t) :
  playing_inv self → rows_inv self →
  5 ≤ Board.gridWidth self → 0 ≤ Board.gridHeight self →
  ∀ c, c ∈ cells self (Board.fallingTetromino self) →
       0 ≤ c.1 < Board.gridWidth self
       ∧ 0 ≤ c.2 < Board.gridHeight self + Board.STARTING_ZONE_HEIGHT.
Proof.
  intros Hinv Hrows HW HH c Hc.
  pose proof (pi_valid self Hinv HW HH) as Hv.
  apply isValidPosition_loop_true in Hv. rewrite Forall_forall in Hv.
  destruct (Hv c Hc) as (Hcol & Hrow & _). split; [done|]. split; [done|].
  rewrite (pi_sync self Hinv) in Hc.
  apply calc_bounds in Hc; [|apply Hinv].
  pose proof (ri_y self Hrows). unfold Board.STARTING_ZONE_HEIGHT. lia.
Qed.

Lemma step_columns_ok (self self' : Board.t) :
  playing_inv self → rows_inv self →
  5 ≤ Board.gridWidth self → 0 ≤ Board.gridHeight self →
  columns_ok self → step self false self' → columns_ok self'.
Proof.
  intros Hinv Hrows HW HH Hcols Hstep.
  destruct (dims_fields _ _ (step_dims _ _ _ Hstep)) as (HW' & _).
  unfold columns_ok. rewrite HW'.
  inversion Hstep as [k ? Hk|cmd ?|k ? ? n ? Hk Htick]; subst.
  - by rewrite spawnTetromino_nonFallingBlockCoords.
  - rewrite commandFallingTetromino_nonFallingBlockCoords; [done|apply Hinv].
  - destruct (updateTick_nonFallingBlockCoords k self self' n false Hinv Htick)
      as [(_ & _ & _ & ->)|(_ & rows & _ & _ & ->)]; [done|].
    intros c (c0 & Hc0 & -> & _)%elem_of_clearedCoords.
    apply elem_of_app in Hc0 as [Hc0|Hc0]; [by apply Hcols|].
    by apply (falling_inside self Hinv Hrows HW HH c0).
Qed.

Lemma playing_columns_ok (self : Board.t) :
  playing self →
  5 ≤ Board.gridWidth self → 0 ≤ Board.gridHeight self → columns_ok self.
Proof.
  induction 1 as [x y W H bs k1 k2 Hk1 Hk2|self self' Hplay IH Hstep];
    intros HW HH.
  - intros c Hc. by apply elem_of_nil in Hc.
  - destruct (dims_fields _ _ (step_dims _ _ _ Hstep)) as (HW' & HH' & _).
    rewrite HW' in HW. rewrite HH' in HH.
    apply (step_columns_ok self self'); try done.
    + by apply playing_playing_inv.
    + by apply reachable_rows_inv; [apply playing_reachable|].
    + by apply IH.
Qed.

Lemma length_bind_const {A B : Type} (f : A → list B) (n : nat) (l : list A) :
  (∀ a, length (f a) = n) → length (l ≫= f) = (length l * n)%nat.
Proof.
  intros Hf. induction l as [|a l IH]; [done|].
  rewrite bind_cons, length_app, Hf, IH. simpl. lia.
Qed.

(** Distinct blocks inside a grid are no more than the grid has cells. *)
Lemma NoDup_grid_length (W H : Z) (l : list Coord) :
  0 ≤ W → 0 ≤ H → NoDup l →
  (∀ c, c ∈ l → 0 ≤ c.1 < W ∧ 0 ≤ c.2 < H) →
  Z.of_nat (length l) ≤ W * H.
Proof.
  intros HW HH Hnd Hin.
  set (grid := col ← seqZ 0 W; (fun row => (col, row)) <$> seqZ 0 H).
  assert (Hsub : ∀ c, c ∈ l → c ∈ grid).
  { intros [col row] Hc. destruct (Hin _ Hc) as [Hcol Hrow]. simpl in *.
    apply list_elem_of_bind. exists col. split.
    - apply list_elem_of_fmap. exists row. split; [done|].
      apply elem_of_seqZ. lia.
    - apply elem_of_seqZ. lia. }
  pose proof (submseteq_length _ _ (NoDup_submseteq _ _ Hnd Hsub)) as Hle.
  unfold grid in Hle.
  rewrite (length_bind_const _ (Z.to_nat H)), length_seqZ in Hle
    by (intros; by rewrite length_fmap, length_seqZ).
  nia.
Qed.

End InsideGrid.

(** X10.  On a board at least five columns wide and of a height that is
    not negative, while the game is being played: every block of a listed
    tetromino lies in a column of the grid and in a row of [0 ..
    gridHeight); every block of the falling tetromino lies in a column of
    the grid and in a row of [0 .. gridHeight + 4); and the list never
    holds more blocks than the grid has cells. *)
Theorem blocks_inside_grid (self : Board.t) :
  playing self →
  5 ≤ Board.gridWidth self →
  0 ≤ Board.gridHeight self →
  (∀ c, c ∈ Board.nonFallingBlockCoords self →
        0 ≤ c.1 < Board.gridWidth self ∧ 0 ≤ c.2 < Board.gridHeight self)
  ∧ (∀ c, c ∈ cells self (Board.fallingTetromino self) →
          0 ≤ c.1 < Board.gridWidth self
          ∧ 0 ≤ c.2 < Board.gridHeight self + Board.STARTING_ZONE_HEIGHT)
  ∧ Z.of_nat (length (Board.nonFallingBlockCoords self))
    ≤ Board.gridWidth self * Board.gridHeight self.
Proof.
  intros Hplay HW HH. pose proof (playing_playing_inv self Hplay) as Hinv.
  pose proof (reachable_rows_inv self (playing_reachable _ Hplay) HH) as Hrows.
  assert (Hin : ∀ c, c ∈ Board.nonFallingBlockCoords self →
            0 ≤ c.1 < Board.gridWidth self ∧ 0 ≤ c.2 < Board.gridHeight self).
  { intros c Hc. split; [by apply (playing_columns_ok self)|].
    split; [|by apply (pi_below self Hinv)].
    apply elem_of_nonFallingBlockCoords in Hc as (r & Hr & Hc).
    by apply (ri_rows self Hrows r Hr). }
  split; [exact Hin|]. split; [by apply falling_inside|].
  apply NoDup_grid_length; try done; [lia | apply Hinv].
Qed.

Lemma blocks_inside_grid_witness :
  playing stacked
  ∧ 5 ≤ Board.gridWidth stacked
  ∧ 0 ≤ Board.gridHeight stacked
  ∧ length (Board.nonFallingBlockCoords stacked) = 40%nat
  ∧ Z.of_nat (length (Board.nonFallingBlockCoords stacked))
    ≤ Board.gridWidth stacked * Board.gridHeight stacked.
Proof.
  assert (HW : 5 ≤ Board.gridWidth stacked) by (vm_compute; discriminate).
  assert (HH : 0 ≤ Board.gridHeight stacked) by (vm_compute; discriminate).
  split; [exact playing_stacked|]. split; [exact HW|]. split; [exact HH|].
  split; [vm_compute; reflexivity|].
  destruct (blocks_inside_grid stacked playing_stacked HW HH) as (_ & _ & Hlen).
  exact Hlen.
Defined.

(** ** The order of the rows given to [clearRows] *)

Section RowOrder.

#[local] Instance Zge_antisymm : AntiSymm (=) Z.ge.
Proof. intros a b. lia. Qed.

Lemma sort_reverse_Permutation (rows rows' : list Z) :
  rows ≡ₚ rows' → Board.sort_reverse rows = Board.sort_reverse rows'.
Proof.
  intros Hperm.
  destruct (sort_reverse_spec rows) as [Hp Hs].
  destruct (sort_reverse_spec rows') as [Hp' Hs'].
  apply (StronglySorted_unique Z.ge); [done | done |].
  by rewrite Hp, Hp'.
Qed.

End RowOrder.

(** X11.  [clearRows] does not depend on the order in which the rows
    are given: two lists with the same rows, each as often, lead to the
    same board and store. *)
Theorem clearRows_any_order (rows rows' : list Z) (self : Board.t) :
  rows ≡ₚ rows' → Board.clearRows rows self = Board.clearRows rows' self.
Proof.
  intros Hperm. unfold Board.clearRows.
  by rewrite (sort_reverse_Permutation rows rows').
Qed.

Lemma clearRows_any_order_witness :
  [0; 2; 1] ≡ₚ [1; 0; 2]
  ∧ Board.clearRows [0; 2; 1] (settle resting)
    = Board.clearRows [1; 0; 2] (settle resting)
  ∧ cells (Board.clearRows [1; 0; 2] (settle resting)) 1%nat = [(0, 0)].
Proof.
  assert (H1 : [0; 2; 1] ≡ₚ [1; 0; 2]).
  { change ([0] ++ [2; 1] ≡ₚ [1] ++ [0] ++ [2]).
    rewrite (Permutation_app_comm [0]).
    change ([2; 1] ++ [0] ≡ₚ [1] ++ [0] ++ [2]).
    rewrite (Permutation_app_comm [0] [2]). simpl. apply perm_swap. }
  split; [exact H1|].
  split; [exact (clearRows_any_order _ _ (settle resting) H1)|].
  vm_compute. reflexivity.
Defined.

(** ** Sessions *)

(** A game as tetris.py builds it, on a board of any size. *)
Definition new_game (g0 : Game.t) : Prop :=
  ∃ x y W H bs k1 k2,
    k1 ∈ TetrominoType.TYPES ∧ k2 ∈ TetrominoType.TYPES
    ∧ g0 = Game.init (Board.init x y W H bs k1 k2) InfoDisplay.init
             (Input.mk None).

(** The types a frame may draw come from the catalogue. *)
Definition event_ok (ev : tetris.event) : Prop :=
  match ev with
  | tetris.update_frame k => k ∈ TetrominoType.TYPES
  | _ => True
  end.

(** The games a session passes through: from the start, one handled
    event after the other. *)
Inductive session (g0 : Game.t) : Game.t → Prop :=
  | session_start : session g0 g0
  | session_event keys ev g g' :
      session g0 g → event_ok ev → tetris.handle keys ev g = OK g' →
      session g0 g'.

(** Settles the tests on commands that are known. *)
Ltac decide_commands :=
  repeat match goal with
  | |- context [bool_decide ?P] =>
      first
        [ rewrite (bool_decide_eq_true_2 P) by done
        | rewrite (bool_decide_eq_false_2 P)
            by (done || (let H := fresh in intros H; by apply H)) ]
  end.

Section Session.

Record session_inv (g : Game.t) : Prop := {
  si_reachable : reachable (Game.board g);
  si_playing : Game.lost g = false → playing (Game.board g);
  si_paused :
    InfoDisplay.showPausedLabel (Game.infoDisplay g) = Game.paused g;
  si_rows :
    InfoDisplay.rowsClearedLabel (Game.infoDisplay g) = Game.numRowsCleared g;
  si_gameover :
    InfoDisplay.showGameoverLabel (Game.infoDisplay g) = true →
    Game.lost g = true;
  si_count : 0 ≤ Game.numRowsCleared g;
  si_timer : timer_ok (Game.ticker g)
}.

Lemma new_game_session_inv (g0 : Game.t) : new_game g0 → session_inv g0.
Proof.
  intros (x & y & W & H & bs & k1 & k2 & Hk1 & Hk2 & ->).
  split; simpl; try done.
  - by apply reachable_init.
  - intros _. by apply playing_init.
  - unfold timer_ok. simpl. repeat split; (done || lia).
Qed.

(** A frame of a game that is not lost, in the cases of the code: the
    command read, the pause flag after a toggle, the timer's answer. *)
Lemma update_not_lost (k : TetrominoType.t) (g : Game.t) :
  Game.lost g = false →
  let command := Input.action (Game.input g) in
  let g1 := tetris.with_input (Input.mk None) g in
  let g2 := if bool_decide (command = Some TOGGLE_PAUSE)
            then Game.togglePause g1 else g1 in
  if Game.paused g2 then Game.update k g = OK g2
  else
    let b :=
      match command with
      | Some c =>
          if bool_decide (c ≠ TOGGLE_PAUSE)
          then Board.commandFallingTetromino c (Game.board g)
          else Game.board g
      | None => Game.board g
      end in
    let '(due, tk) := GameTick.isTick (Game.tickSpeed g) (Game.ticker g) in
    let g3 :=
      Game.mk false false (Game.numRowsCleared g) b (Game.infoDisplay g2)
        (Input.mk None) (Game.tickSpeed g) tk (Game.rowsCleared g) in
    if due then
      match Board.updateTick k b with
      | KeyError key => Game.update k g = KeyError key
      | OK (b', (n, l)) =>
          Game.update k g
          = OK (Game.addRowsCleared n
                  (Game.mk false l (Game.numRowsCleared g) b'
                     (Game.infoDisplay g2) (Input.mk None) (Game.tickSpeed g)
                     tk (Some n)))
      end
    else Game.update k g = OK g3.
Proof.
  intros Hlost command g1 g2. unfold Game.update. rewrite Hlost.
  destruct g as [p l nrc b info [a] ts tk rc]. simpl in *. subst l.
  subst command g1 g2. unfold tetris.with_input. simpl.
  destruct a as [[]|], p; decide_commands;
    cbn -[Board.updateTick Board.commandFallingTetromino GameTick.isTick];
    try reflexivity;
    (destruct (GameTick.isTick ts tk) as [[|] tk'];
     cbn -[Board.updateTick Board.commandFallingTetromino];
     [|reflexivity]);
    match goal with
    | |- context [Board.updateTick k ?b] =>
        destruct (Board.updateTick k b) as [[b' [n l]]|]; reflexivity
    end.
Qed.

Lemma updateTick_rows_nonneg (k : TetrominoType.t) (b b' : Board.t) (n : Z)
    (l : bool) :
  Board.updateTick k b = OK (b', (n, l)) → 0 ≤ n.
Proof.
  rewrite updateTick_unfold. cbv zeta.
  destruct (Board.isValidPosition _); [intros [= _ <- _]; lia|].
  destruct (Board.findFullRows _); [|done]. intros [= _ <- _]. lia.
Qed.

Lemma togglePause_session_inv (g : Game.t) :
  session_inv g → session_inv (Game.togglePause g).
Proof. intros [? ? ? ? ? ? ?]. by split. Qed.

Lemma with_input_session_inv (inp : Input.t) (g : Game.t) :
  session_inv g → session_inv (tetris.with_input inp g).
Proof. intros [? ? ? ? ? ? ?]. by split. Qed.

Lemma with_ticker_session_inv (g : Game.t) :
  session_inv g →
  session_inv (tetris.with_ticker (GameTick.setTick (Game.ticker g)) g).
Proof. intros [? ? ? ? ? ? ?]. split; try done. by apply setTick_timer_ok. Qed.

(** The board after the command of a frame, if one is forwarded. *)
Definition commanded (command : option Command) (b : Board.t) : Board.t :=
  match command with
  | Some c =>
      if bool_decide (c ≠ TOGGLE_PAUSE)
      then Board.commandFallingTetromino c b
      else b
  | None => b
  end.

Lemma commanded_reachable (command : option Command) (b : Board.t) :
  reachable b → reachable (commanded command b).
Proof.
  intros Hb. destruct command as [c|]; simpl; [|done].
  case_bool_decide; [|done].
  apply (reachable_step b false); [done | constructor].
Qed.

Lemma commanded_playing (command : option Command) (b : Board.t) :
  playing b → playing (commanded command b).
Proof.
  intros Hb. destruct command as [c|]; simpl; [|done].
  case_bool_decide; [|done].
  apply (playing_step b); [done | constructor].
Qed.

Lemma commanded_dims (command : option Command) (b : Board.t) :
  dims (commanded command b) = dims b.
Proof.
  destruct command as [c|]; simpl; [|done]. case_bool_decide; [|done].
  apply (step_dims b _ false). constructor.
Qed.

Lemma update_session_inv (k : TetrominoType.t) (g g' : Game.t) :
  k ∈ TetrominoType.TYPES →
  session_inv g → Game.update k g = OK g' →
  session_inv g' ∧ dims (Game.board g') = dims (Game.board g).
Proof.
  intros Hk Hinv. destruct (Game.lost g) eqn:Hlost.
  { unfold Game.update. rewrite Hlost. intros [= <-]. split; [|done].
    destruct Hinv. by split. }
  pose proof (update_not_lost k g Hlost) as Hu. cbv zeta in Hu.
  set (g1 := tetris.with_input (Input.mk None) g) in *.
  set (g2 := if bool_decide (Input.action (Game.input g) = Some TOGGLE_PAUSE)
             then Game.togglePause g1 else g1) in *.
  assert (Hinv2 : session_inv g2).
  { unfold g2. case_bool_decide;
      [apply togglePause_session_inv|]; by apply with_input_session_inv. }
  assert (Hb2 : Game.board g2 = Game.board g ∧ Game.lost g2 = false
                ∧ InfoDisplay.showGameoverLabel (Game.infoDisplay g2)
                  = InfoDisplay.showGameoverLabel (Game.infoDisplay g)
                ∧ InfoDisplay.rowsClearedLabel (Game.infoDisplay g2)
                  = InfoDisplay.rowsClearedLabel (Game.infoDisplay g)).
  { unfold g2. by case_bool_decide. }
  destruct Hb2 as (Hb2 & Hl2 & Hgo2 & Hrc2).
  destruct (Game.paused g2) eqn:Hp2.
  { rewrite Hu. intros [= <-]. split; [done | by rewrite Hb2]. }
  fold (commanded (Input.action (Game.input g)) (Game.board g)) in Hu.
  set (b := commanded (Input.action (Game.input g)) (Game.board g)) in *.
  assert (Hrb : reachable b) by (apply commanded_reachable, Hinv).
  assert (Hpb : playing b) by (by apply commanded_playing, Hinv).
  assert (Hdb : dims b = dims (Game.board g)) by apply commanded_dims.
  pose proof (isTick_timer_ok (Game.tickSpeed g) (Game.ticker g)
                (si_timer g Hinv)) as Htk.
  destruct (GameTick.isTick (Game.tickSpeed g) (Game.ticker g)) as [due tk].
  simpl in Htk. destruct due.
  - destruct (Board.updateTick k b) as [[b' [n l]]|key] eqn:Htick;
      rewrite Hu; [|done]. intros [= <-].
    pose proof (updateTick_rows_nonneg _ _ _ _ _ Htick) as Hn.
    assert (Hstep : step b l b') by (by apply (step_tick k b b' n l)).
    split; [|by rewrite <- Hdb; apply (step_dims b b' l)].
    split; simpl; try done.
    + by apply (reachable_step b l).
    + intros ->. by apply (playing_step b).
    + rewrite (si_paused g2 Hinv2). exact Hp2.
    + intros Hgo. rewrite Hgo2 in Hgo. apply (si_gameover g Hinv) in Hgo.
      congruence.
    + pose proof (si_count g Hinv). lia.
  - rewrite Hu. intros [= <-]. split; [|done].
    split; simpl; try done.
    + rewrite (si_paused g2 Hinv2). exact Hp2.
    + rewrite Hrc2. apply Hinv.
    + intros Hgo. rewrite Hgo2 in Hgo. apply (si_gameover g Hinv) in Hgo.
      congruence.
    + apply Hinv.
Qed.

Lemma handle_session_inv (keys : key.t) (ev : tetris.event) (g g' : Game.t) :
  event_ok ev → session_inv g → tetris.handle keys ev g = OK g' →
  session_inv g' ∧ dims (Game.board g') = dims (Game.board g).
Proof.
  intros Hev Hinv. destruct ev as [symbol modifiers|motion| |k]; simpl.
  - intros [= <-]. split; [by apply with_input_session_inv | done].
  - intros [= <-]. split; [by apply with_input_session_inv | done].
  - intros [= <-]. split; [by apply with_ticker_session_inv | done].
  - by apply update_session_inv.
Qed.

Lemma session_session_inv (g0 g : Game.t) :
  new_game g0 → session g0 g →
  session_inv g ∧ dims (Game.board g) = dims (Game.board g0).
Proof.
  intros Hnew. induction 1 as [|keys ev g g' _ [IH Hd] Hev Hh].
  - split; [by apply new_game_session_inv | done].
  - destruct (handle_session_inv keys ev g g' Hev IH Hh) as [Hinv' Hd'].
    split; [done | congruence].
Qed.

Lemma update_returns (k : TetrominoType.t) (g : Game.t) :
  k ∈ TetrominoType.TYPES →
  session_inv g → 0 ≤ Board.gridHeight (Game.board g) →
  ∃ g', Game.update k g = OK g'.
Proof.
  intros Hk Hinv HH. destruct (Game.lost g) eqn:Hlost.
  { unfold Game.update. rewrite Hlost. by eexists. }
  pose proof (update_not_lost k g Hlost) as Hu. cbv zeta in Hu.
  destruct (Game.paused _); [by eexists|].
  fold (commanded (Input.action (Game.input g)) (Game.board g)) in Hu.
  set (b := commanded (Input.action (Game.input g)) (Game.board g)) in *.
  destruct (GameTick.isTick _ _) as [[|] tk]; [|by eexists].
  assert (Hrows : rows_inv b).
  { apply reachable_rows_inv; [apply commanded_reachable, Hinv|].
    destruct (dims_fields _ _ (commanded_dims (Input.action (Game.input g))
                                 (Game.board g))) as (_ & HH' & _).
    fold b in HH'. by rewrite HH'. }
  assert (HHb : 0 ≤ Board.gridHeight b).
  { destruct (dims_fields _ _ (commanded_dims (Input.action (Game.input g))
                                 (Game.board g))) as (_ & HH' & _).
    fold b in HH'. by rewrite HH'. }
  destruct (updateTick_rows_inv k b HHb Hk Hrows) as (b' & n & l & Heq & _).
  rewrite Heq in Hu. by eexists.
Qed.

End Session.

(** X12.  A session never raises.  From a new game on a board whose
    height is not negative, through any key presses, text motions,
    firings of the clock and frames, with whatever constants pyglet has
    for the keys: every event is handled and leaves a game of the
    session; in particular every [update] returns. *)
Theorem session_never_raises (g0 g : Game.t) (keys : key.t)
    (ev : tetris.event) :
  new_game g0 →
  0 ≤ Board.gridHeight (Game.board g0) →
  session g0 g →
  event_ok ev →
  ∃ g', tetris.handle keys ev g = OK g' ∧ session g0 g'.
Proof.
  intros Hnew HH Hs Hev.
  destruct (session_session_inv g0 g Hnew Hs) as [Hinv Hd].
  assert (Hex : ∃ g', tetris.handle keys ev g = OK g').
  { destruct ev as [symbol modifiers|motion| |k]; simpl; try by eexists.
    apply update_returns; try done.
    destruct (dims_fields _ _ Hd) as (_ & -> & _). done. }
  destruct Hex as [g' Hg']. exists g'. split; [done|].
  by apply (session_event g0 keys ev g g').
Qed.

(** X13.  Throughout a session the display follows the game: what
    [Game.draw] draws is the background, then the board, then the counter
    showing [numRowsCleared], which is never negative, then PAUSED exactly
    when the game is paused, then GAME OVER only when the game is lost.
    While the game is not lost its board is one of those a game passes
    through without loss, and the timer has at most one [setTick]
    scheduled. *)
Theorem session_display (g0 g : Game.t) :
  new_game g0 →
  session g0 g →
  Game.draw g
  = [Blit BackgroundImage 0 0]
    ++ Board.draw (Game.board g)
    ++ [DrawLabel (ROWS_CLEARED (Game.numRowsCleared g))]
    ++ (if Game.paused g then [DrawLabel PAUSED] else [])
    ++ (if InfoDisplay.showGameoverLabel (Game.infoDisplay g)
        then [DrawLabel GAME_OVER] else [])
  ∧ 0 ≤ Game.numRowsCleared g
  ∧ (InfoDisplay.showGameoverLabel (Game.infoDisplay g) = true →
     Game.lost g = true)
  ∧ (Game.lost g = false → playing (Game.board g))
  ∧ timer_ok (Game.ticker g)
  ∧ dims (Game.board g) = dims (Game.board g0).
Proof.
  intros Hnew Hs.
  destruct (session_session_inv g0 g Hnew Hs)
    as [[Hreach Hplay Hp Hr Hgo Hcount Htimer] Hd].
  split; [|split; [exact Hcount|split; [exact Hgo|split; [exact Hplay|]]]].
  - unfold Game.draw, InfoDisplay.draw. by rewrite Hp, Hr.
  - split; [exact Htimer | exact Hd].
Qed.

(** The events of a list handled one after the other. *)
Fixpoint handle_all (keys : key.t) (evs : list tetris.event) (g : Game.t)
    : result Game.t :=
  match evs with
  | [] => OK g
  | ev :: rest =>
      match tetris.handle keys ev g with
      | OK g' => handle_all keys rest g'
      | KeyError key => KeyError key
      end
  end.

Lemma handle_all_session (keys : key.t) (evs : list tetris.event)
    (g0 g g' : Game.t) :
  Forall event_ok evs → session g0 g → handle_all keys evs g = OK g' →
  session g0 g'.
Proof.
  intros Hevs. revert g. induction Hevs as [|ev evs Hev Hevs IH]; intros g Hs.
  - by intros [= <-].
  - cbn [handle_all]. destruct (tetris.handle keys ev g) as [g1|] eqn:Hh; [|done].
    apply IH. by apply (session_event g0 keys ev g g1).
Qed.

Lemma tetris_new_game (k1 k2 : TetrominoType.t) :
  k1 ∈ TetrominoType.TYPES → k2 ∈ TetrominoType.TYPES →
  new_game (tetris.game k1 k2).
Proof.
  intros Hk1 Hk2.
  by exists tetris.BOARD_X, tetris.BOARD_Y, tetris.GRID_WIDTH,
    tetris.GRID_HEIGHT, tetris.BLOCK_SIZE, k1, k2.
Qed.

(** The game of tetris.py a few events in: the left arrow, a frame that
    moves the first tetromino left and arms the timer, the clock, the
    space bar, and a frame that pauses. *)
Definition early_events : list tetris.event :=
  [tetris.on_text_motion 65361; tetris.update_frame TetrominoType.line;
   tetris.clock_setTick; tetris.on_key_press 32 0;
   tetris.update_frame TetrominoType.line].

Definition early_start : Game.t :=
  tetris.game TetrominoType.T_shape TetrominoType.square.

Definition early : Game.t :=
  match handle_all pyglet_keys early_events early_start with
  | OK g => g
  | KeyError _ => early_start
  end.

Lemma T_shape_in_TYPES : TetrominoType.T_shape ∈ TetrominoType.TYPES.
Proof. unfold TetrominoType.TYPES. do 6 right. by left. Qed.

Lemma session_early : session early_start early.
Proof.
  apply (handle_all_session pyglet_keys early_events early_start early_start).
  - unfold early_events. repeat constructor; exact line_in_TYPES.
  - constructor.
  - vm_compute. reflexivity.
Qed.

Lemma new_game_early_start : new_game early_start.
Proof. apply tetris_new_game; [exact T_shape_in_TYPES | exact square_in_TYPES]. Qed.

Lemma session_never_raises_witness :
  new_game early_start
  ∧ 0 ≤ Board.gridHeight (Game.board early_start)
  ∧ session early_start early
  ∧ event_ok (tetris.update_frame TetrominoType.line)
  ∧ ∃ g', tetris.handle pyglet_keys (tetris.update_frame TetrominoType.line)
            early = OK g'.
Proof.
  assert (HH : 0 ≤ Board.gridHeight (Game.board early_start))
    by (vm_compute; discriminate).
  split; [exact new_game_early_start|]. split; [exact HH|].
  split; [exact session_early|]. split; [exact line_in_TYPES|].
  destruct (session_never_raises early_start early pyglet_keys
              (tetris.update_frame TetrominoType.line) new_game_early_start HH
              session_early line_in_TYPES) as (g' & Hg' & _).
  by exists g'.
Defined.

Lemma session_display_witness :
  new_game early_start
  ∧ session early_start early
  ∧ Game.paused early = true
  ∧ Game.draw early
    = [Blit BackgroundImage 0 0]
      ++ Board.draw (Game.board early)
      ++ [DrawLabel (ROWS_CLEARED 0); DrawLabel PAUSED].
Proof.
  split; [exact new_game_early_start|]. split; [exact session_early|].
  split; [vm_compute; reflexivity|].
  destruct (session_display early_start early new_game_early_start
              session_early) as (Hdraw & _).
  rewrite Hdraw. vm_compute. reflexivity.
Defined.

(** X14.  A frame of a paused game with no toggle pending does
    nothing but take the pending input away: the command is not passed to
    the board, the timer is not polled, and the board, the counters, the
    flags and the display are as they were. *)
Theorem update_paused (k : TetrominoType.t) (g : Game.t) :
  Game.lost g = false →
  Game.paused g = true →
  Input.action (Game.input g) ≠ Some TOGGLE_PAUSE →
  Game.update k g = OK (tetris.with_input (Input.mk None) g).
Proof.
  intros Hlost Hp Ha. pose proof (update_not_lost k g Hlost) as Hu.
  cbv zeta in Hu. rewrite bool_decide_eq_false_2 in Hu by done.
  simpl in Hu. by rewrite Hp in Hu.
Qed.

Lemma update_paused_witness :
  Game.lost early = false
  ∧ Game.paused early = true
  ∧ Input.action (Game.input early) ≠ Some TOGGLE_PAUSE
  ∧ Game.update TetrominoType.line
      (tetris.with_input (Input.mk (Some MOVE_LEFT)) early)
    = OK early.
Proof.
  assert (H1 : Game.lost (tetris.with_input (Input.mk (Some MOVE_LEFT)) early)
               = false) by (vm_compute; reflexivity).
  assert (H2 : Game.paused (tetris.with_input (Input.mk (Some MOVE_LEFT)) early)
               = true) by (vm_compute; reflexivity).
  assert (H3 : Input.action
                 (Game.input (tetris.with_input (Input.mk (Some MOVE_LEFT)) early))
               ≠ Some TOGGLE_PAUSE) by (vm_compute; discriminate).
  split; [exact H1|]. split; [exact H2|].
  split; [vm_compute; discriminate|].
  rewrite (update_paused TetrominoType.line _ H1 H2 H3).
  vm_compute. reflexivity.
Defined.

(** X15.  Two frames that each find a toggle pending bring the game
    back, when the timer is armed and not due: the first flips [paused]
    and the PAUSED flag and leaves the board and the timer alone, the
    second flips them back, and the game is then the one before the first
    frame with no input pending.  (The frame that ends a pause also polls
    the timer; when a tick is due it ticks the board in that frame.) *)
Theorem togglePause_twice (k1 k2 : TetrominoType.t) (g : Game.t) :
  Game.lost g = false →
  InfoDisplay.showPausedLabel (Game.infoDisplay g) = Game.paused g →
  GameTick.started (Game.ticker g) = true →
  GameTick.tick (Game.ticker g) = false →
  Input.action (Game.input g) = Some TOGGLE_PAUSE →
  let g1 := tetris.with_input (Input.mk None) (Game.togglePause g) in
  Game.update k1 g = OK g1
  ∧ Game.paused g1 = negb (Game.paused g)
  ∧ Game.board g1 = Game.board g
  ∧ Game.ticker g1 = Game.ticker g
  ∧ Game.update k2 (tetris.with_input (Input.mk (Some TOGGLE_PAUSE)) g1)
    = OK (tetris.with_input (Input.mk None) g).
Proof.
  intros Hlost Hlabel Hst Htick Ha g1. subst g1.
  destruct g as [p l nrc b [rcl spl sgl] [a] ts [tck st sch] rc].
  cbn in Hlost, Hlabel, Hst, Htick, Ha. subst.
  set (g := Game.mk p false nrc b (InfoDisplay.mk rcl p sgl)
              (Input.mk (Some TOGGLE_PAUSE)) ts
              (GameTick.mk false true sch) rc).
  set (g1 := tetris.with_input (Input.mk None) (Game.togglePause g)).
  set (g1' := tetris.with_input (Input.mk (Some TOGGLE_PAUSE)) g1).
  generalize (update_not_lost k1 g eq_refl).
  generalize (update_not_lost k2 g1' eq_refl).
  subst g1' g1 g. cbv zeta.
  unfold tetris.with_input, Game.togglePause, GameTick.isTick.
  cbn -[Board.updateTick Board.commandFallingTetromino Game.update bool_decide].
  decide_commands.
  destruct p;
    cbn -[Board.updateTick Board.commandFallingTetromino Game.update
          bool_decide];
    intros -> ->; repeat split.
Qed.

(** The game of tetris.py after its first frame, which arms the timer,
    with the space bar pressed since. *)
Definition armed : Game.t :=
  match handle_all pyglet_keys
          [tetris.update_frame TetrominoType.line; tetris.on_key_press 32 0]
          early_start with
  | OK g => g
  | KeyError _ => early_start
  end.

Lemma togglePause_twice_witness :
  Game.lost armed = false
  ∧ InfoDisplay.showPausedLabel (Game.infoDisplay armed) = Game.paused armed
  ∧ GameTick.started (Game.ticker armed) = true
  ∧ GameTick.tick (Game.ticker armed) = false
  ∧ Input.action (Game.input armed) = Some TOGGLE_PAUSE
  ∧ Game.paused armed = false
  ∧ ∃ g1,
      Game.update TetrominoType.line armed = OK g1
      ∧ Game.paused g1 = true
      ∧ Game.update TetrominoType.line
          (tetris.with_input (Input.mk (Some TOGGLE_PAUSE)) g1)
        = OK (tetris.with_input (Input.mk None) armed).
Proof.
  assert (H1 : Game.lost armed = false) by (vm_compute; reflexivity).
  assert (H2 : InfoDisplay.showPausedLabel (Game.infoDisplay armed)
               = Game.paused armed) by (vm_compute; reflexivity).
  assert (H3 : GameTick.started (Game.ticker armed) = true)
    by (vm_compute; reflexivity).
  assert (H4 : GameTick.tick (Game.ticker armed) = false)
    by (vm_compute; reflexivity).
  assert (H5 : Input.action (Game.input armed) = Some TOGGLE_PAUSE)
    by (vm_compute; reflexivity).
  assert (H6 : Game.paused armed = false) by (vm_compute; reflexivity).
  split; [exact H1|]. split; [exact H2|]. split; [exact H3|].
  split; [exact H4|]. split; [exact H5|]. split; [exact H6|].
  destruct (togglePause_twice TetrominoType.line TetrominoType.line armed
              H1 H2 H3 H4 H5) as (Hu1 & Hp1 & _ & _ & Hu2).
  eexists. split; [exact Hu1|]. split; [|exact Hu2].
  rewrite Hp1, H6. reflexivity.
Defined.

(** ** Drawing the board *)

Section Drawing.









End Drawing.



(** ** The game of tetris.py *)

Section Tetris.

Lemma playing_findFullRows_nil (self : Board.t) :
  playing self → Board.gridWidth self ≠ 0 → 0 ≤ Board.gridHeight self →
  Board.findFullRows self = OK [].
Proof.
  intros Hplay HW HH.
  pose proof (reachable_rows_inv self (playing_reachable _ Hplay) HH) as Hinv.
  rewrite findFullRows_OK.
  - f_equal. apply filter_none. intros row _.
    by apply playing_no_full_row.
  - intros c (r & Hr & Hc)%elem_of_nonFallingBlockCoords.
    by apply (ri_rows self Hinv r Hr).
Qed.

End Tetris.

(** X17.  The game that tetris.py starts, on its board of 10 by 20
    with blocks of 24: whatever is pressed and whenever the clock fires,
    every handler and every frame returns; the board keeps its size; and
    as long as the game is not lost, the falling tetromino is at a
    position [isValidPosition] accepts, every block of a listed tetromino
    lies in columns 0 to 9 and rows 0 to 19, and no row is full. *)
Theorem tetris_game_safe (k1 k2 : TetrominoType.t) (g : Game.t) (keys : key.t)
    (ev : tetris.event) :
  k1 ∈ TetrominoType.TYPES → k2 ∈ TetrominoType.TYPES →
  session (tetris.game k1 k2) g →
  event_ok ev →
  (∃ g', tetris.handle keys ev g = OK g')
  ∧ Board.gridWidth (Game.board g) = 10
  ∧ Board.gridHeight (Game.board g) = 20
  ∧ Board.blockSize (Game.board g) = 24
  ∧ (Game.lost g = false →
     Board.isValidPosition (Game.board g) = true
     ∧ Board.findFullRows (Game.board g) = OK []
     ∧ ∀ c, c ∈ Board.nonFallingBlockCoords (Game.board g) →
            0 ≤ c.1 < 10 ∧ 0 ≤ c.2 < 20).
Proof.
  intros Hk1 Hk2 Hs Hev.
  pose proof (tetris_new_game k1 k2 Hk1 Hk2) as Hnew.
  destruct (session_session_inv _ g Hnew Hs) as [Hinv Hd].
  assert (Hdims : Board.gridWidth (Game.board g) = 10
                  ∧ Board.gridHeight (Game.board g) = 20
                  ∧ Board.blockSize (Game.board g) = 24).
  { unfold dims in Hd. by injection Hd as _ _ -> -> _ _ ->. }
  destruct Hdims as (HW & HH & Hbs).
  split; [|split; [done|split; [done|split; [done|]]]].
  - destruct ev as [symbol modifiers|motion| |k]; simpl; try by eexists.
    apply update_returns; try done. rewrite HH. lia.
  - intros Hlost. pose proof (si_playing g Hinv Hlost) as Hplay.
    pose proof (playing_playing_inv _ Hplay) as Hpinv.
    split; [apply (pi_valid _ Hpinv); lia|].
    split; [apply playing_findFullRows_nil; (done || lia)|].
    intros c Hc. rewrite <- HW, <- HH. split.
    + apply (playing_columns_ok _ Hplay); (done || lia).
    + split; [|by apply (pi_below _ Hpinv)].
      apply elem_of_nonFallingBlockCoords in Hc as (r & Hr & Hc).
      assert (Hrows : rows_inv (Game.board g))
        by (apply reachable_rows_inv; [apply Hinv | lia]).
      by apply (ri_rows _ Hrows r Hr).
Qed.

Lemma tetris_game_safe_witness :
  TetrominoType.T_shape ∈ TetrominoType.TYPES
  ∧ TetrominoType.square ∈ TetrominoType.TYPES
  ∧ session (tetris.game TetrominoType.T_shape TetrominoType.square) early
  ∧ event_ok (tetris.update_frame TetrominoType.line)
  ∧ Game.lost early = false
  ∧ Board.isValidPosition (Game.board early) = true.
Proof.
  split; [exact T_shape_in_TYPES|]. split; [exact square_in_TYPES|].
  split; [exact session_early|]. split; [exact line_in_TYPES|].
  assert (Hl : Game.lost early = false) by (vm_compute; reflexivity).
  split; [exact Hl|].
  destruct (tetris_game_safe TetrominoType.T_shape TetrominoType.square early
              pyglet_keys (tetris.update_frame TetrominoType.line)
              T_shape_in_TYPES square_in_TYPES session_early line_in_TYPES)
    as (_ & _ & _ & _ & Hsafe).
  by destruct (Hsafe Hl) as (Hv & _).
Defined.
